(** * LocalCollection: the in-process vector collection of qdrant_client

    A shallow embedding of [qdrant_client/local/local_collection.py].

    - Python exceptions are the [Raise] outcomes of the [result] type; a
      method that mutates [self] returns the outcome together with the
      collection as the call leaves it, also when it raises.
    - Dictionaries read by key ([self.vectors], the vectors of a point,
      payloads) are [gmap]s. The order in which the vectors of a point
      are written, which shows in the rows an upsert has written when a
      later row makes it raise, is the insertion order of the caller's
      dict: it is the parameter [dict_items], any order of the entries.
      [self.ids], whose [items()] order feeds [sorted] and the filter
      selectors, is an association list in insertion order.
    - The matrices are [float32] arrays: an entry written into a row is
      rounded by [to_float32].
    - numpy scalars, the distance kernels, the payload filter evaluator,
      [argsort], [mean] and [uuid.UUID] live outside this module: they are
      the fields of the classes [Scalars] and [Kernels]. *)

From Stdlib Require Import ZArith String Bool Lia.
From Stdlib Require Import Sorting.Permutation Sorting.Sorted.
From stdpp Require Import base option list gmap strings fin_maps sorting.

Local Open Scope string_scope.
Local Open Scope list_scope.

(** ** Exceptions *)

Inductive exn : Type :=
| ValueError | AssertionError | KeyError | IndexError | TypeError.

Inductive result (A : Type) : Type :=
| Ok (a : A)
| Raise (e : exn).
Arguments Ok {A} a.
Arguments Raise {A} e.

#[global] Instance result_ret : MRet result := λ A a, Ok a.
#[global] Instance result_bind : MBind result := λ A B f m,
  match m with Ok a => f a | Raise e => Raise e end.
#[global] Instance result_fmap : FMap result := λ A B f m,
  match m with Ok a => Ok (f a) | Raise e => Raise e end.

(** [xs[i]] on a Python list or a one-dimensional numpy array, for an
    index that is a non-negative integer. *)
Definition index {A} (xs : list A) (i : nat) : result A :=
  match xs !! i with Some x => Ok x | None => Raise IndexError end.

(** [xs[i] = x]: numpy and Python both raise when [i] is out of range. *)
Definition assign {A} (xs : list A) (i : nat) (x : A) : result (list A) :=
  if decide (i < length xs)%nat then Ok (<[i:=x]> xs) else Raise IndexError.

(** [xs[n:]], [xs[:n]] and [xs[n]] for a Python [int] [n]: a negative [n]
    counts from the end of the list. *)
Definition py_slice_from {A} (n : Z) (xs : list A) : list A :=
  if (0 <=? n)%Z then drop (Z.to_nat n) xs
  else drop (length xs - Z.to_nat (- n)) xs.

Definition py_slice_to {A} (n : Z) (xs : list A) : list A :=
  if (0 <=? n)%Z then take (Z.to_nat n) xs
  else take (length xs - Z.to_nat (- n)) xs.

Definition py_index {A} (xs : list A) (n : Z) : result A :=
  if (0 <=? n)%Z then index xs (Z.to_nat n)
  else if (- n <=? Z.of_nat (length xs))%Z
       then index xs (length xs - Z.to_nat (- n))
  else Raise IndexError.

(** ** Point ids *)

(** [models.ExtendedPointId]: a Python [int] or a [str]. *)
Inductive PointId : Type :=
| IntId (n : Z)
| StrId (s : string).

#[global] Instance PointId_eq_dec : EqDecision PointId.
Proof. solve_decision. Defined.

(** A [dict] keyed by point ids, in insertion order. *)
Fixpoint dict_get {V} (d : list (PointId * V)) (k : PointId) : option V :=
  match d with
  | [] => None
  | (k', v) :: d' => if decide (k' = k) then Some v else dict_get d' k
  end.

Fixpoint dict_set {V} (d : list (PointId * V)) (k : PointId) (v : V)
  : list (PointId * V) :=
  match d with
  | [] => [(k, v)]
  | (k', v') :: d' =>
      if decide (k' = k) then (k, v) :: d' else (k', v') :: dict_set d' k v
  end.

(** ** Scalars and kernels that the collection does not own *)

Inductive DistanceOrder : Type := BIGGER_IS_BETTER | SMALLER_IS_BETTER.

#[global] Instance DistanceOrder_eq_dec : EqDecision DistanceOrder.
Proof. solve_decision. Defined.

Class Scalars : Type := {
  (** an entry of a numpy float array *)
  F : Type;
  fzero : F;
  fadd : F → F → F;
  fsub : F → F → F;
  fmul : F → F → F;
  ftwo : F;
  (** Python's [<] on two scores; [a > b] is [flt b a] *)
  flt : F → F → bool;
  (** doubling is exact in binary floating point *)
  fmul_two : ∀ x, fmul ftwo x = fadd x x;
  (** [numpy.float32(x)]: the rounding an entry undergoes when it is
      written into an array of [dtype=np.float32] *)
  to_float32 : F → F;
  (** a JSON value of a payload *)
  Value : Type;
  (** [models.Distance] *)
  Distance : Type;
  (** a filter condition other than [HasIdCondition] *)
  FieldCondition : Type;
}.

Section DataModel.
Context `{Scalars}.

(** [models.Payload = Dict[str, Any]] *)
Definition Payload : Type := gmap string Value.

Inductive Condition : Type :=
| HasIdCondition (has_id : list PointId)
| OtherCondition (c : FieldCondition).

(** [models.Filter] *)
Record Filter : Type := {
  should : option (list Condition);
  must : option (list Condition);
  must_not : option (list Condition);
}.

(** [models.VectorParams]; the field [size] is [params_size] here, next to
    the [size] of a finite map. *)
Record VectorParams : Type := {
  params_size : nat;
  params_distance : Distance;
}.

(** [models.CreateCollection]: [vectors] is one [VectorParams] or a dict
    of them by name. The shard, replication and payload-storage fields
    are only echoed by [info] and are left out. *)
Record CreateCollection : Type := {
  cfg_vectors : VectorParams + gmap string VectorParams;
}.

(** A two-dimensional numpy array: [shape[1]] is kept beside the rows
    because an array with no rows still has a width. *)
Record Matrix : Type := {
  ncols : nat;
  mrows : list (list F);
}.

(** [models.VectorStruct]: a bare list or a dict of lists by name. *)
Inductive VectorStruct : Type :=
| VList (v : list F)
| VDict (vs : gmap string (list F)).

Record PointStruct : Type := {
  pt_id : PointId;
  pt_payload : option Payload;
  pt_vector : VectorStruct;
}.

Record Record_ : Type := {
  rec_id : PointId;
  rec_payload : option Payload;
  rec_vector : option VectorStruct;
}.

Record ScoredPoint : Type := {
  sp_id : PointId;
  sp_score : F;
  sp_version : Z;
  sp_payload : option Payload;
  sp_vector : option VectorStruct;
}.

(** [models.Batch] *)
Record Batch : Type := {
  batch_ids : list PointId;
  batch_payloads : option (list (option Payload));
  batch_vectors : list (list F) + gmap string (list (list F));
}.

(** The argument of [upsert]: a list of points or a [Batch]. *)
Inductive Points : Type :=
| PointsList (points : list PointStruct)
| PointsBatch (batch : Batch).

(** What the persistence adapter was asked to do, latest call last. *)
Inductive StorageCall : Type :=
| persist (point : PointStruct)
| delete_ (point_id : PointId).

Record LocalCollection : Type := {
  vectors : gmap string Matrix;
  payload : list (option Payload);
  deleted : list bool;
  ids : list (PointId * nat);
  ids_inv : list PointId;
  storage : option (list StorageCall);
  config : CreateCollection;
}.

(** The [with_payload] argument: a [bool], a list of keys, or one of the
    two [PayloadSelector] objects. *)
Inductive WithPayload : Type :=
| WPBool (b : bool)
| WPList (keys : list string)
| WPInclude (include : list string)
| WPExclude (exclude : list string).

(** The [with_vectors] argument: a [bool] or a list of names. *)
Inductive WithVectors : Type :=
| WVBool (b : bool)
| WVList (names : list string).

(** The four shapes [_resolve_vector_name] accepts. *)
Inductive QueryVector : Type :=
| QTuple (name : string) (vector : list F)
| QNamedVector (name : string) (vector : list F)
| QArray (vector : list F)
| QList (vector : list F).

(** The shapes [_selector_to_ids] accepts. *)
Inductive Selector : Type :=
| SelList (points : list PointId)
| SelFilter (f : Filter)
| SelPointIdsList (points : list PointId)
| SelFilterSelector (f : Filter).

End DataModel.

Class Kernels `{Scalars} : Type := {
  (** [distances.distance_to_order] *)
  distance_to_order : Distance → DistanceOrder;
  (** [distances.calculate_distance query matrix distance] *)
  calculate_distance : list F → list (list F) → Distance → result (list F);
  (** [payload_filters.calculate_payload_mask payloads filter ids_inv] *)
  calculate_payload_mask :
    list (option Payload) → option Filter → list PointId → list bool;
  (** [numpy.argsort] *)
  argsort : list F → list nat;
  (** [numpy.mean(_, axis=0)] of a stack of rows *)
  np_mean : list (list F) → list F;
  (** whether [uuid.UUID(s)] accepts [s] *)
  uuid_valid : string → bool;
  (** [d.items()] for the dict of the vectors of a point: its entries in
      insertion order, which the content of the dict does not fix; any
      order of the entries may be the one *)
  dict_items : gmap string (list F) → list (string * list F);
  dict_items_perm : ∀ d, dict_items d ≡ₚ map_to_list d;
}.

(** ** numpy and Python helpers *)

Section Helpers.
Context `{Scalars}.

(** An elementwise numpy operation on two one-dimensional arrays: equal
    lengths, or one operand of length one that is broadcast. *)
Definition np_elementwise {A B C} (op : A → B → C) (xs : list A) (ys : list B)
  : result (list C) :=
  if decide (length xs = length ys) then Ok (zip_with op xs ys)
  else match xs, ys with
       | [x], _ => Ok (op x <$> ys)
       | _, [y] => Ok ((λ x, op x y) <$> xs)
       | _, _ => Raise ValueError
       end.

(** [np.zeros((0, size), dtype=np.float32)] *)
Definition np_zeros (size : nat) : Matrix := {| ncols := size; mrows := [] |}.

(** [np.resize(a, (n, a.shape[1]))]: the flattened entries of [a] are
    repeated to fill the new shape, which for an unchanged width repeats
    the rows; an array with no entries gives zeros. *)
Definition np_resize (a : Matrix) (n : nat) : Matrix :=
  {| ncols := ncols a;
     mrows := match mrows a, ncols a with
              | [], _ | _, O => replicate n (replicate (ncols a) fzero)
              | r :: rs, _ =>
                  (λ i, default r ((r :: rs) !! (i mod length (r :: rs))%nat))
                    <$> seq 0 n
              end |}.

(** What numpy stores in a row of width [n] of a [float32] array when
    it is assigned [vector]: the entries cast to [float32] when the vector
    has that width, a single entry cast and broadcast to the width, and an
    error otherwise. *)
Definition broadcast_row (n : nat) (vector : list F) : result (list F) :=
  if decide (length vector = n) then Ok (to_float32 <$> vector)
  else match vector with
       | [x] => Ok (replicate n (to_float32 x))
       | _ => Raise ValueError
       end.

(** [a[idx] = vector] for a [float32] array [a] *)
Definition set_row (a : Matrix) (idx : nat) (vector : list F) : result Matrix :=
  if decide (idx < length (mrows a))%nat then
    row ← broadcast_row (ncols a) vector;
    Ok {| ncols := ncols a; mrows := <[idx:=row]> (mrows a) |}
  else Raise IndexError.

(** A dict comprehension [{k: f(k, v) for k, v in d.items()}] whose body
    may raise. *)
Definition dict_comprehension {A B} (f : string → A → result B)
    (d : gmap string A) : result (gmap string B) :=
  kvs ← mapM (λ kv, b ← f kv.1 kv.2; Ok (kv.1, b)) (map_to_list d);
  Ok (list_to_map kvs).

(** Row [idx] of a matrix that has one. *)
Definition row_at (idx : nat) (m : Matrix) : list F :=
  default [] (mrows m !! idx).

(** [sorted(xs, key=key)] for keys compared by [lt]: Python's sort is
    stable, elements with equal keys keep their order. *)
Fixpoint insert_by {A K} (lt : K → K → bool) (key : A → K) (x : A)
    (xs : list A) : list A :=
  match xs with
  | [] => [x]
  | y :: ys => if lt (key y) (key x) then y :: insert_by lt key x ys
               else x :: y :: ys
  end.

Definition sorted {A K} (lt : K → K → bool) (key : A → K) (xs : list A)
  : list A :=
  foldr (insert_by lt key) [] xs.

(** [<] on the tuples [(str, int)] that [_universal_id] returns. *)
Definition tuple_lt (a b : string * Z) : bool :=
  String.ltb a.1 b.1 || (String.eqb a.1 b.1 && (a.2 <? b.2)%Z).

Fixpoint take_while {A} (p : A → bool) (xs : list A) : list A :=
  match xs with
  | [] => []
  | x :: xs' => if p x then x :: take_while p xs' else []
  end.

End Helpers.

(** ** Read paths *)

Section Queries.
Context `{Kernels}.

Definition DEFAULT_VECTOR_NAME : string := EmptyString.

Definition _resolve_vector_name (query_vector : QueryVector)
  : string * list F :=
  match query_vector with
  | QTuple name vector => (name, vector)
  | QNamedVector name vector => (name, vector)
  | QArray vector => (DEFAULT_VECTOR_NAME, vector)
  | QList vector => (DEFAULT_VECTOR_NAME, vector)
  end.

Definition get_vector_params (self : LocalCollection) (name : string)
  : result VectorParams :=
  match cfg_vectors (config self) with
  | inr d => match d !! name with
             | Some params => Ok params
             | None => Raise ValueError
             end
  | inl params =>
      if decide (name = DEFAULT_VECTOR_NAME) then Ok params
      else Raise ValueError
  end.

(** [{key: payload.get(key) for key in keys if key in payload}]:
    [key in None] raises as soon as there is a key to test. *)
Fixpoint pick_keys (p : option Payload) (keys : list string) : result Payload :=
  match keys with
  | [] => Ok ∅
  | key :: keys' =>
      match p with
      | None => Raise TypeError
      | Some d =>
          picked ← pick_keys p keys';
          Ok (match d !! key with
              | Some v => <[key:=v]> picked
              | None => picked
              end)
      end
  end.

(** [{key: payload.get(key) for key in payload if key not in exclude}] *)
Definition drop_keys (p : option Payload) (exclude : list string)
  : result Payload :=
  match p with
  | None => Raise TypeError
  | Some d => Ok (filter (λ kv, kv.1 ∉ exclude) d)
  end.

Definition _get_payload (self : LocalCollection) (idx : nat)
    (with_payload : WithPayload) : result (option Payload) :=
  p ← index (payload self) idx;
  match with_payload with
  | WPBool false => Ok None
  | WPList [] => Ok None
  | WPBool true => Ok p
  | WPList keys => Some <$> pick_keys p keys
  | WPInclude include => Some <$> pick_keys p include
  | WPExclude exclude => Some <$> drop_keys p exclude
  end.

(** [{name: vectors[name] for name in with_vectors}] *)
Fixpoint select_names (vs : gmap string (list F)) (names : list string)
  : result (gmap string (list F)) :=
  match names with
  | [] => Ok ∅
  | name :: names' =>
      match vs !! name with
      | None => Raise KeyError
      | Some v => picked ← select_names vs names'; Ok (<[name:=v]> picked)
      end
  end.

Definition _get_vectors (self : LocalCollection) (idx : nat)
    (with_vectors : WithVectors) : result (option VectorStruct) :=
  match with_vectors with
  | WVBool false => Ok None
  | WVList [] => Ok None
  | _ =>
      all ← dict_comprehension (λ _ m, index (mrows m) idx) (vectors self);
      vs ← match with_vectors with
           | WVList names => select_names all names
           | WVBool _ => Ok all
           end;
      match decide (size vs = 1%nat), vs !! DEFAULT_VECTOR_NAME with
      | left _, Some v => Ok (Some (VList v))
      | _, _ => Ok (Some (VDict vs))
      end
  end.

(** [models.Record(id=point_id, payload=..., vector=...)] for the point
    at [idx]. *)
Definition make_record (self : LocalCollection) (with_payload : WithPayload)
    (with_vectors : WithVectors) (point_id : PointId) (idx : nat)
  : result Record_ :=
  p ← _get_payload self idx with_payload;
  v ← _get_vectors self idx with_vectors;
  Ok {| rec_id := point_id; rec_payload := p; rec_vector := v |}.

(** [models.ScoredPoint(id=point_id, score=score, version=0, ...)] *)
Definition make_scored_point (self : LocalCollection)
    (with_payload : WithPayload) (with_vectors : WithVectors)
    (point_id : PointId) (score : F) (idx : nat) : result ScoredPoint :=
  p ← _get_payload self idx with_payload;
  v ← _get_vectors self idx with_vectors;
  Ok {| sp_id := point_id; sp_score := score; sp_version := 0;
        sp_payload := p; sp_vector := v |}.

(** Whether [score] is past [score_threshold] for the given direction. *)
Definition crosses (required_order : DistanceOrder)
    (score_threshold : option F) (score : F) : bool :=
  match score_threshold with
  | None => false
  | Some threshold =>
      match required_order with
      | BIGGER_IS_BETTER => flt score threshold
      | SMALLER_IS_BETTER => flt threshold score
      end
  end.

(** The [for idx in order] loop of [search]; [res] is [result] so far. *)
Fixpoint search_loop (self : LocalCollection) (mask : list bool)
    (scores : list F) (required_order : DistanceOrder)
    (limit offset : Z) (with_payload : WithPayload)
    (with_vectors : WithVectors) (score_threshold : option F)
    (order : list nat) (res : list ScoredPoint) : result (list ScoredPoint) :=
  match order with
  | [] => Ok res
  | idx :: order' =>
      if (limit + offset <=? Z.of_nat (length res))%Z then Ok res
      else
        m ← index mask idx;
        if negb m then
          search_loop self mask scores required_order limit offset
            with_payload with_vectors score_threshold order' res
        else
          score ← index scores idx;
          point_id ← index (ids_inv self) idx;
          if crosses required_order score_threshold score then Ok res
          else
            scored_point ← make_scored_point self with_payload with_vectors
                             point_id score idx;
            search_loop self mask scores required_order limit offset
              with_payload with_vectors score_threshold order'
              (res ++ [scored_point])
  end.

(** [np.argsort(scores)[::-1]] or [np.argsort(scores)] *)
Definition search_order (required_order : DistanceOrder) (scores : list F)
  : list nat :=
  match required_order with
  | BIGGER_IS_BETTER => reverse (argsort scores)
  | SMALLER_IS_BETTER => argsort scores
  end.

Definition search (self : LocalCollection) (query_vector : QueryVector)
    (query_filter : option Filter) (limit offset : Z)
    (with_payload : WithPayload) (with_vectors : WithVectors)
    (score_threshold : option F) : result (list ScoredPoint) :=
  let payload_mask :=
    calculate_payload_mask (payload self) query_filter (ids_inv self) in
  let '(name, vector) := _resolve_vector_name query_vector in
  match vectors self !! name with
  | None => Raise ValueError
  | Some named_vectors =>
      params ← get_vector_params self name;
      scores ← calculate_distance vector
                 (take (length (payload self)) (mrows named_vectors))
                 (params_distance params);
      mask ← np_elementwise andb payload_mask (negb <$> deleted self);
      let required_order := distance_to_order (params_distance params) in
      res ← search_loop self mask scores required_order limit offset
              with_payload with_vectors score_threshold
              (search_order required_order scores) [];
      Ok (py_slice_from offset res)
  end.

Fixpoint retrieve (self : LocalCollection) (point_ids : list PointId)
    (with_payload : WithPayload) (with_vectors : WithVectors)
  : result (list Record_) :=
  match point_ids with
  | [] => Ok []
  | point_id :: rest =>
      match dict_get (ids self) point_id with
      | None => retrieve self rest with_payload with_vectors
      | Some idx =>
          record ← make_record self with_payload with_vectors point_id idx;
          tail ← retrieve self rest with_payload with_vectors;
          Ok (record :: tail)
      end
  end.

(** The two [for point_id in ...] loops of [recommend] that collect the
    example rows. *)
Fixpoint example_vectors (collection : LocalCollection)
    (vector_name : string) (point_ids : list PointId)
  : result (list (list F)) :=
  match point_ids with
  | [] => Ok []
  | point_id :: rest =>
      match dict_get (ids collection) point_id with
      | None => Raise ValueError
      | Some idx =>
          m ← match vectors collection !! vector_name with
              | Some m => Ok m
              | None => Raise KeyError
              end;
          row ← index (mrows m) idx;
          rows ← example_vectors collection vector_name rest;
          Ok (row :: rows)
      end
  end.

(** The query vector of [recommend], from its example rows. *)
Definition recommend_vector (positive_vectors negative_vectors : list (list F))
  : result (list F) :=
  let mean_positive_vector := np_mean positive_vectors in
  match negative_vectors with
  | [] => Ok mean_positive_vector
  | _ :: _ =>
      twice ← np_elementwise fadd mean_positive_vector mean_positive_vector;
      np_elementwise fsub twice (np_mean negative_vectors)
  end.

(** [Filter] objects live in a store; a caller and [recommend] that hold
    the same reference see the same object. The list under [must_not]
    belongs to its filter alone. *)
Definition ref : Type := nat.

Definition alloc (heap : gmap ref Filter) (f : Filter)
  : ref * gmap ref Filter :=
  let r := fresh (dom heap) in (r, <[r:=f]> heap).

(** The [if query_filter is None: ... else: ...] block of [recommend]:
    the reference that goes on to [search], and the store afterwards. A
    Python reference always designates a live object; a reference that
    the store does not hold makes no sense here and changes nothing. *)
Definition recommend_filter (heap : gmap ref Filter) (query_filter : option ref)
    (ignore_mentioned_ids : Condition) : ref * gmap ref Filter :=
  match query_filter with
  | None =>
      alloc heap {| should := None; must := None;
                    must_not := Some [ignore_mentioned_ids] |}
  | Some r =>
      (r, alter (λ f,
             {| should := should f; must := must f;
                must_not :=
                  match must_not f with
                  | None => Some [ignore_mentioned_ids]
                  | Some conds => Some (conds ++ [ignore_mentioned_ids])
                  end |}) r heap)
  end.

Definition recommend (self : LocalCollection) (heap : gmap ref Filter)
    (positive : list PointId) (negative : option (list PointId))
    (query_filter : option ref) (limit offset : Z)
    (with_payload : WithPayload) (with_vectors : WithVectors)
    (score_threshold : option F) (using_ : option string)
    (lookup_from_collection : option LocalCollection)
    (lookup_from_vector_name : option string)
  : result (list ScoredPoint) * gmap ref Filter :=
  let collection := default self lookup_from_collection in
  let search_in_vector_name := default DEFAULT_VECTOR_NAME using_ in
  let vector_name := default search_in_vector_name lookup_from_vector_name in
  match positive with
  | [] => (Raise ValueError, heap)
  | _ :: _ =>
      match
        positive_vectors ← example_vectors collection vector_name positive;
        negative_vectors ←
          example_vectors collection vector_name (default [] negative);
        recommend_vector positive_vectors negative_vectors
      with
      | Raise e => (Raise e, heap)
      | Ok vector =>
          let ignore_mentioned_ids :=
            HasIdCondition (positive ++ default [] negative) in
          let '(r, heap') :=
            recommend_filter heap query_filter ignore_mentioned_ids in
          (search self (QTuple search_in_vector_name vector) (heap' !! r)
             limit offset with_payload with_vectors score_threshold,
           heap')
      end
  end.

Definition _universal_id (point_id : PointId) : string * Z :=
  match point_id with
  | StrId s => (s, 0%Z)
  | IntId n => (EmptyString, n)
  end.

(** Whether [scroll] passes over [point_id] because of [offset]. *)
Definition before_offset (offset : option PointId) (point_id : PointId)
  : bool :=
  match offset with
  | None => false
  | Some o => tuple_lt (_universal_id point_id) (_universal_id o)
  end.

(** The [for point_id, idx in sorted_ids] loop of [scroll]. *)
Fixpoint scroll_loop (self : LocalCollection) (mask : list bool) (limit : Z)
    (offset : option PointId) (with_payload : WithPayload)
    (with_vectors : WithVectors) (sorted_ids : list (PointId * nat))
    (res : list Record_) : result (list Record_) :=
  match sorted_ids with
  | [] => Ok res
  | (point_id, idx) :: sorted_ids' =>
      if before_offset offset point_id then
        scroll_loop self mask limit offset with_payload with_vectors
          sorted_ids' res
      else if (limit + 1 <=? Z.of_nat (length res))%Z then Ok res
      else
        m ← index mask idx;
        if negb m then
          scroll_loop self mask limit offset with_payload with_vectors
            sorted_ids' res
        else
          record ← make_record self with_payload with_vectors point_id idx;
          scroll_loop self mask limit offset with_payload with_vectors
            sorted_ids' (res ++ [record])
  end.

Definition scroll (self : LocalCollection) (scroll_filter : option Filter)
    (limit : Z) (offset : option PointId) (with_payload : WithPayload)
    (with_vectors : WithVectors)
  : result (list Record_ * option PointId) :=
  if decide (length (ids self) = 0%nat) then Ok ([], None)
  else
    let sorted_ids :=
      sorted tuple_lt (λ x : PointId * nat, _universal_id x.1) (ids self) in
    let payload_mask :=
      calculate_payload_mask (payload self) scroll_filter (ids_inv self) in
    mask ← np_elementwise andb payload_mask (negb <$> deleted self);
    res ← scroll_loop self mask limit offset with_payload with_vectors
            sorted_ids [];
    if (limit <? Z.of_nat (length res))%Z then
      next ← py_index res limit;
      Ok (py_slice_to limit res, Some (rec_id next))
    else Ok (res, None).

Definition count (self : LocalCollection) (count_filter : option Filter)
  : result nat :=
  let payload_mask :=
    calculate_payload_mask (payload self) count_filter (ids_inv self) in
  mask ← np_elementwise andb payload_mask (negb <$> deleted self);
  Ok (length (filter (λ b, b = true) mask)).

End Queries.

(** ** Write paths *)

Section Updates.
Context `{Kernels}.

Definition set_vectors (self : LocalCollection) (vs : gmap string Matrix)
  : LocalCollection :=
  {| vectors := vs; payload := payload self; deleted := deleted self;
     ids := ids self; ids_inv := ids_inv self; storage := storage self;
     config := config self |}.

Definition set_payloads (self : LocalCollection) (ps : list (option Payload))
  : LocalCollection :=
  {| vectors := vectors self; payload := ps; deleted := deleted self;
     ids := ids self; ids_inv := ids_inv self; storage := storage self;
     config := config self |}.

Definition set_deleted (self : LocalCollection) (ds : list bool)
  : LocalCollection :=
  {| vectors := vectors self; payload := payload self; deleted := ds;
     ids := ids self; ids_inv := ids_inv self; storage := storage self;
     config := config self |}.

Definition set_ids (self : LocalCollection) (d : list (PointId * nat))
    (inv : list PointId) : LocalCollection :=
  {| vectors := vectors self; payload := payload self; deleted := deleted self;
     ids := d; ids_inv := inv; storage := storage self;
     config := config self |}.

(** A call on [self.storage], when there is one. *)
Definition storage_call (self : LocalCollection) (call : StorageCall)
  : LocalCollection :=
  {| vectors := vectors self; payload := payload self; deleted := deleted self;
     ids := ids self; ids_inv := ids_inv self;
     storage := (λ log, log ++ [call]) <$> storage self;
     config := config self |}.

(** [{DEFAULT_VECTOR_NAME: point.vector}] for a bare list, the dict itself
    otherwise. *)
Definition named_vectors_of (v : VectorStruct) : gmap string (list F) :=
  match v with
  | VList l => {[ DEFAULT_VECTOR_NAME := l ]}
  | VDict d => d
  end.

(** The [for vector_name, vector in vectors.items()] loops of
    [_update_point] and [_add_point]: look the matrix up, make room with
    [prepare], write row [idx], store the matrix, for the entries of the
    dict in the order [items] gives them. Rows written before a failing
    assignment stay written. *)
Fixpoint write_rows (prepare : Matrix → Matrix) (idx : nat)
    (items : list (string * list F)) (vs : gmap string Matrix)
  : result unit * gmap string Matrix :=
  match items with
  | [] => (Ok (), vs)
  | (vector_name, vector) :: items' =>
      match vs !! vector_name with
      | None => (Raise KeyError, vs)
      | Some named_vectors =>
          match set_row (prepare named_vectors) idx vector with
          | Raise e => (Raise e, vs)
          | Ok m' => write_rows prepare idx items' (<[vector_name:=m']> vs)
          end
      end
  end.

(** [if named_vectors.shape[0] <= idx: named_vectors = np.resize(...)] *)
Definition grow (idx : nat) (named_vectors : Matrix) : Matrix :=
  if decide (length (mrows named_vectors) ≤ idx)%nat
  then np_resize named_vectors (idx * 2 + 1)
  else named_vectors.

Definition _update_point (self : LocalCollection) (point : PointStruct)
  : result unit * LocalCollection :=
  match dict_get (ids self) (pt_id point) with
  | None => (Raise KeyError, self)
  | Some idx =>
      match assign (payload self) idx (pt_payload point) with
      | Raise e => (Raise e, self)
      | Ok ps =>
          let self := set_payloads self ps in
          let vs := named_vectors_of (pt_vector point) in
          if decide (dom vs = dom (vectors self)) then
            match write_rows (λ m, m) idx (dict_items vs) (vectors self) with
            | (Raise e, written) => (Raise e, set_vectors self written)
            | (Ok _, written) =>
                let self := set_vectors self written in
                match assign (deleted self) idx false with
                | Raise e => (Raise e, self)
                | Ok ds => (Ok (), set_deleted self ds)
                end
            end
          else (Raise AssertionError, self)
      end
  end.

(** [self.deleted] holds only zeros and ones and is read through
    [payload_mask & ~self.deleted]; it is a list of booleans here. *)
Definition _add_point (self : LocalCollection) (point : PointStruct)
  : result unit * LocalCollection :=
  let idx := length (ids self) in
  let self := set_ids self (dict_set (ids self) (pt_id point) idx)
                (ids_inv self ++ [pt_id point]) in
  let self := set_payloads self (payload self ++ [pt_payload point]) in
  let self := set_deleted self (deleted self ++ [false]) in
  let vs := named_vectors_of (pt_vector point) in
  if decide (dom vs = dom (vectors self)) then
    match write_rows (grow idx) idx (dict_items vs) (vectors self) with
    | (r, written) => (r, set_vectors self written)
    end
  else (Raise AssertionError, self).

(** The test that opens [_upsert_point]: a [str] id that [uuid.UUID]
    rejects. *)
Definition malformed_id (point_id : PointId) : bool :=
  match point_id with
  | StrId s => negb (uuid_valid s)
  | IntId _ => false
  end.

Definition _upsert_point (self : LocalCollection) (point : PointStruct)
  : result unit * LocalCollection :=
  if malformed_id (pt_id point) then (Raise ValueError, self)
  else
    match (if decide (is_Some (dict_get (ids self) (pt_id point)))
           then _update_point self point
           else _add_point self point) with
    | (Raise e, self) => (Raise e, self)
    | (Ok _, self) =>
        (Ok (), storage_call self (persist point))
    end.

(** [for point in points: self._upsert_point(point)]: the first failure
    ends the loop and leaves the earlier points applied. *)
Fixpoint upsert_list (self : LocalCollection) (points : list PointStruct)
  : result unit * LocalCollection :=
  match points with
  | [] => (Ok (), self)
  | point :: points' =>
      match _upsert_point self point with
      | (Raise e, self) => (Raise e, self)
      | (Ok _, self) => upsert_list self points'
      end
  end.

(** The [for idx, point_id in enumerate(batch.ids)] loop of [upsert]. *)
Fixpoint upsert_batch (self : LocalCollection)
    (payloads : option (list (option Payload)))
    (named : gmap string (list (list F))) (idx : nat)
    (point_ids : list PointId) : result unit * LocalCollection :=
  match point_ids with
  | [] => (Ok (), self)
  | point_id :: point_ids' =>
      match
        p ← match payloads with
            | None => Ok None
            | Some ps => index ps idx
            end;
        vector ← dict_comprehension (λ _ v, index v idx) named;
        Ok {| pt_id := point_id; pt_payload := p; pt_vector := VDict vector |}
      with
      | Raise e => (Raise e, self)
      | Ok point =>
          match _upsert_point self point with
          | (Raise e, self) => (Raise e, self)
          | (Ok _, self) => upsert_batch self payloads named (S idx) point_ids'
          end
      end
  end.

Definition upsert (self : LocalCollection) (points : Points)
  : result unit * LocalCollection :=
  match points with
  | PointsList points => upsert_list self points
  | PointsBatch batch =>
      let named :=
        match batch_vectors batch with
        | inl rows => {[ DEFAULT_VECTOR_NAME := rows ]}
        | inr d => d
        end in
      upsert_batch self (batch_payloads batch) named 0 (batch_ids batch)
  end.

(** The first loop of [_delete_ids]. *)
Fixpoint mark_deleted (self : LocalCollection) (point_ids : list PointId)
  : result unit * LocalCollection :=
  match point_ids with
  | [] => (Ok (), self)
  | point_id :: point_ids' =>
      match dict_get (ids self) point_id with
      | None => (Raise KeyError, self)
      | Some idx =>
          match assign (deleted self) idx true with
          | Raise e => (Raise e, self)
          | Ok ds => mark_deleted (set_deleted self ds) point_ids'
          end
      end
  end.

Definition _delete_ids (self : LocalCollection) (point_ids : list PointId)
  : result unit * LocalCollection :=
  match mark_deleted self point_ids with
  | (Raise e, self) => (Raise e, self)
  | (Ok _, self) =>
      (Ok (), foldl (λ c point_id, storage_call c (delete_ point_id))
                self point_ids)
  end.

Definition _filter_to_ids (self : LocalCollection) (delete_filter : Filter)
  : result (list PointId) :=
  let payload_mask :=
    calculate_payload_mask (payload self) (Some delete_filter) (ids_inv self) in
  mask ← np_elementwise andb payload_mask (negb <$> deleted self);
  picked ← mapM (λ item : PointId * nat,
                   m ← index mask item.2; Ok (item.1, m)) (ids self);
  Ok ((filter (λ x : PointId * bool, x.2 = true) picked).*1).

Definition _selector_to_ids (self : LocalCollection) (selector : Selector)
  : result (list PointId) :=
  match selector with
  | SelList points => Ok points
  | SelFilter f => _filter_to_ids self f
  | SelPointIdsList points => Ok points
  | SelFilterSelector f => _filter_to_ids self f
  end.

Definition delete (self : LocalCollection) (selector : Selector)
  : result unit * LocalCollection :=
  match _selector_to_ids self selector with
  | Raise e => (Raise e, self)
  | Ok point_ids => _delete_ids self point_ids
  end.

(** [LocalCollection(config, location)] for a location that holds no
    points yet, or for none: [load] then has nothing to replay. *)
Definition __init__ (config_ : CreateCollection) (location : option string)
  : LocalCollection :=
  let vectors_config :=
    match cfg_vectors config_ with
    | inl params => {[ DEFAULT_VECTOR_NAME := params ]}
    | inr d => d
    end in
  {| vectors := (λ params, np_zeros (params_size params)) <$> vectors_config;
     payload := [];
     deleted := [];
     ids := [];
     ids_inv := [];
     storage := (λ _, []) <$> location;
     config := config_ |}.

End Updates.

(** ** Sequences of write calls, and the words of the statements *)

Section Vocabulary.
Context `{Kernels}.

Inductive Call : Type :=
| CallUpsert (points : Points)
| CallDelete (selector : Selector).

Definition call (self : LocalCollection) (c : Call)
  : result unit * LocalCollection :=
  match c with
  | CallUpsert points => upsert self points
  | CallDelete selector => delete self selector
  end.

(** The calls one after the other, up to the first that raises. *)
Fixpoint calls (self : LocalCollection) (cs : list Call)
  : result unit * LocalCollection :=
  match cs with
  | [] => (Ok (), self)
  | c :: cs' =>
      match call self c with
      | (Raise e, self) => (Raise e, self)
      | (Ok _, self) => calls self cs'
      end
  end.

(** The indices that [search] may turn into results, in the order of the
    walk: those the mask accepts, up to the first whose score is past the
    threshold. *)
Definition passes (required_order : DistanceOrder) (score_threshold : option F)
    (scores : list F) (idx : nat) : bool :=
  match scores !! idx with
  | Some score => negb (crosses required_order score_threshold score)
  | None => false
  end.

(** [scores[i] <= scores[j]], as far as [<] tells. *)
Definition ascending (scores : list F) (i j : nat) : Prop :=
  match scores !! i, scores !! j with
  | Some a, Some b => flt b a = false
  | _, _ => False
  end.

Definition scored_point_at (self : LocalCollection) (scores : list F)
    (with_payload : WithPayload) (with_vectors : WithVectors) (idx : nat)
  : result ScoredPoint :=
  score ← index scores idx;
  point_id ← index (ids_inv self) idx;
  make_scored_point self with_payload with_vectors point_id score idx.

(** The spec's words for the order of the walk: the indices sorted by
    score, descending when bigger is better and ascending otherwise.
    [argsort] is the ascending sort, its reverse the descending one. *)
Definition score_sorted (required_order : DistanceOrder) (scores : list F)
  : list nat :=
  match required_order with
  | BIGGER_IS_BETTER => reverse (argsort scores)
  | SMALLER_IS_BETTER => argsort scores
  end.

(** The spec's words for the threshold: a score breaks the walk when it
    is worse than the threshold, that is below it when bigger is better
    and above it otherwise. [within_threshold] holds of the indices whose
    score does not break the walk; with no threshold, none does. *)
Definition within_threshold (required_order : DistanceOrder)
    (score_threshold : option F) (scores : list F) (idx : nat) : bool :=
  match scores !! idx, score_threshold with
  | Some score, Some threshold =>
      match required_order with
      | BIGGER_IS_BETTER => negb (flt score threshold)
      | SMALLER_IS_BETTER => negb (flt threshold score)
      end
  | Some _, None => true
  | None, _ => false
  end.

(** The result that stands for index [idx]: the id at that index, its
    score, version [0] and the projections asked for. *)
Definition result_at (self : LocalCollection) (scores : list F)
    (with_payload : WithPayload) (with_vectors : WithVectors) (idx : nat)
  : result ScoredPoint :=
  score ← index scores idx;
  point_id ← index (ids_inv self) idx;
  p ← _get_payload self idx with_payload;
  v ← _get_vectors self idx with_vectors;
  Ok {| sp_id := point_id; sp_score := score; sp_version := 0;
        sp_payload := p; sp_vector := v |}.

(** The combined mask in the spec's words: the payload mask and not
    tombstoned, entry by entry. *)
Definition live_matches (payload_mask deleted_ : list bool) : list bool :=
  zip_with (λ accepted tombstoned, accepted && negb tombstoned)
    payload_mask deleted_.

(** Whether [scroll] keeps the entry [(point_id, idx)] of [self.ids]. *)
Definition scrolled (mask : list bool) (offset : option PointId)
    (item : PointId * nat) : Prop :=
  before_offset offset item.1 = false ∧ mask !! item.2 = Some true.

#[global] Instance scrolled_dec mask offset item :
  Decision (scrolled mask offset item).
Proof. unfold scrolled. apply _. Defined.

Definition record_at (self : LocalCollection) (with_payload : WithPayload)
    (with_vectors : WithVectors) (item : PointId * nat) : result Record_ :=
  make_record self with_payload with_vectors item.1 item.2.

(** The spec's order of ids, that of their universal keys [(s, 0)] and
    [(EmptyString, n)]: integer ids in numerical order, string ids in
    lexicographic order, every integer id before every non-empty string
    id; the empty string id stands where the integer [0] does. *)
Definition key_below (a b : PointId) : bool :=
  match a, b with
  | IntId x, IntId y => (x <? y)%Z
  | IntId x, StrId s => negb (String.eqb s EmptyString) || (x <? 0)%Z
  | StrId s, IntId y => String.eqb s EmptyString && (0 <? y)%Z
  | StrId s, StrId t => String.ltb s t
  end.

(** The entries that a scroll from [offset] visits and keeps: those whose
    id is not strictly below the offset id, and which the mask accepts. *)
Definition visited (mask : list bool) (offset : option PointId)
    (item : PointId * nat) : Prop :=
  match offset with
  | Some o => key_below item.1 o = false
  | None => True
  end
  ∧ mask !! item.2 = Some true.

#[global] Instance visited_dec mask offset item :
  Decision (visited mask offset item).
Proof. unfold visited. destruct offset; apply _. Defined.

(** The record that stands for an entry of the id table: its id and the
    projections asked for at its index. *)
Definition record_of (self : LocalCollection) (with_payload : WithPayload)
    (with_vectors : WithVectors) (item : PointId * nat) : result Record_ :=
  p ← _get_payload self item.2 with_payload;
  v ← _get_vectors self item.2 with_vectors;
  Ok {| rec_id := item.1; rec_payload := p; rec_vector := v |}.

(** The names a collection is configured with. *)
Definition configured (config_ : CreateCollection) : gset string :=
  match cfg_vectors config_ with
  | inl _ => {[ DEFAULT_VECTOR_NAME ]}
  | inr d => dom d
  end.



(** The id table, the payloads, the tombstones and the reverse id list
    have one length, and every configured matrix has at least that many
    rows. *)
Definition aligned (config_ : CreateCollection) (self : LocalCollection)
  : Prop :=
  config self = config_
  ∧ length (ids self) = length (payload self)
  ∧ length (payload self) = length (deleted self)
  ∧ length (deleted self) = length (ids_inv self)
  ∧ dom (vectors self) = configured config_
  ∧ map_Forall (λ _ m, (length (payload self) ≤ length (mrows m))%nat)
      (vectors self).



End Vocabulary.

(** ** Payload mutations *)

Section PayloadUpdates.
Context `{Kernels}.

(** The point that [_persist_by_id] rebuilds from the stores;
    [PointStruct] refuses a missing vector with a [ValidationError],
    which is a [ValueError]. *)
Definition stored_point (self : LocalCollection) (point_id : PointId)
  : result PointStruct :=
  idx ← match dict_get (ids self) point_id with
        | Some idx => Ok idx
        | None => Raise KeyError
        end;
  p ← _get_payload self idx (WPBool true);
  v ← _get_vectors self idx (WVBool true);
  match v with
  | Some vector =>
      Ok {| pt_id := point_id; pt_payload := p; pt_vector := vector |}
  | None => Raise ValueError
  end.

(** [_persist_by_id]: with a storage, the rebuilt point is handed to
    [persist]. *)
Definition _persist_by_id (self : LocalCollection) (point_id : PointId)
  : result unit * LocalCollection :=
  match storage self with
  | None => (Ok (), self)
  | Some _ =>
      match stored_point self point_id with
      | Raise e => (Raise e, self)
      | Ok point => (Ok (), storage_call self (persist point))
      end
  end.

(** The [for point_id in ids] loop that [set_payload],
    [overwrite_payload] and [clear_payload] share:
    [self.payload[idx] = update(self.payload[idx])], then
    [self._persist_by_id(point_id)]. Reading and writing slot [idx]
    raise for the same indices. *)
Fixpoint payload_loop (update : option Payload → Payload)
    (self : LocalCollection) (point_ids : list PointId)
  : result unit * LocalCollection :=
  match point_ids with
  | [] => (Ok (), self)
  | point_id :: point_ids' =>
      match dict_get (ids self) point_id with
      | None => (Raise KeyError, self)
      | Some idx =>
          match index (payload self) idx with
          | Raise e => (Raise e, self)
          | Ok old =>
              let self :=
                set_payloads self (<[idx:=Some (update old)]> (payload self)) in
              match _persist_by_id self point_id with
              | (Raise e, self) => (Raise e, self)
              | (Ok _, self) => payload_loop update self point_ids'
              end
          end
      end
  end.

(** [{**(self.payload[idx] or {}), **payload}]: the keys of [payload]
    win. *)
Definition merged (payload_ : gmap string Value)
    (old : option (gmap string Value)) : gmap string Value :=
  payload_ ∪ default ∅ old.

Definition set_payload (self : LocalCollection) (payload_ : Payload)
    (selector : Selector) : result unit * LocalCollection :=
  match _selector_to_ids self selector with
  | Raise e => (Raise e, self)
  | Ok point_ids => payload_loop (merged payload_) self point_ids
  end.

Definition overwrite_payload (self : LocalCollection) (payload_ : Payload)
    (selector : Selector) : result unit * LocalCollection :=
  match _selector_to_ids self selector with
  | Raise e => (Raise e, self)
  | Ok point_ids => payload_loop (λ _, payload_) self point_ids
  end.

Definition clear_payload (self : LocalCollection) (selector : Selector)
  : result unit * LocalCollection :=
  match _selector_to_ids self selector with
  | Raise e => (Raise e, self)
  | Ok point_ids => payload_loop (λ _, (∅ : gmap string Value)) self point_ids
  end.

(** Any of the modelled write calls. *)
Inductive Write : Type :=
| WriteUpsert (points : Points)
| WriteDelete (selector : Selector)
| WriteSetPayload (payload_ : Payload) (selector : Selector)
| WriteOverwritePayload (payload_ : Payload) (selector : Selector)
| WriteClearPayload (selector : Selector).

Definition write (self : LocalCollection) (w : Write)
  : result unit * LocalCollection :=
  match w with
  | WriteUpsert points => upsert self points
  | WriteDelete selector => delete self selector
  | WriteSetPayload payload_ selector => set_payload self payload_ selector
  | WriteOverwritePayload payload_ selector =>
      overwrite_payload self payload_ selector
  | WriteClearPayload selector => clear_payload self selector
  end.

(** The writes one after the other, up to the first that raises. *)
Fixpoint writes (self : LocalCollection) (ws : list Write)
  : result unit * LocalCollection :=
  match ws with
  | [] => (Ok (), self)
  | w :: ws' =>
      match write self w with
      | (Raise e, self) => (Raise e, self)
      | (Ok _, self) => writes self ws'
      end
  end.

(** The point that the batch form of [upsert] builds for position
    [idx], and the points for the ids from position [idx] on. *)
Definition batch_point (payloads : option (list (option Payload)))
    (named : gmap string (list (list F))) (idx : nat) (point_id : PointId)
  : result PointStruct :=
  p ← match payloads with
      | None => Ok None
      | Some ps => index ps idx
      end;
  vector ← dict_comprehension (λ _ v, index v idx) named;
  Ok {| pt_id := point_id; pt_payload := p; pt_vector := VDict vector |}.

Fixpoint batch_points (payloads : option (list (option Payload)))
    (named : gmap string (list (list F))) (idx : nat)
    (point_ids : list PointId) : result (list PointStruct) :=
  match point_ids with
  | [] => Ok []
  | point_id :: point_ids' =>
      point ← batch_point payloads named idx point_id;
      points ← batch_points payloads named (S idx) point_ids';
      Ok (point :: points)
  end.

(** [batch.vectors] as a dict by name. *)
Definition batch_named (batch : Batch) : gmap string (list (list F)) :=
  match batch_vectors batch with
  | inl rows => {[ DEFAULT_VECTOR_NAME := rows ]}
  | inr d => d
  end.

(** The id table and its inverse agree: the entries of [self.ids] are
    the ids of [self.ids_inv], each at its position, none twice. *)
Definition consistent (self : LocalCollection) : Prop :=
  (ids self).*1 = ids_inv self
  ∧ (ids self).*2 = seq 0 (length (ids self))
  ∧ NoDup (ids_inv self).

(** The size the configuration gives to a vector name. *)
Definition configured_size (config_ : CreateCollection) (name : string)
  : option nat :=
  match cfg_vectors config_ with
  | inl params =>
      if decide (name = DEFAULT_VECTOR_NAME) then Some (params_size params)
      else None
  | inr d => params_size <$> d !! name
  end.

(** The rows of a matrix have its width. *)
Definition regular_matrix (m : Matrix) : Prop :=
  Forall (λ row, length row = ncols m) (mrows m).

(** Every matrix has the configured width, and so has each of its
    rows. *)
Definition regular (config_ : CreateCollection) (self : LocalCollection)
  : Prop :=
  map_Forall (λ name m,
      configured_size config_ name = Some (ncols m) ∧ regular_matrix m)
    (vectors self).

Definition well_formed (config_ : CreateCollection) (self : LocalCollection)
  : Prop :=
  aligned config_ self ∧ consistent self ∧ regular config_ self.

(** The internal indices that a list of ids designates. *)
Definition targeted (self : LocalCollection) (point_ids : list PointId)
    (idx : nat) : Prop :=
  ∃ point_id, point_id ∈ point_ids ∧ dict_get (ids self) point_id = Some idx.

#[global] Instance targeted_dec (self : LocalCollection)
    (point_ids : list PointId) (idx : nat) :
  Decision (targeted self point_ids idx).
Proof.
  refine (cast_if (decide (Exists (λ point_id,
                              dict_get (ids self) point_id = Some idx)
                             point_ids)));
    unfold targeted; rewrite Exists_exists in *; done.
Defined.

(** What [retrieve] with all vectors gives for the vectors of a point:
    the dict, or the bare array when the default name is its only key. *)
Definition unwrapped (vs : gmap string (list F)) : VectorStruct :=
  if decide (dom vs = {[ DEFAULT_VECTOR_NAME ]})
  then VList (default [] (vs !! DEFAULT_VECTOR_NAME))
  else VDict vs.



(** The vectors numpy lets into a row of width [n]: those of that
    length, and those with a single entry. *)
Definition fits (n : nat) (vector : list F) : Prop :=
  length vector = n ∨ length vector = 1%nat.

(** Every vector of [named] fits the matrix stored under its name. *)
Definition fitting (vs : gmap string Matrix) (named : gmap string (list F))
  : Prop :=
  map_Forall (λ name vector,
      from_option (λ m, fits (ncols m) vector) True (vs !! name)) named.

(** The names of [items] are in [vs], each with a row [idx] once
    [prepare] has run. *)
Definition ready (prepare : Matrix → Matrix) (idx : nat)
    (vs : gmap string Matrix) (items : list (string * list F)) : Prop :=
  ∀ name vector, (name, vector) ∈ items →
    ∃ m, vs !! name = Some m ∧ (idx < length (mrows (prepare m)))%nat.

(** [<] orders the given values totally, ties apart: from [a < c]
    follows [a < b] or [b < c]. Floats that are not NaN are so ordered;
    a NaN is below nothing and nothing is below it. *)
Definition comparable (values : list F) : Prop :=
  ∀ a b c, a ∈ values → b ∈ values → c ∈ values →
    flt a c = true → flt a b = true ∨ flt b c = true.

End PayloadUpdates.

(** Closed facts about concrete data are settled by evaluation. *)
Ltac by_computation :=
  first [ by vm_compute
        | refine (bool_decide_unpack _ _); by vm_compute ].

Ltac well_formed_by_computation :=
  unfold well_formed, aligned, consistent, regular, regular_matrix;
  split_and!; by_computation.

(** ** A small instance to run the model on

    Integers stand in for the float entries, rounded to 24 significant
    bits where [float32] rounds; the kernels are a dot product and a
    squared distance, the filter evaluator knows the has-id clause under
    must-not, [argsort] is a stable insertion sort, and the vectors of a
    point are written in key order. *)

Module Example.

Inductive distance_kind : Type := Cosine | Euclid | Dot.

(** Rounding to 24 significant bits, ties to even: what [float32] does
    to an integer. [strip] drops the [s] lowest bits of [p]; it returns
    the remaining bits, the last bit dropped and whether an earlier one
    was set. *)
Fixpoint strip (s : nat) (p : positive) (half sticky : bool)
  : N * bool * bool :=
  match s with
  | O => (Npos p, half, sticky)
  | S s' =>
      match p with
      | xH => (N0, true, half || sticky)
      | xO p' => strip s' p' false (half || sticky)
      | xI p' => strip s' p' true (half || sticky)
      end
  end.

Definition round_pos (p : positive) : N :=
  let s := (Pos.size_nat p - 24)%nat in
  match strip s p false false with
  | (q, half, sticky) =>
      N.shiftl_nat (if half && (sticky || N.odd q) then N.succ q else q) s
  end.

Definition z_float32 (x : Z) : Z :=
  match x with
  | Z0 => Z0
  | Zpos p => Z.of_N (round_pos p)
  | Zneg p => Z.opp (Z.of_N (round_pos p))
  end.

Definition z_scalars : Scalars :=
  {| F := Z; fzero := 0%Z; fadd := Z.add; fsub := Z.sub; fmul := Z.mul;
     ftwo := 2%Z; flt := Z.ltb;
     fmul_two := λ x, eq_sym (Z.add_diag x);
     to_float32 := z_float32;
     Value := Z; Distance := distance_kind; FieldCondition := Empty_set |}.

#[local] Existing Instance z_scalars.

Definition dot (a b : list Z) : Z := foldr Z.add 0%Z (zip_with Z.mul a b).

Definition kernel (d : distance_kind) (a b : list Z) : Z :=
  match d with
  | Euclid => let diff := zip_with Z.sub a b in dot diff diff
  | _ => dot a b
  end.

Definition z_distance (q : list Z) (m : list (list Z)) (d : distance_kind)
  : result (list Z) :=
  mapM (λ row, if decide (length row = length q) then Ok (kernel d q row)
               else Raise ValueError) m.

Definition excluded (f : option Filter) : list PointId :=
  match f with
  | Some {| must_not := Some conds |} =>
      mjoin ((λ c, match c with HasIdCondition l => l | _ => [] end) <$> conds)
  | _ => []
  end.

Definition z_mask (ps : list (option Payload)) (f : option Filter)
    (inv : list PointId) : list bool :=
  (λ i, match inv !! i with
        | Some point_id => negb (bool_decide (point_id ∈ excluded f))
        | None => true
        end) <$> seq 0 (length ps).

Definition z_mean (rows : list (list Z)) : list Z :=
  match rows with
  | [] => []
  | r :: _ =>
      (λ j, (foldr Z.add 0 ((λ row, default 0 (row !! j)) <$> rows)
             / Z.of_nat (length rows))%Z) <$> seq 0 (length r)
  end.

Definition z_kernels : Kernels :=
  {| distance_to_order := λ d, match d with
                               | Euclid => SMALLER_IS_BETTER
                               | _ => BIGGER_IS_BETTER
                               end;
     calculate_distance := z_distance;
     calculate_payload_mask := z_mask;
     argsort := λ scores,
       sorted Z.ltb (λ i, default 0%Z (scores !! i)) (seq 0 (length scores));
     np_mean := z_mean;
     uuid_valid := λ s, bool_decide (String.length s = 36%nat);
     dict_items := map_to_list;
     dict_items_perm := λ d, reflexivity _ |}.

#[local] Existing Instance z_kernels.

Definition point (n : Z) (p : option Payload) (v : list Z) : PointStruct :=
  {| pt_id := IntId n; pt_payload := p; pt_vector := VList v |}.

Definition dot_params : VectorParams :=
  {| params_size := 2; params_distance := Dot |}.

Definition dot_config : CreateCollection := {| cfg_vectors := inl dot_params |}.

(** Three points with the default vector name, no payload given. *)
Definition three_points : LocalCollection :=
  (upsert (__init__ dot_config None)
     (PointsList [point 1 None [10; 0]; point 2 None [9; 1];
                  point 3 None [0; 10]]%Z)).2.

(** The matrix of [three_points], a query and its dot products. *)
Definition three_rows : Matrix :=
  {| ncols := 2; mrows := [[10; 0]; [9; 1]; [0; 10]]%Z |}.

Definition query : QueryVector := QList [10; 0]%Z.

Definition query_scores : list F := [100; 90; 0]%Z.

(** Two named vectors per point. *)
Definition named_config : CreateCollection :=
  {| cfg_vectors :=
       inr {[ "image" := dot_params; DEFAULT_VECTOR_NAME := dot_params ]} |}.

Definition named_point : LocalCollection :=
  (upsert (__init__ named_config None)
     (PointsList
        [{| pt_id := IntId 1; pt_payload := Some {[ "k" := 1%Z ]};
            pt_vector := VDict {[ "image" := [1; 0]%Z;
                                  DEFAULT_VECTOR_NAME := [0; 1]%Z ]} |}])).2.

(** A filter object of the caller, held under reference [0]. *)
Definition empty_filter : Filter :=
  {| should := None; must := None; must_not := None |}.

Definition caller_heap : gmap ref Filter := {[ 0%nat := empty_filter ]}.

Definition recommended : result (list ScoredPoint) * gmap ref Filter :=
  recommend three_points caller_heap [IntId 1] (Some [IntId 3]) (Some 0%nat)
    10 0 (WPBool true) (WVBool false) None None None None.

(** Upserts in both forms around a delete. *)
Definition history : list Call :=
  [CallUpsert
     (PointsList [point 1 None [10; 0];
                  point 2 (Some {[ "k" := 1 ]}) [9; 1]]%Z);
   CallDelete (SelList [IntId 1]);
   CallUpsert
     (PointsBatch {| batch_ids := [IntId 1; IntId 3];
                     batch_payloads := None;
                     batch_vectors := inl [[1; 1]; [0; 10]]%Z |})].

Definition after_history : LocalCollection :=
  (calls (__init__ dot_config None) history).2.

(** [three_points] with point [1] deleted, and a new version of it. *)
Definition after_delete : LocalCollection :=
  (delete three_points (SelList [IntId 1])).2.

Definition replacement : PointStruct :=
  point 1 (Some {[ "k" := 1%Z ]}) [5; 5]%Z.


(** The points of [three_points], and the same collection kept at a
    location. *)
Definition three_list : list PointStruct :=
  [point 1 None [10; 0]; point 2 None [9; 1]; point 3 None [0; 10]]%Z.

Definition stored_points : LocalCollection :=
  (upsert (__init__ dot_config (Some "db")) (PointsList three_list)).2.

(** A list whose last point has a vector of the wrong width. *)
Definition bad_list : list PointStruct :=
  [point 1 None [10; 0]; point 2 None [9; 1; 4]; point 3 None [0; 10]]%Z.

Definition after_bad_list : result unit * LocalCollection :=
  upsert (__init__ dot_config (Some "db")) (PointsList bad_list).

(** Writes of every kind, one after the other. *)
Definition journal : list Write :=
  [WriteUpsert (PointsList three_list);
   WriteSetPayload {[ "k" := 1%Z ]} (SelList [IntId 1; IntId 2]);
   WriteDelete (SelList [IntId 2]);
   WriteUpsert
     (PointsBatch {| batch_ids := [IntId 4; IntId 2];
                     batch_payloads := None;
                     batch_vectors := inl [[1; 1]; [0; 10]]%Z |});
   WriteOverwritePayload {[ "c" := 2%Z ]} (SelList [IntId 3]);
   WriteClearPayload (SelPointIdsList [IntId 1])].

Definition after_journal : LocalCollection :=
  (writes (__init__ dot_config None) journal).2.

Definition batch : Batch :=
  {| batch_ids := [IntId 1; IntId 3];
     batch_payloads := Some [None; Some {[ "k" := 1%Z ]}];
     batch_vectors := inl [[1; 1]; [0; 10]]%Z |}.

Definition batch_as_list : list PointStruct :=
  [{| pt_id := IntId 1; pt_payload := None;
      pt_vector := VDict {[ DEFAULT_VECTOR_NAME := [1; 1]%Z ]} |};
   {| pt_id := IntId 3; pt_payload := Some {[ "k" := 1%Z ]};
      pt_vector := VDict {[ DEFAULT_VECTOR_NAME := [0; 10]%Z ]} |}].

(** A point that [three_points] does not hold yet; its row makes the
    matrix grow. *)
Definition fourth : PointStruct := point 4 None [1; 1]%Z.

(** A filter that leaves point [2] out. *)
Definition without_two : Filter :=
  {| should := None; must := None;
     must_not := Some [HasIdCondition [IntId 2]] |}.

(** A payload with two keys on point [1] of a stored collection. *)
Definition tagged : LocalCollection :=
  (upsert (__init__ dot_config (Some "db"))
     (PointsList [point 1 (Some {[ "k" := 1; "c" := 2 ]}) [10; 0];
                  point 2 None [9; 1]]%Z)).2.

Definition tags : Payload := {[ "k" := 7%Z; "n" := 5%Z ]}.

Definition after_set_payload : LocalCollection :=
  (set_payload tagged tags (SelList [IntId 2; IntId 1])).2.

Definition after_overwrite_payload : LocalCollection :=
  (overwrite_payload tagged tags (SelList [IntId 2; IntId 1])).2.

End Example.

(** * Properties *)

(** ** The error monad, comprehensions and small maps *)

Section Basics.
Context `{Scalars}.

Lemma mapM_Ok_length {A B} (f : A → result B) (l : list A) (k : list B) :
  mapM f l = Ok k → length k = length l.
Proof.
  revert k. induction l as [|x l IH]; intros k; cbn.
  - intros [= <-]. done.
  - destruct (f x) as [y|]; cbn; [|done].
    destruct (mapM f l) as [k'|]; cbn; [|done].
    intros [= <-]. cbn. f_equal. by apply IH.
Qed.

Lemma mapM_Ok_fmap {A B} (f : A → result B) (g : A → B) (l : list A) :
  (∀ x, x ∈ l → f x = Ok (g x)) → mapM f l = Ok (g <$> l).
Proof.
  induction l as [|x l IH]; intros Hf; cbn; [done|].
  rewrite (Hf x) by left. cbn.
  rewrite IH; [done|]. intros y Hy. apply Hf. by right.
Qed.

Lemma dict_comprehension_Ok {A B} (f : string → A → result B) (g : A → B)
    (d : gmap string A) :
  (∀ k a, d !! k = Some a → f k a = Ok (g a)) →
  dict_comprehension f d = Ok (g <$> d).
Proof.
  intros Hf. unfold dict_comprehension.
  rewrite (mapM_Ok_fmap _ (prod_map id g)).
  - cbn. f_equal. rewrite list_to_map_fmap. by rewrite list_to_map_to_list.
  - intros [k a] Hin. apply elem_of_map_to_list in Hin. cbn.
    by rewrite (Hf k a Hin).
Qed.

Lemma index_Some {A} (xs : list A) (i : nat) (x : A) :
  xs !! i = Some x → index xs i = Ok x.
Proof. unfold index. by intros ->. Qed.

Lemma index_lt {A} (xs : list A) (i : nat) :
  (i < length xs)%nat → ∃ x, xs !! i = Some x ∧ index xs i = Ok x.
Proof.
  intros Hlt. destruct (lookup_lt_is_Some_2 xs i Hlt) as [x Hx].
  exists x. split; [done|]. by apply index_Some.
Qed.

(** A map has one entry, under the key [k], exactly when its key set is
    the singleton of [k]. *)
Lemma size_one_key {A} (m : gmap string A) (k : string) :
  (size m = 1%nat ∧ is_Some (m !! k)) ↔ dom m = {[ k ]}.
Proof.
  split.
  - intros [Hsize Hk]. rewrite <- size_dom in Hsize.
    apply size_1_elem_of in Hsize as [x Hx].
    apply elem_of_dom in Hk. rewrite Hx in Hk.
    apply elem_of_singleton in Hk as ->. by apply leibniz_equiv.
  - intros Hdom. split.
    + by rewrite <- size_dom, Hdom, size_singleton.
    + apply elem_of_dom. rewrite Hdom. by apply elem_of_singleton.
Qed.

End Basics.

(** ** Projections of a stored point *)

Section Projections.
Context `{Kernels}.

Lemma select_names_Ok (all : gmap string (list F)) (names : list string) :
  (∀ n, n ∈ names → is_Some (all !! n)) →
  select_names all names = Ok (filter (λ kv, kv.1 ∈ names) all).
Proof.
  induction names as [|name names IH]; intros Hin; cbn.
  - f_equal. apply map_eq. intros k. rewrite lookup_empty. symmetry.
    apply map_lookup_filter_None. right. intros v _ Hk. cbn in Hk.
    by apply elem_of_nil in Hk.
  - destruct (Hin name) as [v Hv]; [left|]. rewrite Hv.
    rewrite IH by (intros n Hn; apply Hin; by right). cbn. f_equal.
    apply map_eq. intros k. destruct (decide (name = k)) as [<-|Hne].
    + rewrite lookup_insert_eq. symmetry.
      apply map_lookup_filter_Some. split; [done|]. cbn. left.
    + rewrite lookup_insert_ne by done. rewrite !map_lookup_filter.
      destruct (all !! k) as [w|]; cbn; [|done].
      destruct (decide (k ∈ names)) as [Hk|Hk].
      * rewrite (option_guard_True (k ∈ names)) by done.
        by rewrite (option_guard_True (k ∈ name :: names)) by (by right).
      * rewrite (option_guard_False (k ∈ names)) by done.
        rewrite (option_guard_False (k ∈ name :: names)); [done|].
        intros [->|?]%elem_of_cons; done.
Qed.

Lemma all_rows_Ok (self : LocalCollection) (idx : nat) :
  map_Forall (λ _ m, (idx < length (mrows m))%nat) (vectors self) →
  dict_comprehension (λ _ m, index (mrows m) idx) (vectors self)
  = Ok (row_at idx <$> vectors self).
Proof.
  intros Hrows. apply dict_comprehension_Ok. intros k m Hk.
  destruct (index_lt (mrows m) idx (Hrows k m Hk)) as (row & Hrow & ->).
  unfold row_at. by rewrite Hrow.
Qed.

(** The last step of [_get_vectors]: a dict whose only key is the default
    name is replaced by its single array. *)
Lemma unwrap_default (vs : gmap string (list F)) :
  match decide (size vs = 1%nat), vs !! DEFAULT_VECTOR_NAME with
  | left _, Some v => Ok (Some (VList v))
  | _, _ => Ok (Some (VDict vs))
  end
  = Ok (Some (if decide (dom vs = {[ DEFAULT_VECTOR_NAME ]})
              then VList (default [] (vs !! DEFAULT_VECTOR_NAME))
              else VDict vs)).
Proof.
  destruct (decide (dom vs = _)) as [Hdom|Hdom].
  - apply size_one_key in Hdom as [Hsize [v Hv]].
    rewrite Hv. by destruct (decide _).
  - destruct (decide _) as [Hsize|]; [|done].
    destruct (vs !! DEFAULT_VECTOR_NAME) as [v|] eqn:Hv; [|done].
    exfalso. apply Hdom. apply size_one_key. eauto.
Qed.

(** C8, as the code has it: [False] and the empty list omit the vectors;
    [True] gives the dict of all named vectors, or the bare array when the
    collection has the default name alone; a non-empty list of configured
    names gives the dict restricted to these names, and the same unwrapping
    applies to it, so that a restricted dict whose only key is the default
    name is returned as the bare array. *)
Theorem get_vectors_projection (self : LocalCollection) (idx : nat) :
  map_Forall (λ _ m, (idx < length (mrows m))%nat) (vectors self) →
  let all := row_at idx <$> vectors self in
  _get_vectors self idx (WVBool false) = Ok None
  ∧ _get_vectors self idx (WVList []) = Ok None
  ∧ _get_vectors self idx (WVBool true)
    = Ok (Some (if decide (dom (vectors self) = {[ DEFAULT_VECTOR_NAME ]})
                then VList (default [] (all !! DEFAULT_VECTOR_NAME))
                else VDict all))
  ∧ ∀ names : list string,
      names ≠ [] →
      (∀ n, n ∈ names → n ∈ dom (vectors self)) →
      let sub := filter (λ kv, kv.1 ∈ names) all in
      _get_vectors self idx (WVList names)
      = Ok (Some (if decide (dom sub = {[ DEFAULT_VECTOR_NAME ]})
                  then VList (default [] (sub !! DEFAULT_VECTOR_NAME))
                  else VDict sub)).
Proof.
  intros Hrows all. subst all. cbn zeta. repeat split.
  - unfold _get_vectors. rewrite all_rows_Ok by done. cbn.
    rewrite unwrap_default. by rewrite dom_fmap_L.
  - intros names Hne Hconf. destruct names as [|n names]; [done|].
    unfold _get_vectors. rewrite all_rows_Ok by done. cbn -[select_names].
    rewrite select_names_Ok.
    + cbn. by rewrite unwrap_default.
    + intros k Hk. apply elem_of_dom. rewrite dom_fmap_L. by apply Hconf.
Qed.

End Projections.

(** ** search *)

Section Search.
Context `{Kernels}.

Lemma mapM_cons {A B} (f : A → result B) (x : A) (l : list A) :
  mapM f (x :: l) = (y ← f x; k ← mapM f l; Ok (y :: k)).
Proof. reflexivity. Qed.

Lemma search_loop_walk (self : LocalCollection) (mask : list bool)
    (scores : list F) (required_order : DistanceOrder) (limit offset : Z)
    (with_payload : WithPayload) (with_vectors : WithVectors)
    (score_threshold : option F) (order : list nat) (res : list ScoredPoint) :
  (0 ≤ limit + offset)%Z →
  Forall (λ idx, (idx < length mask)%nat ∧ (idx < length scores)%nat
                 ∧ (idx < length (ids_inv self))%nat) order →
  search_loop self mask scores required_order limit offset with_payload
    with_vectors score_threshold order res
  = (hits ← mapM (scored_point_at self scores with_payload with_vectors)
              (take (Z.to_nat (limit + offset) - length res)
                 (take_while (passes required_order score_threshold scores)
                    (filter (λ idx, mask !! idx = Some true) order)));
     Ok (res ++ hits)).
Proof.
  intros Hnonneg Hrange. revert res.
  induction Hrange as [|idx order (Hm & Hs & Hi) _ IH]; intros res.
  - cbn. rewrite take_nil. cbn. by rewrite app_nil_r.
  - cbn [search_loop]. destruct (Z.leb_spec (limit + offset) (Z.of_nat (length res))).
    + replace (Z.to_nat (limit + offset) - length res)%nat with 0%nat by lia.
      rewrite take_0. cbn. by rewrite app_nil_r.
    + destruct (index_lt mask idx Hm) as (m & Hmask & ->).
      destruct (index_lt scores idx Hs) as (score & Hscore & Hscore').
      destruct (index_lt (ids_inv self) idx Hi) as (point_id & Hid & Hid').
      rewrite filter_cons. cbn [mbind result_bind].
      destruct m; cbn [negb].
      * rewrite decide_True by done. rewrite Hscore', Hid'.
        cbn [mbind result_bind take_while]. unfold passes at 1.
        rewrite Hscore.
        destruct (crosses required_order score_threshold score); cbn [negb].
        -- rewrite take_nil. cbn. by rewrite app_nil_r.
        -- replace (Z.to_nat (limit + offset) - length res)%nat
             with (S (Z.to_nat (limit + offset) - S (length res)))%nat by lia.
           cbn [take]. rewrite mapM_cons.
           assert (scored_point_at self scores with_payload with_vectors idx
                   = make_scored_point self with_payload with_vectors
                       point_id score idx) as ->.
           { unfold scored_point_at. by rewrite Hscore', Hid'. }
           destruct (make_scored_point _ _ _ _ _ _) as [scored_point|e];
             cbn [mbind result_bind]; [|done].
           rewrite IH, length_app. cbn [length].
           replace (length res + 1)%nat with (S (length res)) by lia.
           destruct (mapM _ _) as [hits|e]; cbn; [|done].
           by rewrite <- app_assoc.
      * rewrite decide_False by (rewrite Hmask; congruence). apply IH.
Qed.

Lemma py_slice_from_nonneg {A} (n : Z) (xs : list A) :
  (0 ≤ n)%Z → py_slice_from n xs = drop (Z.to_nat n) xs.
Proof. intros Hn. unfold py_slice_from. by rewrite (Zle_imp_le_bool _ _ Hn). Qed.

(** The combined mask of two arrays of one length is the spec's. *)
Lemma combined_mask_live_matches (payload_mask deleted_ mask : list bool) :
  np_elementwise andb payload_mask (negb <$> deleted_) = Ok mask →
  length payload_mask = length deleted_ →
  mask = live_matches payload_mask deleted_.
Proof.
  intros Hmask Hlen. unfold np_elementwise in Hmask.
  rewrite decide_True in Hmask by by rewrite length_fmap.
  injection Hmask as <-. unfold live_matches. clear.
  revert deleted_.
  induction payload_mask as [|a pm IH]; intros [|d ds]; cbn; [done..|].
  by rewrite IH.
Qed.

Lemma take_while_ext {A} (p q : A → bool) (l : list A) :
  (∀ x, p x = q x) → take_while p l = take_while q l.
Proof.
  intros Hpq. induction l as [|x l IH]; [done|]. cbn.
  by rewrite Hpq, IH.
Qed.

Lemma passes_within (required_order : DistanceOrder)
    (score_threshold : option F) (scores : list F) (idx : nat) :
  passes required_order score_threshold scores idx
  = within_threshold required_order score_threshold scores idx.
Proof.
  unfold passes, within_threshold, crosses.
  destruct (scores !! idx); [|done].
  by destruct score_threshold, required_order.
Qed.

Lemma mapM_ext {A B} (f g : A → result B) (l : list A) :
  (∀ x, f x = g x) → mapM f l = mapM g l.
Proof.
  intros Hfg. induction l as [|x l IH]; [done|].
  by rewrite !mapM_cons, Hfg, IH.
Qed.

(** C1: [search] walks the indices sorted by score, in descending order
    when bigger is better and in ascending order otherwise, keeps those
    the combined mask (payload mask and not tombstoned) accepts, stops at
    the first kept index whose score is worse than the threshold, builds
    at most [limit + offset] results and returns them without the first
    [offset]; the page has at most [limit] entries. The order is the
    ascending sort of [argsort] or its reverse: a permutation of the
    indices, sorted as said, when [argsort] returns a sorted
    permutation. *)
Theorem search_walk (self : LocalCollection) (query_vector : QueryVector)
    (query_filter : option Filter) (limit offset : Z)
    (with_payload : WithPayload) (with_vectors : WithVectors)
    (score_threshold : option F) (name : string) (vector : list F)
    (named_vectors : Matrix) (params : VectorParams) (scores : list F)
    (mask : list bool) :
  (0 ≤ limit)%Z →
  (0 ≤ offset)%Z →
  _resolve_vector_name query_vector = (name, vector) →
  vectors self !! name = Some named_vectors →
  get_vector_params self name = Ok params →
  calculate_distance vector
    (take (length (payload self)) (mrows named_vectors))
    (params_distance params) = Ok scores →
  np_elementwise andb
    (calculate_payload_mask (payload self) query_filter (ids_inv self))
    (negb <$> deleted self) = Ok mask →
  length mask = length scores →
  length (ids_inv self) = length scores →
  Forall (λ idx, (idx < length scores)%nat) (argsort scores) →
  let required_order := distance_to_order (params_distance params) in
  let order := score_sorted required_order scores in
  let matches :=
    take_while (within_threshold required_order score_threshold scores)
      (filter (λ idx, mask !! idx = Some true) order) in
  search self query_vector query_filter limit offset with_payload
    with_vectors score_threshold
  = (hits ← mapM (result_at self scores with_payload with_vectors)
              (take (Z.to_nat (limit + offset)) matches);
     Ok (drop (Z.to_nat offset) hits))
  ∧ (∀ page,
       search self query_vector query_filter limit offset with_payload
         with_vectors score_threshold = Ok page →
       (length page ≤ Z.to_nat limit)%nat)
  ∧ (length (calculate_payload_mask (payload self) query_filter
               (ids_inv self)) = length (deleted self) →
     mask = live_matches
              (calculate_payload_mask (payload self) query_filter
                 (ids_inv self)) (deleted self))
  ∧ (argsort scores ≡ₚ seq 0 (length scores) →
     order ≡ₚ seq 0 (length scores))
  ∧ (Sorted (ascending scores) (argsort scores) →
     match required_order with
     | BIGGER_IS_BETTER => Sorted (flip (ascending scores)) order
     | SMALLER_IS_BETTER => Sorted (ascending scores) order
     end).
Proof.
  intros Hlimit Hoffset Hname Hvectors Hparams Hscores Hmask Hlen_mask
    Hlen_ids Hrange required_order order matches.
  assert (search self query_vector query_filter limit offset with_payload
            with_vectors score_threshold
          = (hits ← mapM (result_at self scores with_payload with_vectors)
                      (take (Z.to_nat (limit + offset)) matches);
             Ok (drop (Z.to_nat offset) hits))) as Hsearch.
  { unfold search. rewrite Hname, Hvectors, Hparams. cbn [mbind result_bind].
    rewrite Hscores. cbn [mbind result_bind]. rewrite Hmask.
    cbn [mbind result_bind]. rewrite search_loop_walk.
    - cbn [length]. rewrite Nat.sub_0_r.
      rewrite (take_while_ext _ _ _
                 (passes_within
                    (distance_to_order (params_distance params))
                    score_threshold scores)).
      change (search_order (distance_to_order (params_distance params))
                scores) with order.
      fold required_order matches.
      rewrite (mapM_ext _ (result_at self scores with_payload with_vectors))
        by done.
      destruct (mapM _ _) as [hits|e]; cbn; [|done].
      by rewrite py_slice_from_nonneg.
    - lia.
    - assert (Forall (λ idx, (idx < length scores)%nat)
                (search_order (distance_to_order (params_distance params))
                   scores)) as Horder.
      { unfold search_order. destruct (distance_to_order _); [|done].
        by apply Forall_reverse. }
      eapply Forall_impl; [exact Horder|]. cbn. intros idx Hidx. lia. }
  split; [exact Hsearch|]. split_and!.
  - intros page. rewrite Hsearch.
    destruct (mapM _ _) as [hits|e] eqn:Hhits; cbn; [|done].
    intros [= <-]. apply mapM_Ok_length in Hhits.
    rewrite length_drop, Hhits, length_take. lia.
  - intros Hlen. by apply combined_mask_live_matches.
  - intros Hperm. subst order. unfold score_sorted.
    destruct required_order; [|done]. by rewrite reverse_Permutation.
  - intros Hsorted. subst order. unfold score_sorted.
    destruct required_order; [|done]. by apply Sorted_reverse.
Qed.

End Search.

(** ** scroll *)

Section Scroll.
Context `{Kernels}.

Lemma insert_by_perm {A K} (lt : K → K → bool) (key : A → K) (x : A)
    (xs : list A) :
  insert_by lt key x xs ≡ₚ x :: xs.
Proof.
  induction xs as [|y ys IH]; cbn; [done|].
  destruct (lt (key y) (key x)); [|done].
  rewrite IH. apply Permutation_swap.
Qed.

Lemma sorted_perm {A K} (lt : K → K → bool) (key : A → K) (xs : list A) :
  sorted lt key xs ≡ₚ xs.
Proof.
  induction xs as [|x xs IH]; cbn; [done|].
  rewrite insert_by_perm. by rewrite IH.
Qed.

Lemma insert_by_Sorted {A K} (lt : K → K → bool) (key : A → K) (x : A)
    (xs : list A) :
  (∀ a b, lt a b = true → lt b a = false) →
  Sorted (λ a b, lt (key b) (key a) = false) xs →
  Sorted (λ a b, lt (key b) (key a) = false) (insert_by lt key x xs).
Proof.
  intros Hasym. induction 1 as [|y ys Hys IH Hhd]; cbn.
  - by repeat constructor.
  - destruct (lt (key y) (key x)) eqn:Hyx.
    + constructor; [exact IH|].
      destruct Hhd as [|z zs Hz]; cbn.
      * constructor. by apply Hasym.
      * destruct (lt (key z) (key x)); constructor; [done|by apply Hasym].
    + by repeat constructor.
Qed.

Lemma sorted_Sorted {A K} (lt : K → K → bool) (key : A → K) (xs : list A) :
  (∀ a b, lt a b = true → lt b a = false) →
  Sorted (λ a b, lt (key b) (key a) = false) (sorted lt key xs).
Proof.
  intros Hasym. induction xs as [|x xs IH]; cbn; [constructor|].
  by apply insert_by_Sorted.
Qed.

Lemma string_ltb_asym (a b : string) :
  String.ltb a b = true → String.ltb b a = false ∧ String.eqb b a = false.
Proof.
  unfold String.ltb. rewrite (String.compare_antisym b a).
  destruct (String.compare a b) eqn:Hcmp; try done. intros _. split; [done|].
  apply String.eqb_neq. intros ->.
  pose proof (String.compare_antisym a a) as Haa. by rewrite Hcmp in Haa.
Qed.

Lemma tuple_lt_asym (a b : string * Z) :
  tuple_lt a b = true → tuple_lt b a = false.
Proof.
  unfold tuple_lt. intros [Hlt|[Heq Hlt]%andb_prop]%orb_prop.
  - apply string_ltb_asym in Hlt as [-> ->]. done.
  - apply String.eqb_eq in Heq. rewrite Heq.
    assert (String.ltb b.1 b.1 = false) as ->.
    { destruct (String.ltb b.1 b.1) eqn:Hbb; [|done].
      pose proof (string_ltb_asym _ _ Hbb) as [? _]. congruence. }
    rewrite String.eqb_refl. cbn. apply Z.ltb_lt in Hlt. apply Z.ltb_ge. lia.
Qed.

Lemma tuple_lt_irrefl (a : string * Z) : tuple_lt a a = false.
Proof.
  destruct (tuple_lt a a) eqn:Haa; [|done].
  pose proof (tuple_lt_asym _ _ Haa). congruence.
Qed.

Lemma scroll_loop_walk (self : LocalCollection) (mask : list bool)
    (limit : Z) (offset : option PointId) (with_payload : WithPayload)
    (with_vectors : WithVectors) (sorted_ids : list (PointId * nat))
    (res : list Record_) :
  (0 ≤ limit)%Z →
  Forall (λ item, (item.2 < length mask)%nat) sorted_ids →
  scroll_loop self mask limit offset with_payload with_vectors sorted_ids res
  = (records ← mapM (record_at self with_payload with_vectors)
                 (take (S (Z.to_nat limit) - length res)
                    (filter (scrolled mask offset) sorted_ids));
     Ok (res ++ records)).
Proof.
  intros Hlimit Hrange. revert res.
  induction Hrange as [|[point_id idx] sorted_ids Hm _ IH]; intros res.
  - cbn. rewrite take_nil. cbn. by rewrite app_nil_r.
  - cbn [scroll_loop]. rewrite filter_cons.
    destruct (before_offset offset point_id) eqn:Hbefore.
    { rewrite decide_False
        by (unfold scrolled; cbn; rewrite Hbefore; intros [? _]; done).
      apply IH. }
    destruct (Z.leb_spec (limit + 1) (Z.of_nat (length res))).
    { replace (S (Z.to_nat limit) - length res)%nat with 0%nat by lia.
      rewrite take_0. cbn. by rewrite app_nil_r. }
    cbn in Hm. destruct (index_lt mask idx Hm) as (m & Hmask & ->).
    cbn [mbind result_bind]. destruct m; cbn [negb].
    + rewrite decide_True by (unfold scrolled; cbn; by rewrite Hbefore, Hmask).
      replace (S (Z.to_nat limit) - length res)%nat
        with (S (S (Z.to_nat limit) - S (length res)))%nat by lia.
      cbn [take]. rewrite mapM_cons.
      change (record_at self with_payload with_vectors (point_id, idx))
        with (make_record self with_payload with_vectors point_id idx).
      destruct (make_record _ _ _ _ _) as [record|e];
        cbn [mbind result_bind]; [|done].
      rewrite IH, length_app. cbn [length].
      replace (length res + 1)%nat with (S (length res)) by lia.
      destruct (mapM _ _) as [records|e]; cbn; [|done].
      by rewrite <- app_assoc.
    + rewrite decide_False
        by (unfold scrolled; cbn; rewrite Hmask; intros [_ ?]; congruence).
      apply IH.
Qed.

Lemma insert_by_ext {A K K'} (lt : K → K → bool) (lt' : K' → K' → bool)
    (key : A → K) (key' : A → K') (x : A) (xs : list A) :
  (∀ a b, lt (key a) (key b) = lt' (key' a) (key' b)) →
  insert_by lt key x xs = insert_by lt' key' x xs.
Proof.
  intros Hlt. induction xs as [|y ys IH]; [done|]. cbn.
  by rewrite Hlt, IH.
Qed.

Lemma sorted_ext {A K K'} (lt : K → K → bool) (lt' : K' → K' → bool)
    (key : A → K) (key' : A → K') (xs : list A) :
  (∀ a b, lt (key a) (key b) = lt' (key' a) (key' b)) →
  sorted lt key xs = sorted lt' key' xs.
Proof.
  intros Hlt. unfold sorted. induction xs as [|x xs IH]; [done|].
  cbn [foldr]. rewrite <- IH. by apply insert_by_ext.
Qed.

(** The order of the tuples that [_universal_id] returns is the spec's
    order of ids. *)
Lemma key_below_universal (a b : PointId) :
  tuple_lt (_universal_id a) (_universal_id b) = key_below a b.
Proof.
  destruct a as [x|s], b as [y|t]; unfold tuple_lt; cbn.
  - done.
  - destruct t; cbn; [done|]. done.
  - destruct s; cbn; [done|]. done.
  - by rewrite andb_false_r, orb_false_r.
Qed.

Lemma key_below_asym (a b : PointId) :
  key_below a b = true → key_below b a = false.
Proof. rewrite <- !key_below_universal. apply tuple_lt_asym. Qed.

Lemma scrolled_visited (mask : list bool) (offset : option PointId)
    (item : PointId * nat) :
  scrolled mask offset item ↔ visited mask offset item.
Proof.
  unfold scrolled, visited, before_offset. destruct offset as [o|].
  - by rewrite key_below_universal.
  - split; by intros [_ ?].
Qed.

(** C4: [scroll] visits the entries of [self.ids] in the order of their
    universal keys (integer ids before non-empty string ids, integers by
    value, strings in lexicographic order), passes over the ids that are
    strictly below the [offset] id (an id equal to it is kept), collects
    at most [limit + 1] records the mask accepts, and returns the first
    [limit] of them with the id of record [limit + 1] as next offset when
    that many were collected, and all of them with no next offset
    otherwise; a collection with no ids returns [([], None)] whatever
    the filter. *)
Theorem scroll_pages (self : LocalCollection) (scroll_filter : option Filter)
    (limit : Z) (offset : option PointId) (with_payload : WithPayload)
    (with_vectors : WithVectors) :
  let sorted_ids := sorted key_below (λ x : PointId * nat, x.1) (ids self) in
  (sorted_ids ≡ₚ ids self
   ∧ Sorted (λ a b, key_below b.1 a.1 = false) sorted_ids)
  ∧ (∀ n s, s ≠ EmptyString → key_below (IntId n) (StrId s) = true)
  ∧ (∀ a b, key_below (IntId a) (IntId b) = (a <? b)%Z)
  ∧ (∀ a b, key_below (StrId a) (StrId b) = String.ltb a b)
  ∧ (∀ o, key_below o o = false)
  ∧ (ids self = [] →
     scroll self scroll_filter limit offset with_payload with_vectors
     = Ok ([], None))
  ∧ (ids self ≠ [] →
     (0 ≤ limit)%Z →
     ∀ mask,
       np_elementwise andb
         (calculate_payload_mask (payload self) scroll_filter (ids_inv self))
         (negb <$> deleted self) = Ok mask →
       Forall (λ item, (item.2 < length mask)%nat) (ids self) →
       scroll self scroll_filter limit offset with_payload with_vectors
       = (records ← mapM (record_of self with_payload with_vectors)
                      (take (S (Z.to_nat limit))
                         (filter (visited mask offset) sorted_ids));
          Ok (match records !! Z.to_nat limit with
              | Some next =>
                  (take (Z.to_nat limit) records, Some (rec_id next))
              | None => (records, None)
              end))
       ∧ (length (calculate_payload_mask (payload self) scroll_filter
                    (ids_inv self)) = length (deleted self) →
          mask = live_matches
                   (calculate_payload_mask (payload self) scroll_filter
                      (ids_inv self)) (deleted self))).
Proof.
  intros sorted_ids.
  assert (sorted tuple_lt (λ x : PointId * nat, _universal_id x.1) (ids self)
          = sorted_ids) as Hsorted.
  { apply sorted_ext. intros a b. apply key_below_universal. }
  split_and!.
  - apply sorted_perm.
  - apply sorted_Sorted, key_below_asym.
  - intros n s Hs. cbn. by apply String.eqb_neq in Hs as ->.
  - done.
  - done.
  - intros o. destruct (key_below o o) eqn:Hoo; [|done].
    pose proof (key_below_asym _ _ Hoo). congruence.
  - intros Hempty. unfold scroll. by rewrite Hempty.
  - intros Hne Hlimit mask Hmask Hrange. split.
    + unfold scroll.
      rewrite decide_False by (by destruct (ids self)).
      rewrite Hmask. cbn [mbind result_bind].
      rewrite scroll_loop_walk; [|done|].
      * cbn [length]. rewrite Nat.sub_0_r, Hsorted.
        rewrite (list_filter_iff _ (visited mask offset))
          by (intros item; apply scrolled_visited).
        rewrite (mapM_ext _ (record_of self with_payload with_vectors))
          by done.
        destruct (mapM _ _) as [records|e] eqn:Hrecords;
          cbn [mbind result_bind app]; [|done].
        apply mapM_Ok_length in Hrecords. rewrite length_take in Hrecords.
        destruct (Z.ltb_spec limit (Z.of_nat (length records))).
        -- destruct (lookup_lt_is_Some_2 records (Z.to_nat limit))
             as [next Hnext]; [lia|].
           rewrite Hnext. unfold py_index, py_slice_to.
           rewrite (Zle_imp_le_bool _ _ Hlimit), (index_Some _ _ _ Hnext).
           done.
        -- by rewrite (lookup_ge_None_2 records (Z.to_nat limit)) by lia.
      * eapply Forall_forall. intros item Hitem.
        rewrite Forall_forall in Hrange. apply Hrange.
        by rewrite <- (sorted_perm tuple_lt
                        (λ x : PointId * nat, _universal_id x.1) (ids self)).
    + intros Hlen. by apply combined_mask_live_matches.
Qed.

End Scroll.

(** ** recommend *)

Section Recommend.
Context `{Kernels}.


Lemma np_elementwise_same_length {A B C} (op : A → B → C) (xs : list A)
    (ys : list B) :
  length xs = length ys → np_elementwise op xs ys = Ok (zip_with op xs ys).
Proof. intros Hlen. unfold np_elementwise. by rewrite decide_True. Qed.




(** C10: a [recommend] call that is given a filter and returns has
    changed that filter object: its must-not list, taken as empty when it
    was [None], has the has-id clause over the positive and negative ids
    appended, and the caller reads the change through its own reference;
    no other filter object is touched. *)
Theorem recommend_mutates_filter (self : LocalCollection)
    (heap heap' : gmap ref Filter) (r : ref) (f : Filter)
    (positive : list PointId) (negative : option (list PointId))
    (limit offset : Z) (with_payload : WithPayload)
    (with_vectors : WithVectors) (score_threshold : option F)
    (using_ : option string) (lookup_from_collection : option LocalCollection)
    (lookup_from_vector_name : option string) (page : list ScoredPoint) :
  heap !! r = Some f →
  recommend self heap positive negative (Some r) limit offset with_payload
    with_vectors score_threshold using_ lookup_from_collection
    lookup_from_vector_name = (Ok page, heap') →
  heap' !! r
  = Some {| should := should f; must := must f;
            must_not :=
              Some (default [] (must_not f)
                    ++ [HasIdCondition (positive ++ default [] negative)]) |}
  ∧ ∀ r', r' ≠ r → heap' !! r' = heap !! r'.
Proof.
  intros Hf. unfold recommend. destruct positive as [|point_id positive]; [done|].
  destruct (_ ≫= _) as [vector|e]; [|done]. cbn. intros [= _ <-]. split.
  - rewrite lookup_alter_eq, Hf. cbn. do 2 f_equal. by destruct (must_not f).
  - intros r' Hne. by rewrite lookup_alter_ne.
Qed.

End Recommend.

(** ** upsert and delete *)

Section Writes.
Context `{Kernels}.

(** The entries of a dict of vectors, whatever their order. *)
Lemma NoDup_fst_dict_items (d : gmap string (list F)) :
  NoDup (dict_items d).*1.
Proof. rewrite dict_items_perm. apply NoDup_fst_map_to_list. Qed.

Lemma elem_of_dict_items (d : gmap string (list F)) (name : string)
    (vector : list F) :
  (name, vector) ∈ dict_items d ↔ d !! name = Some vector.
Proof. rewrite dict_items_perm. apply elem_of_map_to_list. Qed.

Lemma dict_set_absent {V} (d : list (PointId * V)) (k : PointId) (v : V) :
  dict_get d k = None → dict_set d k v = d ++ [(k, v)].
Proof.
  induction d as [|[k' v'] d IH]; cbn; [done|].
  destruct (decide (k' = k)); [done|]. intros Hd. by rewrite IH.
Qed.


Lemma assign_Ok {A} (xs ys : list A) (i : nat) (x : A) :
  assign xs i x = Ok ys →
  (i < length xs)%nat ∧ ys = <[i:=x]> xs ∧ length ys = length xs
  ∧ ys !! i = Some x.
Proof.
  unfold assign. destruct (decide _) as [Hlt|]; [|done]. intros [= <-].
  split_and!; [done|done|by rewrite length_insert|].
  by apply list_lookup_insert_eq.
Qed.

Lemma set_row_Ok (m m' : Matrix) (idx : nat) (vector : list F) :
  set_row m idx vector = Ok m' →
  (idx < length (mrows m))%nat ∧ ncols m' = ncols m
  ∧ length (mrows m') = length (mrows m)
  ∧ ∃ row, broadcast_row (ncols m') vector = Ok row
           ∧ mrows m' !! idx = Some row.
Proof.
  unfold set_row. destruct (decide _) as [Hlt|]; [|done].
  destruct (broadcast_row _ _) as [row|] eqn:Hrow; cbn; [|done].
  intros [= <-]. cbn. split_and!; [done|done|by rewrite length_insert|].
  exists row. split; [done|]. by apply list_lookup_insert_eq.
Qed.

Lemma grow_rows (idx : nat) (m : Matrix) :
  ncols (grow idx m) = ncols m
  ∧ (length (mrows m) ≤ length (mrows (grow idx m)))%nat.
Proof.
  unfold grow. destruct (decide _) as [Hle|]; [|done]. split; [done|].
  unfold np_resize. cbn.
  destruct (mrows m), (ncols m);
    rewrite ?length_replicate, ?length_fmap, ?length_seq; cbn in *; lia.
Qed.

(** What a row-writing loop that ran to its end has done. *)
Lemma write_rows_Ok (prepare : Matrix → Matrix) (idx : nat)
    (items : list (string * list F)) (vs vs' : gmap string Matrix) :
  NoDup items.*1 →
  write_rows prepare idx items vs = (Ok (), vs') →
  (∀ name vector, (name, vector) ∈ items →
     ∃ m m', vs !! name = Some m
             ∧ set_row (prepare m) idx vector = Ok m'
             ∧ vs' !! name = Some m')
  ∧ (∀ name, name ∉ items.*1 → vs' !! name = vs !! name).
Proof.
  revert vs. induction items as [|[n v] items IH]; intros vs Hnodup; cbn.
  - intros [= <-]. split; [|done]. intros name vector Hin.
    by apply elem_of_nil in Hin.
  - apply NoDup_cons in Hnodup as [Hfresh Hnodup].
    destruct (vs !! n) as [m|] eqn:Hm; [|done].
    destruct (set_row (prepare m) idx v) as [m'|] eqn:Hset; [|done].
    intros Hrest. destruct (IH _ Hnodup Hrest) as [Hitems Hother]. split.
    + intros name vector [[= -> ->]|Hin]%elem_of_cons.
      * exists m, m'. split_and!; [done|done|].
        by rewrite Hother, lookup_insert_eq.
      * destruct (Hitems name vector Hin) as (m1 & m1' & Hm1 & Hset1 & Hm1').
        exists m1, m1'. split_and!; [|done|done].
        rewrite lookup_insert_ne in Hm1; [done|]. intros ->. apply Hfresh.
        apply list_elem_of_fmap. by exists (name, vector).
    + intros name Hname. apply not_elem_of_cons in Hname as [Hne Hname].
      rewrite Hother by done. by rewrite lookup_insert_ne.
Qed.

Lemma update_point_Ok (self self' : LocalCollection) (point : PointStruct) :
  _update_point self point = (Ok (), self') →
  ∃ idx ps vs ds,
    dict_get (ids self) (pt_id point) = Some idx
    ∧ assign (payload self) idx (pt_payload point) = Ok ps
    ∧ dom (named_vectors_of (pt_vector point)) = dom (vectors self)
    ∧ write_rows (λ m, m) idx (dict_items (named_vectors_of (pt_vector point)))
        (vectors self) = (Ok (), vs)
    ∧ assign (deleted self) idx false = Ok ds
    ∧ self' = {| vectors := vs; payload := ps; deleted := ds;
                 ids := ids self; ids_inv := ids_inv self;
                 storage := storage self; config := config self |}.
Proof.
  unfold _update_point.
  destruct (dict_get _ _) as [idx|]; [|done].
  destruct (assign (payload self) _ _) as [ps|] eqn:Hps; [|done]. cbn.
  destruct (decide _) as [Hdom|]; [|done].
  destruct (write_rows _ _ _ _) as [[[]|] vs] eqn:Hrows; [|done]. cbn.
  destruct (assign (deleted self) _ _) as [ds|] eqn:Hds; [|done].
  intros [= <-]. by exists idx, ps, vs, ds.
Qed.

Lemma add_point_Ok (self self' : LocalCollection) (point : PointStruct) :
  _add_point self point = (Ok (), self') →
  ∃ vs,
    dom (named_vectors_of (pt_vector point)) = dom (vectors self)
    ∧ write_rows (grow (length (ids self))) (length (ids self))
        (dict_items (named_vectors_of (pt_vector point))) (vectors self)
      = (Ok (), vs)
    ∧ self' = {| vectors := vs;
                 payload := payload self ++ [pt_payload point];
                 deleted := deleted self ++ [false];
                 ids := dict_set (ids self) (pt_id point) (length (ids self));
                 ids_inv := ids_inv self ++ [pt_id point];
                 storage := storage self; config := config self |}.
Proof.
  unfold _add_point. cbn.
  destruct (decide _) as [Hdom|]; [|done].
  destruct (write_rows _ _ _ _) as [[[]|] vs] eqn:Hrows; [|done].
  intros [= <-]. by exists vs.
Qed.

Lemma upsert_point_Ok (self self' : LocalCollection) (point : PointStruct) :
  _upsert_point self point = (Ok (), self') →
  ∃ written,
    self' = storage_call written (persist point)
    ∧ ((is_Some (dict_get (ids self) (pt_id point))
        ∧ _update_point self point = (Ok (), written))
       ∨ (dict_get (ids self) (pt_id point) = None
          ∧ _add_point self point = (Ok (), written))).
Proof.
  unfold _upsert_point. destruct (malformed_id _); [done|].
  destruct (decide _) as [Hknown|Hnew].
  - destruct (_update_point self point) as [[[]|] written]; [|done].
    intros [= <-]. exists written. split; [done|]. by left.
  - destruct (_add_point self point) as [[[]|] written]; [|done].
    intros [= <-]. exists written. split; [done|]. right. split; [|done].
    by apply eq_None_not_Some.
Qed.

(** The one validation that comes before any write: a malformed string
    id is refused and the collection is as it was. *)
Lemma upsert_point_malformed_id (self : LocalCollection) (point : PointStruct) :
  malformed_id (pt_id point) = true →
  _upsert_point self point = (Raise ValueError, self).
Proof. intros Hbad. unfold _upsert_point. by rewrite Hbad. Qed.





End Writes.

(** ** The shape of the stores *)

Section Alignment.
Context `{Kernels}.

Lemma write_rows_shape (prepare : Matrix → Matrix) (idx : nat)
    (items : list (string * list F)) (vs vs' : gmap string Matrix) :
  NoDup items.*1 →
  (∀ m, (length (mrows m) ≤ length (mrows (prepare m)))%nat) →
  write_rows prepare idx items vs = (Ok (), vs') →
  dom vs' = dom vs
  ∧ (∀ name m', vs' !! name = Some m' →
       ∃ m, vs !! name = Some m
            ∧ (length (mrows m) ≤ length (mrows m'))%nat
            ∧ (name ∈ items.*1 → (idx < length (mrows m'))%nat)).
Proof.
  intros Hnodup Hprepare Hrows.
  destruct (write_rows_Ok _ _ _ _ _ Hnodup Hrows) as [Hitems Hother].
  assert (∀ name, name ∈ items.*1 →
            ∃ m m' vector, vs !! name = Some m
                    ∧ set_row (prepare m) idx vector = Ok m'
                    ∧ vs' !! name = Some m') as Hin.
  { intros name ([name' vector] & -> & Hin)%list_elem_of_fmap.
    destruct (Hitems _ _ Hin) as (m & m' & ?). by exists m, m', vector. }
  split.
  - apply set_eq. intros name. rewrite !elem_of_dom.
    destruct (decide (name ∈ items.*1)) as [Hname|Hname].
    + destruct (Hin name Hname) as (m & m' & _ & -> & _ & ->). by split.
    + by rewrite Hother.
  - intros name m' Hm'. destruct (decide (name ∈ items.*1)) as [Hname|Hname].
    + destruct (Hin name Hname) as (m & m2 & vector & Hm & Hset & Hm2).
      assert (m2 = m') as -> by congruence.
      apply set_row_Ok in Hset as (Hidx & _ & Hlen & _).
      exists m. split_and!; [done| |by rewrite Hlen].
      rewrite Hlen. apply Hprepare.
    + exists m'. rewrite <- Hother by done. by split_and!.
Qed.

Lemma storage_call_aligned (config_ : CreateCollection)
    (self : LocalCollection) (c : StorageCall) :
  aligned config_ self → aligned config_ (storage_call self c).
Proof. done. Qed.

Lemma update_point_aligned (config_ : CreateCollection)
    (self self' : LocalCollection) (point : PointStruct) :
  aligned config_ self →
  _update_point self point = (Ok (), self') →
  aligned config_ self'.
Proof.
  intros (Hconfig & Hids & Hps & Hds & Hdom & Hrows)
    (idx & ps & vs & ds & _ & Hps' & _ & Hwrite & Hds' & ->)%update_point_Ok.
  apply assign_Ok in Hps' as (_ & _ & Hps_len & _).
  apply assign_Ok in Hds' as (_ & _ & Hds_len & _).
  apply write_rows_shape in Hwrite as [Hdom' Hshape];
    [|apply NoDup_fst_dict_items|done].
  unfold aligned. cbn. split_and!; try congruence.
  intros name m' Hm'. cbn.
  destruct (Hshape name m' Hm') as (m & Hm & Hle & _).
  specialize (Hrows name m Hm). cbn in Hrows. lia.
Qed.

Lemma add_point_aligned (config_ : CreateCollection)
    (self self' : LocalCollection) (point : PointStruct) :
  aligned config_ self →
  dict_get (ids self) (pt_id point) = None →
  _add_point self point = (Ok (), self') →
  aligned config_ self'.
Proof.
  intros (Hconfig & Hids & Hps & Hds & Hdom & Hrows) Hnew
    (vs & Hnames & Hwrite & ->)%add_point_Ok.
  apply write_rows_shape in Hwrite as [Hdom' Hshape];
    [|apply NoDup_fst_dict_items|intros m; apply grow_rows].
  unfold aligned. cbn. rewrite (dict_set_absent _ _ _ Hnew), !length_app. cbn.
  split_and!; try congruence; try lia.
  intros name m' Hm'. cbn.
  destruct (Hshape name m' Hm') as (m & Hm & _ & Hidx).
  assert (name ∈ (dict_items (named_vectors_of (pt_vector point))).*1) as Hin.
  { apply elem_of_dom_2 in Hm. rewrite <- Hnames in Hm.
    apply elem_of_dom in Hm as [vector Hvector].
    apply list_elem_of_fmap. exists (name, vector). split; [done|].
    by apply elem_of_dict_items. }
  specialize (Hidx Hin). lia.
Qed.

Lemma upsert_point_aligned (config_ : CreateCollection)
    (self self' : LocalCollection) (point : PointStruct) :
  aligned config_ self →
  _upsert_point self point = (Ok (), self') →
  aligned config_ self'.
Proof.
  intros Hself (written & -> & [[_ Hcall]|[Hnew Hcall]])%upsert_point_Ok;
    apply storage_call_aligned.
  - by eapply update_point_aligned.
  - by eapply add_point_aligned.
Qed.

Lemma upsert_list_aligned (config_ : CreateCollection)
    (points : list PointStruct) (self self' : LocalCollection) :
  aligned config_ self →
  upsert_list self points = (Ok (), self') →
  aligned config_ self'.
Proof.
  revert self. induction points as [|point points IH]; intros self Hself; cbn.
  - by intros [= <-].
  - destruct (_upsert_point self point) as [[[]|] self1] eqn:Hpoint; [|done].
    apply IH. by eapply upsert_point_aligned.
Qed.

Lemma upsert_batch_aligned (config_ : CreateCollection)
    (payloads : option (list (option Payload)))
    (named : gmap string (list (list F))) (point_ids : list PointId)
    (idx : nat) (self self' : LocalCollection) :
  aligned config_ self →
  upsert_batch self payloads named idx point_ids = (Ok (), self') →
  aligned config_ self'.
Proof.
  revert idx self.
  induction point_ids as [|point_id point_ids IH]; intros idx self Hself; cbn.
  - by intros [= <-].
  - destruct (_ ≫= _) as [point|]; [|done].
    destruct (_upsert_point self point) as [[[]|] self1] eqn:Hpoint; [|done].
    apply IH. by eapply upsert_point_aligned.
Qed.

Lemma mark_deleted_aligned (config_ : CreateCollection)
    (point_ids : list PointId) (self self' : LocalCollection) :
  aligned config_ self →
  mark_deleted self point_ids = (Ok (), self') →
  aligned config_ self'.
Proof.
  revert self.
  induction point_ids as [|point_id point_ids IH]; intros self Hself; cbn.
  - by intros [= <-].
  - destruct (dict_get _ _) as [idx|]; [|done].
    destruct (assign _ _ _) as [ds|] eqn:Hds; [|done].
    apply IH. apply assign_Ok in Hds as (_ & _ & Hlen & _).
    destruct Hself as (? & ? & ? & ? & ? & ?).
    unfold aligned. cbn. split_and!; try done; congruence.
Qed.

Lemma storage_calls_aligned (config_ : CreateCollection)
    (point_ids : list PointId) (self : LocalCollection) :
  aligned config_ self →
  aligned config_
    (foldl (λ c point_id, storage_call c (delete_ point_id)) self point_ids).
Proof.
  revert self. induction point_ids as [|point_id point_ids IH]; [done|].
  intros self Hself. cbn. by apply IH, storage_call_aligned.
Qed.

Lemma call_aligned (config_ : CreateCollection) (c : Call)
    (self self' : LocalCollection) :
  aligned config_ self →
  call self c = (Ok (), self') →
  aligned config_ self'.
Proof.
  intros Hself. destruct c as [[points|batch]|selector]; cbn.
  - by apply upsert_list_aligned.
  - by apply upsert_batch_aligned.
  - unfold delete, _delete_ids.
    destruct (_selector_to_ids _ _) as [point_ids|]; [|done].
    destruct (mark_deleted _ _) as [[[]|] self1] eqn:Hmark; [|done].
    intros [= <-]. by eapply storage_calls_aligned, mark_deleted_aligned.
Qed.

Lemma init_aligned (config_ : CreateCollection) (location : option string) :
  aligned config_ (__init__ config_ location).
Proof.
  unfold aligned, __init__, configured.
  cbn [config ids payload deleted ids_inv vectors length].
  split_and!; try done.
  - rewrite dom_fmap_L. destruct (cfg_vectors config_); [|done].
    by rewrite dom_singleton_L.
  - intros name m _. cbn. lia.
Qed.

(** C6: after any sequence of upserts and deletes that all succeed on a
    new collection, the payload list, the tombstones and the reverse id
    list have the same length, and the matrix of every configured name
    has at least that many rows. *)
Theorem calls_keep_aligned (config_ : CreateCollection)
    (location : option string) (cs : list Call) (self : LocalCollection) :
  calls (__init__ config_ location) cs = (Ok (), self) →
  length (payload self) = length (deleted self)
  ∧ length (deleted self) = length (ids_inv self)
  ∧ ∀ name, name ∈ configured config_ →
      ∃ m, vectors self !! name = Some m
           ∧ (length (payload self) ≤ length (mrows m))%nat.
Proof.
  intros Hcalls.
  assert (aligned config_ self) as (_ & _ & Hps & Hds & Hdom & Hrows).
  { revert Hcalls. generalize (init_aligned config_ location).
    generalize (__init__ config_ location). clear location.
    induction cs as [|c cs IH]; intros start Hstart; cbn.
    - by intros [= <-].
    - destruct (call start c) as [[[]|] next] eqn:Hcall; [|done].
      apply IH. by eapply call_aligned. }
  split_and!; [done|done|].
  intros name Hname. rewrite <- Hdom in Hname.
  apply elem_of_dom in Hname as [m Hm]. exists m. split; [done|].
  by apply (Hrows name m).
Qed.

End Alignment.

(** ** More on search *)

Section SearchMore.
Context `{Kernels}.

Lemma index_Ok {A} (xs : list A) (i : nat) (x : A) :
  index xs i = Ok x ↔ xs !! i = Some x.
Proof.
  unfold index. destruct (xs !! i); split; intros Heq; by simplify_eq.
Qed.

Lemma make_scored_point_Ok (self : LocalCollection) (with_payload : WithPayload)
    (with_vectors : WithVectors) (point_id : PointId) (score : F) (idx : nat)
    (scored_point : ScoredPoint) :
  make_scored_point self with_payload with_vectors point_id score idx
  = Ok scored_point →
  sp_id scored_point = point_id ∧ sp_score scored_point = score.
Proof.
  unfold make_scored_point.
  destruct (_get_payload _ _ _); cbn; [|done].
  destruct (_get_vectors _ _ _); cbn; [|done].
  by intros [= <-].
Qed.

(** The loop counts results against [limit + offset] alone. *)
Lemma search_loop_sum (self : LocalCollection) (mask : list bool)
    (scores : list F) (required_order : DistanceOrder) (limit offset : Z)
    (with_payload : WithPayload) (with_vectors : WithVectors)
    (score_threshold : option F) (order : list nat) (res : list ScoredPoint) :
  search_loop self mask scores required_order limit offset with_payload
    with_vectors score_threshold order res
  = search_loop self mask scores required_order (limit + offset) 0
      with_payload with_vectors score_threshold order res.
Proof.
  revert res. induction order as [|idx order IH]; intros res; [done|].
  cbn [search_loop]. rewrite Z.add_0_r.
  destruct (_ <=? _)%Z; [done|].
  destruct (index mask idx) as [[]|]; cbn; [|apply IH|done].
  destruct (index scores idx); cbn; [|done].
  destruct (index (ids_inv self) idx); cbn; [|done].
  destruct (crosses _ _ _); [done|].
  destruct (make_scored_point _ _ _ _ _ _); cbn; [|done]. apply IH.
Qed.

(** X1: a page taken at [offset] is the page of [limit + offset] results
    from the start with its first [offset] entries cut off, errors
    included. *)
Theorem search_offset_is_tail (self : LocalCollection)
    (query_vector : QueryVector) (query_filter : option Filter)
    (limit offset : Z) (with_payload : WithPayload)
    (with_vectors : WithVectors) (score_threshold : option F) :
  search self query_vector query_filter limit offset with_payload
    with_vectors score_threshold
  = py_slice_from offset
      <$> search self query_vector query_filter (limit + offset) 0
            with_payload with_vectors score_threshold.
Proof.
  unfold search. destruct (_resolve_vector_name _) as [name vector].
  destruct (vectors self !! name); [|done].
  destruct (get_vector_params _ _); cbn; [|done].
  destruct (calculate_distance _ _ _); cbn; [|done].
  destruct (np_elementwise _ _ _); cbn; [|done].
  rewrite search_loop_sum.
  by destruct (search_loop _ _ _ _ _ _ _ _ _ _ _).
Qed.

(** Where the results of the loop come from: each new result stands for
    an index of [order] that the mask accepts, in the order of the walk,
    and carries the id and the score of that index. *)
Lemma search_loop_provenance (self : LocalCollection) (mask : list bool)
    (scores : list F) (required_order : DistanceOrder) (limit offset : Z)
    (with_payload : WithPayload) (with_vectors : WithVectors)
    (score_threshold : option F) (order : list nat)
    (res out : list ScoredPoint) :
  search_loop self mask scores required_order limit offset with_payload
    with_vectors score_threshold order res = Ok out →
  ∃ idxs hits,
    out = res ++ hits
    ∧ idxs `sublist_of` order
    ∧ Forall2 (λ idx scored_point,
          mask !! idx = Some true
          ∧ scores !! idx = Some (sp_score scored_point)
          ∧ ids_inv self !! idx = Some (sp_id scored_point)
          ∧ crosses required_order score_threshold (sp_score scored_point)
            = false)
        idxs hits.
Proof.
  revert res. induction order as [|idx order IH]; intros res; cbn [search_loop].
  - intros [= <-]. exists [], []. by rewrite app_nil_r.
  - destruct (_ <=? _)%Z.
    { intros [= <-]. exists [], []. rewrite app_nil_r.
      split_and!; [done|apply sublist_nil_l|constructor]. }
    destruct (index mask idx) as [m|] eqn:Hm; cbn; [|done].
    apply index_Ok in Hm. destruct m; cbn.
    + destruct (index scores idx) as [score|] eqn:Hs; cbn; [|done].
      destruct (index (ids_inv self) idx) as [point_id|] eqn:Hi; cbn; [|done].
      apply index_Ok in Hs, Hi.
      destruct (crosses _ _ _) eqn:Hcross.
      { intros [= <-]. exists [], []. rewrite app_nil_r.
        split_and!; [done|apply sublist_nil_l|constructor]. }
      destruct (make_scored_point _ _ _ _ _ _) as [scored_point|] eqn:Hsp;
        cbn; [|done].
      apply make_scored_point_Ok in Hsp as [Hid Hscore].
      intros (idxs & hits & -> & Hsub & Hall)%IH.
      exists (idx :: idxs), (scored_point :: hits).
      split_and!; [by rewrite <- app_assoc|by apply sublist_skip|].
      constructor; [|done]. by rewrite Hid, Hscore.
    + intros (idxs & hits & -> & Hsub & Hall)%IH.
      exists idxs, hits. split_and!; [done|by apply sublist_cons|done].
Qed.

Lemma search_Ok_inv (self : LocalCollection) (query_vector : QueryVector)
    (query_filter : option Filter) (limit offset : Z)
    (with_payload : WithPayload) (with_vectors : WithVectors)
    (score_threshold : option F) (page : list ScoredPoint) :
  search self query_vector query_filter limit offset with_payload
    with_vectors score_threshold = Ok page →
  ∃ named_vectors params scores mask hits idxs,
    vectors self !! (_resolve_vector_name query_vector).1 = Some named_vectors
    ∧ get_vector_params self (_resolve_vector_name query_vector).1 = Ok params
    ∧ calculate_distance (_resolve_vector_name query_vector).2
        (take (length (payload self)) (mrows named_vectors))
        (params_distance params) = Ok scores
    ∧ np_elementwise andb
        (calculate_payload_mask (payload self) query_filter (ids_inv self))
        (negb <$> deleted self) = Ok mask
    ∧ page = py_slice_from offset hits
    ∧ idxs `sublist_of`
        search_order (distance_to_order (params_distance params)) scores
    ∧ Forall2 (λ idx scored_point,
          mask !! idx = Some true
          ∧ scores !! idx = Some (sp_score scored_point)
          ∧ ids_inv self !! idx = Some (sp_id scored_point)
          ∧ crosses (distance_to_order (params_distance params))
              score_threshold (sp_score scored_point) = false)
        idxs hits.
Proof.
  unfold search. destruct (_resolve_vector_name _) as [name vector]. cbn.
  destruct (vectors self !! name) as [named_vectors|] eqn:Hm; [|done].
  destruct (get_vector_params _ _) as [params|] eqn:Hparams; cbn; [|done].
  destruct (calculate_distance _ _ _) as [scores|] eqn:Hscores; cbn; [|done].
  destruct (np_elementwise _ _ _) as [mask|] eqn:Hmask; cbn; [|done].
  destruct (search_loop _ _ _ _ _ _ _ _ _ _ _) as [hits|] eqn:Hloop;
    cbn; [|done].
  intros [= <-].
  apply search_loop_provenance in Hloop as (idxs & hits' & -> & Hsub & Hall).
  by exists named_vectors, params, scores, mask, hits', idxs.
Qed.

Lemma py_slice_from_sublist {A} (n : Z) (xs : list A) :
  py_slice_from n xs `sublist_of` xs.
Proof. unfold py_slice_from. destruct (_ <=? _)%Z; apply sublist_drop. Qed.

(** An entry of the combined mask that is set stands for a point that is
    not deleted, when the two arrays have one length. *)
Lemma combined_mask_live (payload_mask deleted_ mask : list bool) (idx : nat) :
  length payload_mask = length deleted_ →
  np_elementwise andb payload_mask (negb <$> deleted_) = Ok mask →
  mask !! idx = Some true →
  payload_mask !! idx = Some true ∧ deleted_ !! idx = Some false.
Proof.
  intros Hlen. unfold np_elementwise.
  rewrite decide_True by by rewrite length_fmap.
  intros [= <-]. rewrite lookup_zip_with.
  destruct (payload_mask !! idx) as [a|]; cbn; [|done].
  rewrite list_lookup_fmap. destruct (deleted_ !! idx) as [b|]; cbn; [|done].
  by destruct a, b.
Qed.

Lemma dict_get_None {V} (d : list (PointId * V)) (k : PointId) :
  dict_get d k = None ↔ k ∉ d.*1.
Proof.
  induction d as [|[k' v] d IH]; cbn.
  - split; [intros _; apply not_elem_of_nil|done].
  - destruct (decide (k' = k)) as [->|Hne].
    + split; [done|]. intros Hk. exfalso. apply Hk. left.
    + rewrite IH, not_elem_of_cons. split; [done|]. by intros [_ ?].
Qed.

Lemma dict_get_NoDup {V} (d : list (PointId * V)) (k : PointId) (v : V) :
  NoDup d.*1 → dict_get d k = Some v ↔ (k, v) ∈ d.
Proof.
  induction d as [|[k' v'] d IH]; cbn; intros Hnodup.
  - split; [done|]. by intros ?%elem_of_nil.
  - apply NoDup_cons in Hnodup as [Hfresh Hnodup].
    destruct (decide (k' = k)) as [->|Hne].
    + split.
      * intros [= ->]. left.
      * intros [[= ->]|Hin]%elem_of_cons; [done|].
        exfalso. apply Hfresh. apply list_elem_of_fmap. by exists (k, v).
    + rewrite IH by done. rewrite elem_of_cons. split; [by right|].
      intros [[= ? ?]|?]; done.
Qed.

(** In a consistent collection the id table and the reverse list say
    the same. *)
Lemma consistent_lookup (self : LocalCollection) (point_id : PointId)
    (idx : nat) :
  consistent self →
  dict_get (ids self) point_id = Some idx
  ↔ ids_inv self !! idx = Some point_id.
Proof.
  intros (Hfst & Hsnd & Hnodup).
  rewrite dict_get_NoDup by by rewrite Hfst.
  rewrite list_elem_of_lookup. split.
  - intros [i Hi].
    assert ((ids self).*2 !! i = Some idx) as Hidx
      by by rewrite list_lookup_fmap, Hi.
    rewrite Hsnd in Hidx. apply lookup_seq in Hidx as [Heq _].
    cbn in Heq. subst idx. by rewrite <- Hfst, list_lookup_fmap, Hi.
  - intros Hinv. exists idx.
    rewrite <- Hfst, list_lookup_fmap in Hinv.
    destruct (ids self !! idx) as [[k v]|] eqn:Hentry; [|done].
    cbn in Hinv. injection Hinv as ->.
    assert ((ids self).*2 !! idx = Some v) as Hv
      by by rewrite list_lookup_fmap, Hentry.
    rewrite Hsnd in Hv. apply lookup_seq in Hv as [Heq _].
    cbn in Heq. by subst v.
Qed.

(** Every result of [search] stands for an index that is not
    deleted. *)
Lemma search_hits_live (self : LocalCollection)
    (query_vector : QueryVector) (query_filter : option Filter)
    (limit offset : Z) (with_payload : WithPayload)
    (with_vectors : WithVectors) (score_threshold : option F)
    (page : list ScoredPoint) (scored_point : ScoredPoint) :
  length (calculate_payload_mask (payload self) query_filter (ids_inv self))
  = length (deleted self) →
  search self query_vector query_filter limit offset with_payload
    with_vectors score_threshold = Ok page →
  scored_point ∈ page →
  ∃ idx, ids_inv self !! idx = Some (sp_id scored_point)
         ∧ deleted self !! idx = Some false.
Proof.
  intros Hlen
    (m & params & scores & mask & hits & idxs & _ & _ & _ & Hmask & -> & _
     & Hall)%search_Ok_inv Hin.
  eapply elem_of_sublist in Hin; [|apply py_slice_from_sublist].
  apply list_elem_of_lookup in Hin as [i Hi].
  destruct (Forall2_lookup_r _ _ _ _ _ Hall Hi)
    as (idx & _ & Hlive & _ & Hid & _).
  exists idx. split; [done|]. by eapply combined_mask_live.
Qed.

(** In a consistent collection an id stands at one index only. *)
Lemma consistent_index (self : LocalCollection) (point_id : PointId)
    (idx idx' : nat) :
  consistent self →
  dict_get (ids self) point_id = Some idx →
  ids_inv self !! idx' = Some point_id →
  idx' = idx.
Proof.
  intros Hcons Hidx Hinv. apply (consistent_lookup _ _ _ Hcons) in Hidx.
  destruct Hcons as (_ & _ & Hnodup). by eapply NoDup_lookup.
Qed.

(** X2: [search] never returns a point whose tombstone is set: the index
    of every returned id is a live one. *)
Theorem search_excludes_deleted (self : LocalCollection)
    (query_vector : QueryVector) (query_filter : option Filter)
    (limit offset : Z) (with_payload : WithPayload)
    (with_vectors : WithVectors) (score_threshold : option F)
    (page : list ScoredPoint) :
  consistent self →
  length (calculate_payload_mask (payload self) query_filter (ids_inv self))
  = length (deleted self) →
  search self query_vector query_filter limit offset with_payload
    with_vectors score_threshold = Ok page →
  ∀ scored_point idx,
    scored_point ∈ page →
    dict_get (ids self) (sp_id scored_point) = Some idx →
    deleted self !! idx = Some false.
Proof.
  intros Hcons Hlen Hpage scored_point idx Hin Hidx.
  destruct (search_hits_live _ _ _ _ _ _ _ _ _ _ Hlen Hpage Hin)
    as (idx' & Hinv & Hlive).
  by rewrite <- (consistent_index _ _ _ _ Hcons Hidx Hinv).
Qed.

Lemma StronglySorted_sublist {A} (R : relation A) (l1 l2 : list A) :
  l1 `sublist_of` l2 → StronglySorted R l2 → StronglySorted R l1.
Proof.
  induction 1 as [|x l1 l2 Hsub IH|x l1 l2 Hsub IH]; [done|..];
    rewrite !StronglySorted_cons; intros [Hall Hsorted].
  - split; [|by apply IH]. rewrite Forall_forall in Hall.
    apply Forall_forall. intros y Hy. apply Hall.
    by eapply elem_of_sublist.
  - by apply IH.
Qed.

Lemma StronglySorted_Forall2 {A B} (R : relation A) (R' : relation B)
    (P : A → B → Prop) (l : list A) (k : list B) :
  (∀ i j a b, P i a → P j b → R i j → R' a b) →
  Forall2 P l k → StronglySorted R l → StronglySorted R' k.
Proof.
  intros Htransfer. induction 1 as [|i a l k Hia Hall IH]; [constructor|].
  rewrite !StronglySorted_cons. intros [Hhead Hsorted].
  split; [|by apply IH]. apply Forall_forall. intros b Hb.
  apply list_elem_of_lookup in Hb as [n Hn].
  destruct (Forall2_lookup_r _ _ _ _ _ Hall Hn) as (j & Hj & Hjb).
  eapply Htransfer; [done..|]. rewrite Forall_forall in Hhead.
  apply Hhead. by eapply list_elem_of_lookup_2.
Qed.

Lemma StronglySorted_reverse {A} (R : relation A) (l : list A) :
  StronglySorted R l → StronglySorted (flip R) (reverse l).
Proof.
  induction 1 as [|x l Hsorted IH Hall]; [constructor|].
  rewrite reverse_cons. apply StronglySorted_app_2; [|done|].
  - intros y x' Hy ->%list_elem_of_singleton. unfold flip.
    rewrite Forall_forall in Hall. apply Hall. by apply elem_of_reverse.
  - repeat constructor.
Qed.

Lemma score_sorted_strongly (required_order : DistanceOrder)
    (scores : list F) :
  StronglySorted (ascending scores) (argsort scores) →
  StronglySorted
    (match required_order with
     | BIGGER_IS_BETTER => flip (ascending scores)
     | SMALLER_IS_BETTER => ascending scores
     end) (score_sorted required_order scores).
Proof.
  intros Hsorted. destruct required_order; cbn; [|done].
  by apply StronglySorted_reverse.
Qed.

(** X3: when [argsort] returns the indices in ascending order of score,
    no index standing before one of a smaller score, the page that
    [search] returns is sorted: no score is below a later one for a
    bigger-is-better metric, none above a later one otherwise. *)
Theorem search_scores_sorted (self : LocalCollection)
    (query_vector : QueryVector) (query_filter : option Filter)
    (limit offset : Z) (with_payload : WithPayload)
    (with_vectors : WithVectors) (score_threshold : option F)
    (named_vectors : Matrix) (params : VectorParams) (scores : list F)
    (page : list ScoredPoint) :
  vectors self !! (_resolve_vector_name query_vector).1 = Some named_vectors →
  get_vector_params self (_resolve_vector_name query_vector).1 = Ok params →
  calculate_distance (_resolve_vector_name query_vector).2
    (take (length (payload self)) (mrows named_vectors))
    (params_distance params) = Ok scores →
  StronglySorted (ascending scores) (argsort scores) →
  search self query_vector query_filter limit offset with_payload
    with_vectors score_threshold = Ok page →
  match distance_to_order (params_distance params) with
  | BIGGER_IS_BETTER =>
      StronglySorted (λ a b, flt (sp_score a) (sp_score b) = false) page
  | SMALLER_IS_BETTER =>
      StronglySorted (λ a b, flt (sp_score b) (sp_score a) = false) page
  end.
Proof.
  intros Hm Hparams Hscores Hsorted
    (m' & params' & scores' & mask & hits & idxs & Hm' & Hparams' & Hscores'
     & _ & -> & Hsub & Hall)%search_Ok_inv.
  assert (m' = named_vectors) as -> by congruence.
  assert (params' = params) as -> by congruence.
  assert (scores' = scores) as -> by congruence.
  pose proof (score_sorted_strongly
                (distance_to_order (params_distance params)) scores Hsorted)
    as Horder.
  apply (StronglySorted_sublist _ _ _ Hsub) in Horder.
  destruct (distance_to_order (params_distance params));
    (eapply StronglySorted_sublist; [apply py_slice_from_sublist|]);
    (eapply StronglySorted_Forall2; [|exact Hall|exact Horder]);
    intros i j a b (_ & Hi & _) (_ & Hj & _); unfold flip, ascending;
    by rewrite Hi, Hj.
Qed.

Lemma filter_none {A} (P : A → Prop) `{!∀ x, Decision (P x)} (l : list A) :
  Forall (λ x, ¬ P x) l → filter P l = [].
Proof.
  induction 1 as [|x l Hx _ IH]; [done|]. by rewrite filter_cons_False.
Qed.

Lemma take_while_sorted {A} (R : relation A) (p : A → bool) (l : list A) :
  (∀ x y, R x y → p x = false → p y = false) →
  StronglySorted R l →
  take_while p l = filter (λ x, p x = true) l.
Proof.
  intros Hmono. induction 1 as [|x l Hsorted IH Hall]; [done|].
  cbn [take_while]. destruct (p x) eqn:Hx.
  - rewrite filter_cons_True by done. by rewrite IH.
  - rewrite filter_cons_False by (by rewrite Hx). symmetry.
    apply filter_none. eapply Forall_impl; [exact Hall|]. cbn.
    intros y Hxy. by rewrite (Hmono x y Hxy Hx).
Qed.

Lemma within_threshold_monotone (required_order : DistanceOrder)
    (score_threshold : option F) (scores : list F) (i j : nat) :
  (∀ threshold, score_threshold = Some threshold →
     comparable (threshold :: scores)) →
  match required_order with
  | BIGGER_IS_BETTER => flip (ascending scores)
  | SMALLER_IS_BETTER => ascending scores
  end i j →
  within_threshold required_order score_threshold scores i = false →
  within_threshold required_order score_threshold scores j = false.
Proof.
  intros Hco. unfold within_threshold, flip, ascending.
  destruct required_order; cbn beta;
    destruct (scores !! i) as [a|] eqn:Hi;
    destruct (scores !! j) as [b|] eqn:Hj; try done;
    (destruct score_threshold as [t|]; [|done]);
    specialize (Hco t eq_refl);
    (assert (a ∈ t :: scores) as Ha
       by (right; by eapply list_elem_of_lookup_2));
    (assert (b ∈ t :: scores) as Hb
       by (right; by eapply list_elem_of_lookup_2));
    (assert (t ∈ t :: scores) as Ht by left);
    intros Hle Hcross; apply negb_false_iff in Hcross;
    apply negb_false_iff.
  - destruct (Hco a b t Ha Hb Ht Hcross); congruence.
  - destruct (Hco t b a Ht Hb Ha Hcross); congruence.
Qed.

(** X4: when the scores and the threshold are totally ordered by [<],
    which excludes NaN among them, and [argsort] returns the indices in
    ascending order of score, breaking at the first score worse than the
    threshold loses nothing: the page is cut from all the accepted
    indices whose score is within the threshold, in the order of the
    walk. *)
Theorem search_break_loses_nothing (self : LocalCollection)
    (query_vector : QueryVector) (query_filter : option Filter)
    (limit offset : Z) (with_payload : WithPayload)
    (with_vectors : WithVectors) (score_threshold : option F)
    (name : string) (vector : list F) (named_vectors : Matrix)
    (params : VectorParams) (scores : list F) (mask : list bool) :
  (∀ threshold, score_threshold = Some threshold →
     comparable (threshold :: scores)) →
  (0 ≤ limit)%Z →
  (0 ≤ offset)%Z →
  _resolve_vector_name query_vector = (name, vector) →
  vectors self !! name = Some named_vectors →
  get_vector_params self name = Ok params →
  calculate_distance vector
    (take (length (payload self)) (mrows named_vectors))
    (params_distance params) = Ok scores →
  np_elementwise andb
    (calculate_payload_mask (payload self) query_filter (ids_inv self))
    (negb <$> deleted self) = Ok mask →
  length mask = length scores →
  length (ids_inv self) = length scores →
  Forall (λ idx, (idx < length scores)%nat) (argsort scores) →
  StronglySorted (ascending scores) (argsort scores) →
  let required_order := distance_to_order (params_distance params) in
  search self query_vector query_filter limit offset with_payload
    with_vectors score_threshold
  = (hits ← mapM (result_at self scores with_payload with_vectors)
              (take (Z.to_nat (limit + offset))
                 (filter (λ idx, within_threshold required_order
                                   score_threshold scores idx = true)
                    (filter (λ idx, mask !! idx = Some true)
                       (score_sorted required_order scores))));
     Ok (drop (Z.to_nat offset) hits)).
Proof.
  intros Hco Hlimit Hoffset Hname Hvectors Hparams Hscores Hmask Hlen_mask
    Hlen_ids Hrange Hsorted required_order.
  unfold search. rewrite Hname, Hvectors, Hparams. cbn [mbind result_bind].
  rewrite Hscores. cbn [mbind result_bind]. rewrite Hmask.
  cbn [mbind result_bind]. fold required_order.
  rewrite search_loop_walk; [|lia|].
  - cbn [length]. rewrite Nat.sub_0_r.
    rewrite (take_while_ext _ _ _
               (passes_within required_order score_threshold scores)).
    change (search_order required_order scores)
      with (score_sorted required_order scores).
    rewrite (mapM_ext _ (result_at self scores with_payload with_vectors))
      by done.
    rewrite (take_while_sorted
               (match required_order with
                | BIGGER_IS_BETTER => flip (ascending scores)
                | SMALLER_IS_BETTER => ascending scores
                end)).
    + destruct (mapM _ _) as [hits|e]; cbn; [|done].
      by rewrite py_slice_from_nonneg.
    + intros i j. by apply within_threshold_monotone.
    + eapply StronglySorted_sublist; [apply sublist_filter|].
      by apply score_sorted_strongly.
  - assert (Forall (λ idx, (idx < length scores)%nat)
              (search_order required_order scores)) as Horder.
    { unfold search_order. destruct required_order; [|done].
      by apply Forall_reverse. }
    eapply Forall_impl; [exact Horder|]. cbn. intros idx Hidx. lia.
Qed.

End SearchMore.

(** ** What every write keeps *)

Section WellFormed.
Context `{Kernels}.

Lemma set_row_inv (m m' : Matrix) (idx : nat) (vector : list F) :
  set_row m idx vector = Ok m' →
  ∃ row,
    (idx < length (mrows m))%nat
    ∧ broadcast_row (ncols m) vector = Ok row
    ∧ m' = {| ncols := ncols m; mrows := <[idx:=row]> (mrows m) |}.
Proof.
  unfold set_row. destruct (decide _) as [Hlt|]; [|done].
  destruct (broadcast_row _ _) as [row|]; cbn; [|done].
  intros [= <-]. by exists row.
Qed.

Lemma broadcast_row_length (n : nat) (vector row : list F) :
  broadcast_row n vector = Ok row → length row = n.
Proof.
  unfold broadcast_row. destruct (decide _) as [Hlen|].
  - intros [= <-]. by rewrite length_fmap.
  - destruct vector as [|x [|]]; try done. intros [= <-].
    by rewrite length_replicate.
Qed.

Lemma np_resize_regular (m : Matrix) (n : nat) :
  regular_matrix m → regular_matrix (np_resize m n).
Proof.
  unfold regular_matrix, np_resize. cbn [ncols mrows]. intros Hrows.
  assert (Forall (λ row : list F, length row = ncols m)
            (replicate n (replicate (ncols m) fzero))) as Hzeros.
  { apply Forall_replicate. by rewrite length_replicate. }
  destruct (mrows m) as [|r rs] eqn:Hm; [done|].
  destruct (ncols m) eqn:Hcols; [done|].
  apply Forall_fmap, Forall_forall. intros i _. unfold compose.
  rewrite Forall_forall in Hrows.
  destruct ((r :: rs) !! (i mod length (r :: rs))) as [row|] eqn:Hrow;
    cbn [default from_option].
  - apply Hrows. exact (list_elem_of_lookup_2 _ _ _ Hrow).
  - apply Hrows. left.
Qed.

Lemma grow_regular (idx : nat) (m : Matrix) :
  regular_matrix m → regular_matrix (grow idx m).
Proof.
  unfold grow. destruct (decide _); [|done]. apply np_resize_regular.
Qed.

Lemma set_row_regular (m m' : Matrix) (idx : nat) (vector : list F) :
  regular_matrix m → set_row m idx vector = Ok m' → regular_matrix m'.
Proof.
  intros Hm (row & _ & Hrow & ->)%set_row_inv.
  unfold regular_matrix. cbn. apply Forall_insert; [done|].
  by eapply broadcast_row_length.
Qed.

Lemma write_rows_regular (config_ : CreateCollection)
    (prepare : Matrix → Matrix) (idx : nat) (items : list (string * list F))
    (vs vs' : gmap string Matrix) :
  NoDup items.*1 →
  (∀ m, ncols (prepare m) = ncols m) →
  (∀ m, regular_matrix m → regular_matrix (prepare m)) →
  map_Forall (λ name m,
      configured_size config_ name = Some (ncols m) ∧ regular_matrix m) vs →
  write_rows prepare idx items vs = (Ok (), vs') →
  map_Forall (λ name m,
      configured_size config_ name = Some (ncols m) ∧ regular_matrix m) vs'.
Proof.
  intros Hnodup Hcols Hprepare Hvs Hrows.
  destruct (write_rows_Ok _ _ _ _ _ Hnodup Hrows) as [Hitems Hother].
  intros name m' Hm'. cbn.
  destruct (decide (name ∈ items.*1)) as [Hname|Hname].
  - apply list_elem_of_fmap in Hname as ([name' vector] & -> & Hin).
    destruct (Hitems _ _ Hin) as (m & m2 & Hm & Hset & Hm2). cbn in *.
    assert (m2 = m') as -> by congruence.
    destruct (Hvs _ _ Hm) as [Hsize Hreg]. split.
    + apply set_row_Ok in Hset as (_ & -> & _). by rewrite Hcols.
    + eapply set_row_regular; [|exact Hset]. by apply Hprepare.
  - rewrite Hother in Hm' by done. by apply (Hvs name m').
Qed.

Lemma persist_by_id_frame (self self' : LocalCollection) (point_id : PointId)
    (r : result unit) :
  _persist_by_id self point_id = (r, self') →
  vectors self' = vectors self ∧ payload self' = payload self
  ∧ deleted self' = deleted self ∧ ids self' = ids self
  ∧ ids_inv self' = ids_inv self ∧ config self' = config self.
Proof.
  unfold _persist_by_id. destruct (storage self); [|by intros [= _ <-]].
  destruct (stored_point _ _); by intros [= _ <-].
Qed.

Lemma payload_loop_frame (update : option Payload → Payload)
    (point_ids : list PointId) (self self' : LocalCollection)
    (r : result unit) :
  payload_loop update self point_ids = (r, self') →
  vectors self' = vectors self ∧ deleted self' = deleted self
  ∧ ids self' = ids self ∧ ids_inv self' = ids_inv self
  ∧ config self' = config self
  ∧ length (payload self') = length (payload self).
Proof.
  revert self. induction point_ids as [|point_id point_ids IH]; intros self; cbn.
  - by intros [= _ <-].
  - destruct (dict_get _ _) as [idx|]; [|by intros [= _ <-]].
    destruct (index _ _) as [old|]; [|by intros [= _ <-]].
    destruct (_persist_by_id _ _) as [[[]|] self1] eqn:Hpersist.
    + apply persist_by_id_frame in Hpersist
        as (Hv & Hp & Hd & Hi & Hinv & Hc).
      intros (-> & -> & -> & -> & -> & ->)%IH.
      rewrite Hv, Hp, Hd, Hi, Hinv, Hc. cbn. by rewrite length_insert.
    + apply persist_by_id_frame in Hpersist
        as (Hv & Hp & Hd & Hi & Hinv & Hc).
      intros [= _ <-]. rewrite Hv, Hp, Hd, Hi, Hinv, Hc. cbn.
      by rewrite length_insert.
Qed.

Lemma frame_well_formed (config_ : CreateCollection)
    (self self' : LocalCollection) :
  vectors self' = vectors self → deleted self' = deleted self →
  ids self' = ids self → ids_inv self' = ids_inv self →
  config self' = config self →
  length (payload self') = length (payload self) →
  well_formed config_ self → well_formed config_ self'.
Proof.
  intros Hv Hd Hi Hinv Hc Hp
    ((? & ? & ? & ? & ? & ?) & (? & ? & ?) & ?).
  unfold well_formed, aligned, consistent, regular.
  rewrite Hv, Hd, Hi, Hinv, Hc, Hp. by split_and!.
Qed.

Lemma storage_call_well_formed (config_ : CreateCollection)
    (self : LocalCollection) (c : StorageCall) :
  well_formed config_ self → well_formed config_ (storage_call self c).
Proof. by apply frame_well_formed. Qed.

Lemma update_point_well_formed (config_ : CreateCollection)
    (self self' : LocalCollection) (point : PointStruct) :
  well_formed config_ self →
  _update_point self point = (Ok (), self') →
  well_formed config_ self'.
Proof.
  intros (Haligned & Hcons & Hreg) Hcall. split_and!.
  - by eapply update_point_aligned.
  - apply update_point_Ok in Hcall as (? & ? & ? & ? & _ & _ & _ & _ & _ & ->).
    exact Hcons.
  - apply update_point_Ok in Hcall
      as (idx & ps & vs & ds & _ & _ & _ & Hwrite & _ & ->).
    unfold regular. cbn.
    eapply (write_rows_regular _ (λ m, m)); [..|exact Hwrite]; try done.
    apply NoDup_fst_dict_items.
Qed.

Lemma add_point_well_formed (config_ : CreateCollection)
    (self self' : LocalCollection) (point : PointStruct) :
  well_formed config_ self →
  dict_get (ids self) (pt_id point) = None →
  _add_point self point = (Ok (), self') →
  well_formed config_ self'.
Proof.
  intros (Haligned & (Hfst & Hsnd & Hnodup) & Hreg) Hnew Hcall. split_and!.
  - by eapply add_point_aligned.
  - apply add_point_Ok in Hcall as (vs & _ & _ & ->).
    unfold consistent. cbn. rewrite (dict_set_absent _ _ _ Hnew).
    rewrite !fmap_app, length_app, Hfst, Hsnd. cbn. split_and!; [done| |].
    + by rewrite Nat.add_1_r, seq_S.
    + apply NoDup_app. split_and!; [done| |apply NoDup_singleton].
      intros x Hx ->%list_elem_of_singleton.
      apply dict_get_None in Hnew. by rewrite Hfst in Hnew.
  - apply add_point_Ok in Hcall as (vs & _ & Hwrite & ->).
    unfold regular. cbn.
    eapply (write_rows_regular _ (grow (length (ids self))));
      [..|exact Hwrite]; try done.
    + apply NoDup_fst_dict_items.
    + intros m. apply grow_rows.
    + intros m. apply grow_regular.
Qed.

Lemma upsert_point_well_formed (config_ : CreateCollection)
    (self self' : LocalCollection) (point : PointStruct) :
  well_formed config_ self →
  _upsert_point self point = (Ok (), self') →
  well_formed config_ self'.
Proof.
  intros Hself (written & -> & [[_ Hcall]|[Hnew Hcall]])%upsert_point_Ok;
    apply storage_call_well_formed.
  - by eapply update_point_well_formed.
  - by eapply add_point_well_formed.
Qed.

Lemma upsert_list_well_formed (config_ : CreateCollection)
    (points : list PointStruct) (self self' : LocalCollection) :
  well_formed config_ self →
  upsert_list self points = (Ok (), self') →
  well_formed config_ self'.
Proof.
  revert self. induction points as [|point points IH]; intros self Hself; cbn.
  - by intros [= <-].
  - destruct (_upsert_point self point) as [[[]|] self1] eqn:Hpoint; [|done].
    apply IH. by eapply upsert_point_well_formed.
Qed.

Lemma upsert_batch_well_formed (config_ : CreateCollection)
    (payloads : option (list (option Payload)))
    (named : gmap string (list (list F))) (point_ids : list PointId)
    (idx : nat) (self self' : LocalCollection) :
  well_formed config_ self →
  upsert_batch self payloads named idx point_ids = (Ok (), self') →
  well_formed config_ self'.
Proof.
  revert idx self.
  induction point_ids as [|point_id point_ids IH]; intros idx self Hself; cbn.
  - by intros [= <-].
  - destruct (_ ≫= _) as [point|]; [|done].
    destruct (_upsert_point self point) as [[[]|] self1] eqn:Hpoint; [|done].
    apply IH. by eapply upsert_point_well_formed.
Qed.

(** [mark_deleted] touches the tombstones alone, whatever its outcome. *)
Lemma mark_deleted_frame (point_ids : list PointId)
    (self self' : LocalCollection) (r : result unit) :
  mark_deleted self point_ids = (r, self') →
  vectors self' = vectors self ∧ payload self' = payload self
  ∧ ids self' = ids self ∧ ids_inv self' = ids_inv self
  ∧ storage self' = storage self ∧ config self' = config self
  ∧ length (deleted self') = length (deleted self).
Proof.
  revert self. induction point_ids as [|point_id point_ids IH]; intros self; cbn.
  - by intros [= _ <-].
  - destruct (dict_get _ _) as [idx|]; [|by intros [= _ <-]].
    destruct (assign _ _ _) as [ds|] eqn:Hds; [|by intros [= _ <-]].
    apply assign_Ok in Hds as (_ & _ & Hlen & _).
    intros (-> & -> & -> & -> & -> & -> & ->)%IH. by cbn.
Qed.

Lemma storage_calls_frame (point_ids : list PointId) (self : LocalCollection) :
  let self' :=
    foldl (λ c point_id, storage_call c (delete_ point_id)) self point_ids in
  vectors self' = vectors self ∧ payload self' = payload self
  ∧ deleted self' = deleted self ∧ ids self' = ids self
  ∧ ids_inv self' = ids_inv self ∧ config self' = config self
  ∧ storage self' = (λ log, log ++ (delete_ <$> point_ids)) <$> storage self.
Proof.
  revert self. induction point_ids as [|point_id point_ids IH]; intros self; cbn.
  - split_and!; try done. destruct (storage self); cbn; [|done].
    by rewrite app_nil_r.
  - destruct (IH (storage_call self (delete_ point_id)))
      as (-> & -> & -> & -> & -> & -> & ->).
    split_and!; try done. cbn. destruct (storage self); cbn; [|done].
    by rewrite <- app_assoc.
Qed.

Lemma delete_frame (self self' : LocalCollection) (selector : Selector)
    (r : result unit) :
  delete self selector = (r, self') →
  vectors self' = vectors self ∧ payload self' = payload self
  ∧ ids self' = ids self ∧ ids_inv self' = ids_inv self
  ∧ config self' = config self
  ∧ length (deleted self') = length (deleted self).
Proof.
  unfold delete, _delete_ids.
  destruct (_selector_to_ids _ _) as [point_ids|]; [|by intros [= _ <-]].
  destruct (mark_deleted _ _) as [[[]|] self1] eqn:Hmark;
    apply mark_deleted_frame in Hmark as (Hv & Hp & Hi & Hinv & _ & Hc & Hd);
    intros [= _ <-]; [|done].
  destruct (storage_calls_frame point_ids self1)
    as (-> & -> & -> & -> & -> & -> & _). done.
Qed.

Lemma write_well_formed (config_ : CreateCollection) (w : Write)
    (self self' : LocalCollection) :
  well_formed config_ self →
  write self w = (Ok (), self') →
  well_formed config_ self'.
Proof.
  intros Hself. destruct w as [[points|batch]|selector|p selector|p selector
                              |selector]; cbn.
  - by apply upsert_list_well_formed.
  - by apply upsert_batch_well_formed.
  - intros Hdelete. destruct Hself as (Haligned & Hcons & Hreg).
    pose proof (call_aligned config_ (CallDelete selector) _ _ Haligned Hdelete)
      as Haligned'.
    apply delete_frame in Hdelete as (Hv & _ & Hi & Hinv & _ & _).
    unfold well_formed, consistent, regular in *. rewrite Hv, Hi, Hinv.
    exact (conj Haligned' (conj Hcons Hreg)).
  - unfold set_payload. destruct (_selector_to_ids _ _); [|done].
    intros (? & ? & ? & ? & ? & ?)%payload_loop_frame.
    by eapply frame_well_formed.
  - unfold overwrite_payload. destruct (_selector_to_ids _ _); [|done].
    intros (? & ? & ? & ? & ? & ?)%payload_loop_frame.
    by eapply frame_well_formed.
  - unfold clear_payload. destruct (_selector_to_ids _ _); [|done].
    intros (? & ? & ? & ? & ? & ?)%payload_loop_frame.
    by eapply frame_well_formed.
Qed.

Lemma init_well_formed (config_ : CreateCollection) (location : option string) :
  well_formed config_ (__init__ config_ location).
Proof.
  split_and!.
  - apply init_aligned.
  - unfold consistent, __init__. cbn. split_and!; try done. constructor.
  - unfold regular, __init__, configured_size. cbn [vectors].
    intros name m. rewrite lookup_fmap.
    destruct (cfg_vectors config_) as [params|d].
    + destruct (decide (name = DEFAULT_VECTOR_NAME)) as [->|Hne].
      * rewrite lookup_singleton_eq. cbn. intros [= <-]. split; [done|].
        constructor.
      * by rewrite lookup_singleton_ne.
    + destruct (d !! name) as [params|]; cbn; [|done]. intros [= <-].
      split; [done|]. constructor.
Qed.

Lemma writes_well_formed (config_ : CreateCollection) (ws : list Write)
    (self self' : LocalCollection) :
  well_formed config_ self →
  writes self ws = (Ok (), self') →
  well_formed config_ self'.
Proof.
  revert self. induction ws as [|w ws IH]; intros self Hself; cbn.
  - by intros [= <-].
  - destruct (write self w) as [[[]|] next] eqn:Hwrite; [|done].
    apply IH. by eapply write_well_formed.
Qed.

(** X5: after any sequence of upserts, deletes and payload mutations
    that all succeed on a new collection, the id table and the reverse
    id list are inverse to each other: the table holds the ids of the
    reverse list, each with its position as index, no id twice, and an id
    resolves to an index exactly when the reverse list has the id
    there. *)
Theorem writes_keep_ids_consistent (config_ : CreateCollection)
    (location : option string) (ws : list Write) (self : LocalCollection) :
  writes (__init__ config_ location) ws = (Ok (), self) →
  (ids self).*1 = ids_inv self
  ∧ (ids self).*2 = seq 0 (length (ids self))
  ∧ NoDup (ids_inv self)
  ∧ ∀ point_id idx,
      dict_get (ids self) point_id = Some idx
      ↔ ids_inv self !! idx = Some point_id.
Proof.
  intros Hwrites.
  destruct (writes_well_formed config_ ws _ _
              (init_well_formed config_ location) Hwrites)
    as (_ & Hcons & _).
  destruct Hcons as (Hfst & Hsnd & Hnodup). split_and!; try done.
  intros point_id idx. by apply consistent_lookup.
Qed.

Lemma get_vector_params_size (self : LocalCollection) (name : string)
    (params : VectorParams) :
  get_vector_params self name = Ok params →
  configured_size (config self) name = Some (params_size params).
Proof.
  unfold get_vector_params, configured_size.
  destruct (cfg_vectors (config self)) as [p|d].
  - destruct (decide _); [|done]. by intros [= <-].
  - destruct (d !! name); [|done]. by intros [= <-].
Qed.

(** X6: after any such sequence, every matrix has the width its
    configuration gives, and every stored row has that many entries,
    the rows that growth has added included. *)
Theorem writes_keep_rows_regular (config_ : CreateCollection)
    (location : option string) (ws : list Write) (self : LocalCollection)
    (name : string) (m : Matrix) (params : VectorParams) :
  writes (__init__ config_ location) ws = (Ok (), self) →
  vectors self !! name = Some m →
  get_vector_params self name = Ok params →
  ncols m = params_size params
  ∧ Forall (λ row, length row = params_size params) (mrows m).
Proof.
  intros Hwrites Hm Hparams.
  destruct (writes_well_formed config_ ws _ _
              (init_well_formed config_ location) Hwrites)
    as ((Hconfig & _) & _ & Hreg).
  destruct (Hreg name m Hm) as [Hsize Hrows].
  apply get_vector_params_size in Hparams. rewrite Hconfig in Hparams.
  assert (ncols m = params_size params) as Hcols by congruence.
  split; [done|]. unfold regular_matrix in Hrows. by rewrite <- Hcols.
Qed.

End WellFormed.

(** ** More on upsert *)

Section UpsertMore.
Context `{Kernels}.

(** X7: upserting a list of points is upserting its front part and then,
    when that went through, the rest from where the front part left the
    collection; a failure in the front part ends the call there, with
    whatever it has written. *)
Theorem upsert_list_app (self : LocalCollection)
    (front rest : list PointStruct) :
  upsert self (PointsList (front ++ rest))
  = match upsert self (PointsList front) with
    | (Ok _, self') => upsert self' (PointsList rest)
    | (Raise e, self') => (Raise e, self')
    end.
Proof.
  cbn. revert self. induction front as [|point front IH]; intros self; [done|].
  cbn. destruct (_upsert_point self point) as [[[]|e] self1]; [|done].
  apply IH.
Qed.

Lemma upsert_batch_cons (payloads : option (list (option Payload)))
    (named : gmap string (list (list F))) (point_id : PointId)
    (point_ids : list PointId) (idx : nat) (self : LocalCollection) :
  upsert_batch self payloads named idx (point_id :: point_ids)
  = match batch_point payloads named idx point_id with
    | Raise e => (Raise e, self)
    | Ok point =>
        match _upsert_point self point with
        | (Raise e, self') => (Raise e, self')
        | (Ok _, self') =>
            upsert_batch self' payloads named (S idx) point_ids
        end
    end.
Proof. reflexivity. Qed.

Lemma upsert_batch_as_list (payloads : option (list (option Payload)))
    (named : gmap string (list (list F))) (point_ids : list PointId)
    (idx : nat) (points : list PointStruct) (self : LocalCollection) :
  batch_points payloads named idx point_ids = Ok points →
  upsert_batch self payloads named idx point_ids = upsert_list self points.
Proof.
  revert idx points self.
  induction point_ids as [|point_id point_ids IH]; intros idx points self.
  - cbn. by intros [= <-].
  - rewrite upsert_batch_cons. cbn [batch_points].
    destruct (batch_point payloads named idx point_id) as [point|];
      cbn; [|done].
    destruct (batch_points payloads named (S idx) point_ids) as [points'|]
      eqn:Hrest; cbn; [|done].
    intros [= <-]. cbn.
    destruct (_upsert_point self point) as [[[]|e] self1]; [|done].
    by apply IH.
Qed.

(** X8: a batch whose columns have an entry for every id is upserted
    exactly as the list of the points built from its rows. *)
Theorem upsert_batch_is_list (self : LocalCollection) (batch : Batch)
    (points : list PointStruct) :
  batch_points (batch_payloads batch) (batch_named batch) 0 (batch_ids batch)
  = Ok points →
  upsert self (PointsBatch batch) = upsert self (PointsList points).
Proof. intros Hpoints. cbn. by apply upsert_batch_as_list. Qed.

Lemma get_vectors_all (self : LocalCollection) (idx : nat) :
  map_Forall (λ _ m, (idx < length (mrows m))%nat) (vectors self) →
  _get_vectors self idx (WVBool true)
  = Ok (Some (unwrapped (row_at idx <$> vectors self))).
Proof.
  intros Hrows. unfold _get_vectors. rewrite all_rows_Ok by done. cbn.
  by rewrite unwrap_default.
Qed.





Lemma broadcast_row_fits (n : nat) (vector : list F) :
  fits n vector ↔ ∃ row, broadcast_row n vector = Ok row.
Proof.
  unfold fits, broadcast_row. destruct (decide _) as [Hlen|Hlen].
  - split; [by eexists|by left].
  - destruct vector as [|x [|y vector]]; cbn in *.
    + split; [by intros [|]|by intros [? ?]].
    + split; [by eexists|by right].
    + split; [intros [|]; done|by intros [? ?]].
Qed.

Lemma ready_cons (prepare : Matrix → Matrix) (idx : nat)
    (vs : gmap string Matrix) (name : string) (vector : list F) (m' : Matrix)
    (items : list (string * list F)) :
  NoDup ((name, vector) :: items).*1 →
  ready prepare idx vs ((name, vector) :: items) →
  ready prepare idx (<[name:=m']> vs) items
  ∧ ∀ name' vector', (name', vector') ∈ items →
      <[name:=m']> vs !! name' = vs !! name'.
Proof.
  intros [Hfresh _]%NoDup_cons Hready.
  assert (∀ name' vector', (name', vector') ∈ items → name ≠ name') as Hne.
  { intros name' vector' Hin ->. apply Hfresh. apply list_elem_of_fmap.
    by exists (name', vector'). }
  split.
  - intros name' vector' Hin. rewrite lookup_insert_ne by by eapply Hne.
    apply (Hready name' vector'). by right.
  - intros name' vector' Hin. rewrite lookup_insert_ne; [done|by eapply Hne].
Qed.

Lemma write_rows_fits (prepare : Matrix → Matrix) (idx : nat)
    (items : list (string * list F)) (vs : gmap string Matrix) :
  NoDup items.*1 →
  ready prepare idx vs items →
  (∀ name vector m, (name, vector) ∈ items → vs !! name = Some m →
     fits (ncols (prepare m)) vector) →
  ∃ vs', write_rows prepare idx items vs = (Ok (), vs').
Proof.
  revert vs. induction items as [|[name vector] items IH];
    intros vs Hnodup Hready Hfits; cbn [write_rows]; [by eexists|].
  destruct (Hready name vector) as (m & Hm & Hidx); [left|]. rewrite Hm.
  destruct (proj1 (broadcast_row_fits (ncols (prepare m)) vector))
    as [row Hrow]; [eapply Hfits; [left|done]|].
  unfold set_row. rewrite decide_True by done. rewrite Hrow. cbn.
  destruct (ready_cons prepare idx vs name vector
              {| ncols := ncols (prepare m);
                 mrows := <[idx:=row]> (mrows (prepare m)) |} items
              Hnodup Hready) as [Hready' Hsame].
  apply IH; [by apply NoDup_cons in Hnodup as [_ ?]|done|].
  intros name' vector' m1 Hin Hm1. rewrite (Hsame _ _ Hin) in Hm1.
  eapply Hfits; [by right|done].
Qed.

Lemma write_rows_raises (prepare : Matrix → Matrix) (idx : nat)
    (items : list (string * list F)) (vs : gmap string Matrix) :
  NoDup items.*1 →
  ready prepare idx vs items →
  (write_rows prepare idx items vs).1 = Ok ()
  ∨ (write_rows prepare idx items vs).1 = Raise ValueError.
Proof.
  revert vs. induction items as [|[name vector] items IH];
    intros vs Hnodup Hready; cbn [write_rows]; [by left|].
  destruct (Hready name vector) as (m & Hm & Hidx); [left|]. rewrite Hm.
  unfold set_row. rewrite decide_True by done.
  destruct (broadcast_row _ _) as [row|e] eqn:Hrow; cbn.
  - apply IH; [by apply NoDup_cons in Hnodup as [_ ?]|].
    by eapply ready_cons.
  - right. unfold broadcast_row in Hrow. destruct (decide _); [done|].
    by destruct vector as [|? [|]]; simplify_eq.
Qed.

Lemma write_rows_fitted (prepare : Matrix → Matrix) (idx : nat)
    (items : list (string * list F)) (vs vs' : gmap string Matrix) :
  NoDup items.*1 →
  write_rows prepare idx items vs = (Ok (), vs') →
  ∀ name vector, (name, vector) ∈ items →
    ∃ m, vs !! name = Some m ∧ fits (ncols (prepare m)) vector.
Proof.
  intros Hnodup Hwrite name vector Hin.
  destruct (write_rows_Ok _ _ _ _ _ Hnodup Hwrite) as [Hitems _].
  destruct (Hitems name vector Hin) as (m & m' & Hm & Hset & _).
  exists m. split; [done|]. apply broadcast_row_fits.
  apply set_row_inv in Hset as (row & _ & Hrow & _). by exists row.
Qed.

Lemma rows_outcome (prepare : Matrix → Matrix) (idx : nat)
    (named : gmap string (list F)) (vs : gmap string Matrix) :
  (∀ m, ncols (prepare m) = ncols m) →
  ready prepare idx vs (dict_items named) →
  (fitting vs named →
   ∃ vs', write_rows prepare idx (dict_items named) vs = (Ok (), vs'))
  ∧ (¬ fitting vs named →
     ∃ vs', write_rows prepare idx (dict_items named) vs
            = (Raise ValueError, vs')).
Proof.
  intros Hcols Hready.
  pose proof (NoDup_fst_dict_items named) as Hnodup. split.
  - intros Hfit. apply write_rows_fits; [done..|].
    intros name vector m Hin%elem_of_dict_items Hm. rewrite Hcols.
    specialize (Hfit name vector Hin). cbn in Hfit. by rewrite Hm in Hfit.
  - intros Hmisfit.
    destruct (write_rows prepare idx (dict_items named) vs) as [r vs']
      eqn:Hwrite.
    destruct (write_rows_raises prepare idx _ vs Hnodup Hready) as [Hr|Hr];
      rewrite Hwrite in Hr; cbn in Hr; subst r; [|by eexists].
    exfalso. apply Hmisfit. intros name vector Hin. cbn.
    destruct (write_rows_fitted _ _ _ _ _ Hnodup Hwrite name vector)
      as (m & -> & Hfit); [by apply elem_of_dict_items|].
    cbn. by rewrite <- Hcols.
Qed.

Lemma grow_covers (idx : nat) (m : Matrix) :
  (idx < length (mrows (grow idx m)))%nat.
Proof.
  unfold grow. destruct (decide _) as [Hle|]; [|lia].
  unfold np_resize. cbn.
  destruct (mrows m), (ncols m);
    rewrite ?length_replicate, ?length_fmap, ?length_seq; lia.
Qed.

(** X10: on a well-formed collection the upsert of a point has four
    outcomes and no other: [ValueError] for a string id that is no
    UUID, [AssertionError] when the names of the vectors are not the
    stored names, [ValueError] when a vector neither has the width of its
    matrix nor a single entry, and success otherwise. It raises no
    [IndexError] and no [KeyError]. *)
Theorem upsert_point_outcome (config_ : CreateCollection)
    (self : LocalCollection) (point : PointStruct) :
  well_formed config_ self →
  let named := named_vectors_of (pt_vector point) in
  (malformed_id (pt_id point) = true →
   (_upsert_point self point).1 = Raise ValueError)
  ∧ (malformed_id (pt_id point) = false →
     dom named ≠ dom (vectors self) →
     (_upsert_point self point).1 = Raise AssertionError)
  ∧ (malformed_id (pt_id point) = false →
     dom named = dom (vectors self) →
     ¬ fitting (vectors self) named →
     (_upsert_point self point).1 = Raise ValueError)
  ∧ (malformed_id (pt_id point) = false →
     dom named = dom (vectors self) →
     fitting (vectors self) named →
     (_upsert_point self point).1 = Ok ()).
Proof.
  intros ((_ & Hids & Hps & Hds & _ & Hrows) & Hcons & _) named.
  subst named. cbn zeta.
  assert (∀ idx, (idx < length (payload self))%nat → dom (named_vectors_of (pt_vector point)) = dom (vectors self) →
            ready (λ m, m) idx (vectors self) (dict_items (named_vectors_of (pt_vector point)))) as Hready.
  { intros idx Hidx Hdom name vector Hin%elem_of_dict_items.
    assert (is_Some (vectors self !! name)) as [m Hm].
    { apply elem_of_dom. rewrite <- Hdom. by apply elem_of_dom_2 in Hin. }
    exists m. split; [done|]. specialize (Hrows name m Hm). cbn in Hrows. lia. }
  assert (dom (named_vectors_of (pt_vector point)) = dom (vectors self) →
            ready (grow (length (ids self))) (length (ids self)) (vectors self)
              (dict_items (named_vectors_of (pt_vector point)))) as Hready_new.
  { intros Hdom name vector Hin%elem_of_dict_items.
    assert (is_Some (vectors self !! name)) as [m Hm].
    { apply elem_of_dom. rewrite <- Hdom. by apply elem_of_dom_2 in Hin. }
    exists m. split; [done|]. apply grow_covers. }
  assert (∀ outcome,
            malformed_id (pt_id point) = false →
            (∀ idx, dict_get (ids self) (pt_id point) = Some idx →
               (_update_point self point).1 = outcome) →
            (dict_get (ids self) (pt_id point) = None →
               (_add_point self point).1 = outcome) →
            (_upsert_point self point).1 = outcome) as Hcases.
  { intros outcome Hid Hupdate Hadd. unfold _upsert_point. rewrite Hid.
    destruct (decide _) as [[idx Hidx]|Hnew].
    - specialize (Hupdate idx Hidx).
      destruct (_update_point self point) as [[[]|e] written]; cbn in *; done.
    - apply eq_None_not_Some in Hnew. specialize (Hadd Hnew).
      destruct (_add_point self point) as [[[]|e] written]; cbn in *; done. }
  assert (∀ idx, dict_get (ids self) (pt_id point) = Some idx →
            (idx < length (payload self))%nat) as Hrange.
  { intros idx Hidx. apply (consistent_lookup _ _ _ Hcons) in Hidx.
    apply lookup_lt_Some in Hidx. lia. }
  split_and!.
  - intros Hbad. by rewrite upsert_point_malformed_id.
  - intros Hid Hdom. apply Hcases; [done|..].
    + intros idx Hidx. unfold _update_point. rewrite Hidx.
      unfold assign. rewrite decide_True by by apply Hrange. cbn.
      by rewrite decide_False.
    + intros _. unfold _add_point. cbn. by rewrite decide_False.
  - intros Hid Hdom Hmisfit. apply Hcases; [done|..].
    + intros idx Hidx. unfold _update_point. rewrite Hidx.
      unfold assign at 1. rewrite decide_True by by apply Hrange. cbn.
      rewrite decide_True by done.
      destruct (proj2 (rows_outcome (λ m, m) idx (named_vectors_of (pt_vector point))
                         (vectors self)
                         (λ m, eq_refl) (Hready idx (Hrange idx Hidx) Hdom))
                  Hmisfit) as [vs' ->]. done.
    + intros _. unfold _add_point. cbn. rewrite decide_True by done.
      destruct (proj2 (rows_outcome (grow (length (ids self)))
                         (length (ids self)) (named_vectors_of (pt_vector point))
                         (vectors self)
                         (λ m, proj1 (grow_rows _ m)) (Hready_new Hdom))
                  Hmisfit) as [vs' ->]. done.
  - intros Hid Hdom Hfit. apply Hcases; [done|..].
    + intros idx Hidx. unfold _update_point. rewrite Hidx.
      unfold assign at 1. rewrite decide_True by by apply Hrange. cbn.
      rewrite decide_True by done.
      destruct (proj1 (rows_outcome (λ m, m) idx (named_vectors_of (pt_vector point))
                         (vectors self)
                         (λ m, eq_refl) (Hready idx (Hrange idx Hidx) Hdom))
                  Hfit) as [vs' ->].
      cbn. unfold assign. rewrite decide_True; [done|].
      specialize (Hrange idx Hidx). lia.
    + intros _. unfold _add_point. cbn. rewrite decide_True by done.
      destruct (proj1 (rows_outcome (grow (length (ids self)))
                         (length (ids self)) (named_vectors_of (pt_vector point))
                         (vectors self)
                         (λ m, proj1 (grow_rows _ m)) (Hready_new Hdom))
                  Hfit) as [vs' ->]. done.
Qed.

Lemma np_resize_keeps (m : Matrix) (n j : nat) :
  regular_matrix m →
  (j < length (mrows m))%nat → (j < n)%nat →
  mrows (np_resize m n) !! j = mrows m !! j.
Proof.
  unfold regular_matrix, np_resize. cbn [ncols mrows]. intros Hreg Hj Hn.
  destruct (mrows m) as [|r rs] eqn:Hm; [cbn in Hj; lia|].
  destruct (lookup_lt_is_Some_2 (r :: rs) j Hj) as [row Hrow].
  destruct (ncols m) eqn:Hcols.
  - rewrite lookup_replicate_2 by done. rewrite Hrow. f_equal. symmetry.
    apply nil_length_inv. rewrite Forall_forall in Hreg. apply Hreg.
    exact (list_elem_of_lookup_2 _ _ _ Hrow).
  - rewrite list_lookup_fmap, lookup_seq_lt by done. cbn [fmap option_fmap option_map].
    rewrite Nat.mod_small by done. cbn [plus]. by rewrite Hrow.
Qed.

Lemma grow_keeps (idx j : nat) (m : Matrix) :
  regular_matrix m →
  (j < length (mrows m))%nat →
  mrows (grow idx m) !! j = mrows m !! j.
Proof.
  intros Hreg Hj. unfold grow. destruct (decide _); [|done].
  apply np_resize_keeps; [done..|lia].
Qed.

(** X11: a successful upsert of a point leaves every other point as it
    was: payload, tombstone, reverse id and the row of every matrix at
    any other index in use are unchanged, also when the matrices have
    been grown. *)
Theorem upsert_point_frame (config_ : CreateCollection)
    (self self' : LocalCollection) (point : PointStruct) (j : nat) :
  well_formed config_ self →
  _upsert_point self point = (Ok (), self') →
  (j < length (payload self))%nat →
  dict_get (ids self) (pt_id point) ≠ Some j →
  payload self' !! j = payload self !! j
  ∧ deleted self' !! j = deleted self !! j
  ∧ ids_inv self' !! j = ids_inv self !! j
  ∧ ∀ name m, vectors self !! name = Some m →
      ∃ m', vectors self' !! name = Some m'
            ∧ mrows m' !! j = mrows m !! j.
Proof.
  intros ((_ & Hids & Hps & Hds & _ & Hrows) & _ & Hreg) Hcall Hj Hother.
  pose proof (NoDup_fst_dict_items (named_vectors_of (pt_vector point)))
    as Hnodup.
  assert (∀ prepare idx vs',
            idx ≠ j →
            (∀ m, regular_matrix m → (j < length (mrows m))%nat →
                  mrows (prepare m) !! j = mrows m !! j) →
            dom (named_vectors_of (pt_vector point)) = dom (vectors self) →
            write_rows prepare idx
              (dict_items (named_vectors_of (pt_vector point)))
              (vectors self) = (Ok (), vs') →
            ∀ name m, vectors self !! name = Some m →
              ∃ m', vs' !! name = Some m' ∧ mrows m' !! j = mrows m !! j)
    as Hframe.
  { intros prepare idx vs' Hne Hprepare Hdom Hwrite name m Hm.
    destruct (write_rows_Ok _ _ _ _ _ Hnodup Hwrite) as [Hitems _].
    assert (is_Some (named_vectors_of (pt_vector point) !! name))
      as [vector Hvector].
    { apply elem_of_dom. rewrite Hdom. by apply elem_of_dom_2 in Hm. }
    destruct (Hitems name vector) as (m1 & m' & Hm1 & Hset & Hm');
      [by apply elem_of_dict_items|].
    assert (m1 = m) as -> by congruence.
    exists m'. split; [done|].
    apply set_row_inv in Hset as (row & _ & _ & ->). cbn.
    rewrite list_lookup_insert_ne by done.
    destruct (Hreg name m Hm) as [_ Hregular]. apply Hprepare; [done|].
    specialize (Hrows name m Hm). cbn in Hrows. lia. }
  apply upsert_point_Ok in Hcall as (written & -> & [[_ Hcall]|[Hnew Hcall]]).
  - apply update_point_Ok in Hcall
      as (idx & ps & vs & ds & Hidx & Hps' & Hdom & Hwrite & Hds' & ->).
    assert (idx ≠ j) as Hne by congruence.
    apply assign_Ok in Hps' as (_ & -> & _).
    apply assign_Ok in Hds' as (_ & -> & _).
    cbn. rewrite !list_lookup_insert_ne by done. split_and!; try done.
    by eapply (Hframe (λ m, m)).
  - apply add_point_Ok in Hcall as (vs & Hdom & Hwrite & ->). cbn.
    rewrite !lookup_app_l by lia. split_and!; try done.
    eapply (Hframe (grow (length (ids self))) (length (ids self)));
      [lia| |done..].
    intros m Hregular Hlt. by apply grow_keeps.
Qed.

Lemma upsert_point_storage (self self' : LocalCollection)
    (point : PointStruct) (r : result unit) :
  _upsert_point self point = (r, self') →
  storage self'
  = match r with
    | Ok _ => (λ log, log ++ [persist point]) <$> storage self
    | Raise _ => storage self
    end.
Proof.
  unfold _upsert_point. destruct (malformed_id _); [by intros [= <- <-]|].
  destruct (decide _) as [Hknown|Hnew].
  - unfold _update_point.
    destruct (dict_get _ _); [|by intros [= <- <-]].
    destruct (assign _ _ _); [|by intros [= <- <-]]. cbn.
    destruct (decide _); [|by intros [= <- <-]].
    destruct (write_rows _ _ _ _) as [[[]|] written]; [|by intros [= <- <-]].
    destruct (assign _ _ _); by intros [= <- <-].
  - unfold _add_point. cbn.
    destruct (decide _); [|by intros [= <- <-]].
    destruct (write_rows _ _ _ _) as [[[]|] written]; by intros [= <- <-].
Qed.

(** X12: [upsert] of a list goes through the points in order, up to the
    first that raises. With a storage it hands to [persist] exactly the
    points before that one, each once and in their order: the point that
    raised is not persisted, whatever it has changed in memory, and no
    later point is looked at. *)
Theorem upsert_persists (self self' : LocalCollection)
    (points : list PointStruct) (r : result unit) :
  upsert self (PointsList points) = (r, self') →
  ∃ done_ rest mid,
    points = done_ ++ rest
    ∧ upsert self (PointsList done_) = (Ok (), mid)
    ∧ storage self' = (λ log, log ++ (persist <$> done_)) <$> storage self
    ∧ match rest with
      | [] => r = Ok () ∧ self' = mid
      | point :: _ =>
          ∃ e, r = Raise e ∧ _upsert_point mid point = (Raise e, self')
      end.
Proof.
  cbn [upsert]. revert self.
  induction points as [|point points IH]; intros self; cbn [upsert_list].
  - intros [= <- <-]. exists [], [], self. split_and!; try done.
    destruct (storage self); cbn; [|done]. by rewrite app_nil_r.
  - destruct (_upsert_point self point) as [[[]|e] self1] eqn:Hpoint.
    + intros (done_ & rest & mid & -> & Hdone & Hlog & Hrest)%IH.
      exists (point :: done_), rest, mid. split_and!; [done| | |done].
      * cbn [upsert_list]. by rewrite Hpoint.
      * rewrite Hlog, (upsert_point_storage _ _ _ _ Hpoint).
        destruct (storage self); cbn; [|done]. by rewrite <- app_assoc.
    + intros [= <- <-]. exists [], (point :: points), self.
      split_and!; [done|done| |by exists e].
      rewrite (upsert_point_storage _ _ _ _ Hpoint).
      destruct (storage self); cbn; [|done]. by rewrite app_nil_r.
Qed.


End UpsertMore.

(** ** More on delete *)

Section DeleteMore.
Context `{Kernels}.

Lemma mark_deleted_app (front rest : list PointId) (self : LocalCollection) :
  mark_deleted self (front ++ rest)
  = match mark_deleted self front with
    | (Ok _, self') => mark_deleted self' rest
    | (Raise e, self') => (Raise e, self')
    end.
Proof.
  revert self. induction front as [|point_id front IH]; intros self; [done|].
  cbn. destruct (dict_get _ _); [|done]. destruct (assign _ _ _); [|done].
  apply IH.
Qed.

Lemma mark_deleted_keeps (point_ids : list PointId)
    (self self' : LocalCollection) (idx : nat) :
  mark_deleted self point_ids = (Ok (), self') →
  deleted self !! idx = Some true → deleted self' !! idx = Some true.
Proof.
  revert self. induction point_ids as [|point_id point_ids IH]; intros self; cbn.
  - by intros [= <-].
  - destruct (dict_get _ _) as [i|]; [|done].
    destruct (assign _ _ _) as [ds|] eqn:Hds; [|done].
    apply assign_Ok in Hds as (Hi & -> & _).
    intros Hrest Hidx. apply (IH _ Hrest). cbn.
    destruct (decide (i = idx)) as [->|Hne].
    + by apply list_lookup_insert_eq.
    + by rewrite list_lookup_insert_ne.
Qed.

Lemma mark_deleted_Ok (point_ids : list PointId)
    (self self' : LocalCollection) (idx : nat) :
  mark_deleted self point_ids = (Ok (), self') →
  (targeted self point_ids idx → deleted self' !! idx = Some true)
  ∧ (¬ targeted self point_ids idx →
     deleted self' !! idx = deleted self !! idx).
Proof.
  revert self. induction point_ids as [|point_id point_ids IH]; intros self; cbn.
  - intros [= <-]. split; [|done]. by intros (? & ?%elem_of_nil & _).
  - destruct (dict_get _ _) as [i|] eqn:Hi; [|done].
    destruct (assign _ _ _) as [ds|] eqn:Hds; [|done].
    apply assign_Ok in Hds as (Hlt & -> & _). intros Hrest.
    destruct (IH _ Hrest) as [Hhit Hmiss]. split.
    + intros (point_id' & [->|Hin]%elem_of_cons & Hidx).
      * assert (i = idx) as -> by congruence.
        apply (mark_deleted_keeps _ _ _ _ Hrest). cbn.
        by apply list_lookup_insert_eq.
      * apply Hhit. by exists point_id'.
    + intros Hnot. rewrite Hmiss.
      * cbn. apply list_lookup_insert_ne. intros ->. apply Hnot.
        exists point_id. split; [left|done].
      * intros (point_id' & Hin & Hidx). apply Hnot.
        exists point_id'. split; [by right|done].
Qed.

(** X13: a successful delete by id list sets the tombstone of every index
    the ids designate and of no other; payloads, vectors and both id
    tables stay as they are, so that a deleted point keeps its row and
    its payload; the storage is asked to delete each id, in the order of
    the list. *)
Theorem delete_ids_effect (self self' : LocalCollection)
    (point_ids : list PointId) :
  delete self (SelList point_ids) = (Ok (), self') →
  vectors self' = vectors self
  ∧ payload self' = payload self
  ∧ ids self' = ids self
  ∧ ids_inv self' = ids_inv self
  ∧ storage self' = (λ log, log ++ (delete_ <$> point_ids)) <$> storage self
  ∧ ∀ idx,
      (targeted self point_ids idx → deleted self' !! idx = Some true)
      ∧ (¬ targeted self point_ids idx →
         deleted self' !! idx = deleted self !! idx).
Proof.
  unfold delete, _delete_ids. cbn.
  destruct (mark_deleted self point_ids) as [[[]|] self1] eqn:Hmark; [|done].
  intros [= <-].
  destruct (storage_calls_frame point_ids self1)
    as (-> & -> & -> & -> & -> & _ & ->).
  pose proof (mark_deleted_frame _ _ _ _ Hmark)
    as (-> & -> & -> & -> & -> & _ & _).
  split_and!; try done. intros idx. by apply mark_deleted_Ok.
Qed.

(** X14: a delete by id list that meets an id the collection does not
    know raises [KeyError] after it has set the tombstones of the ids
    before it, as a delete of these ids alone would; nothing is undone,
    and the storage is not asked to delete any of them. *)
Theorem delete_unknown_id (self done_ : LocalCollection)
    (known rest : list PointId) (unknown : PointId) :
  delete self (SelList known) = (Ok (), done_) →
  dict_get (ids self) unknown = None →
  ∃ self',
    delete self (SelList (known ++ unknown :: rest)) = (Raise KeyError, self')
    ∧ deleted self' = deleted done_
    ∧ storage self' = storage self
    ∧ vectors self' = vectors self
    ∧ payload self' = payload self
    ∧ ids self' = ids self.
Proof.
  unfold delete, _delete_ids. cbn. rewrite mark_deleted_app.
  destruct (mark_deleted self known) as [[[]|] self1] eqn:Hmark; [|done].
  intros [= <-] Hunknown.
  pose proof (mark_deleted_frame _ _ _ _ Hmark)
    as (Hv & Hp & Hi & Hinv & Hs & _ & _).
  cbn. rewrite Hi, Hunknown. exists self1.
  destruct (storage_calls_frame known self1) as (_ & _ & -> & _).
  by split_and!.
Qed.

Lemma mark_deleted_total (point_ids : list PointId) (self : LocalCollection) :
  (∀ point_id, point_id ∈ point_ids →
     ∃ idx, dict_get (ids self) point_id = Some idx
            ∧ (idx < length (deleted self))%nat) →
  ∃ self', mark_deleted self point_ids = (Ok (), self').
Proof.
  revert self. induction point_ids as [|point_id point_ids IH];
    intros self Hknown; cbn; [by eexists|].
  destruct (Hknown point_id) as (idx & -> & Hidx); [left|].
  unfold assign. rewrite decide_True by done. apply IH. cbn.
  rewrite length_insert. intros point_id' Hin. apply Hknown. by right.
Qed.

Lemma filter_fmap {A B} (f : A → B) (P : B → Prop) `{!∀ y, Decision (P y)}
    (l : list A) :
  filter P (f <$> l) = f <$> filter (λ x, P (f x)) l.
Proof.
  induction l as [|x l IH]; [done|]. cbn [fmap list_fmap].
  rewrite !filter_cons. destruct (decide (P (f x))); cbn; by rewrite IH.
Qed.

Lemma combined_mask_lookup (payload_mask deleted_ : list bool) (idx : nat) :
  length payload_mask = length deleted_ →
  zip_with andb payload_mask (negb <$> deleted_) !! idx = Some true
  ↔ payload_mask !! idx = Some true ∧ deleted_ !! idx = Some false.
Proof.
  intros Hlen. rewrite lookup_zip_with, list_lookup_fmap.
  destruct (payload_mask !! idx) as [[]|]; destruct (deleted_ !! idx) as [[]|];
    cbn; split; try done; by intros [? ?].
Qed.

(** The ids a filter selector stands for, on a well-formed collection
    whose filter evaluator returns one entry per point. *)
Lemma filter_to_ids_Ok (config_ : CreateCollection) (self : LocalCollection)
    (f : Filter) :
  well_formed config_ self →
  length (calculate_payload_mask (payload self) (Some f) (ids_inv self))
  = length (payload self) →
  _filter_to_ids self f
  = Ok (filter (λ item : PointId * nat,
                  calculate_payload_mask (payload self) (Some f) (ids_inv self)
                    !! item.2 = Some true
                  ∧ deleted self !! item.2 = Some false) (ids self)).*1.
Proof.
  intros ((_ & Hids & Hps & Hds & _) & (_ & Hsnd & _) & _) Hmask.
  unfold _filter_to_ids.
  rewrite np_elementwise_same_length by (rewrite length_fmap; congruence).
  cbn [mbind result_bind].
  set (pm := calculate_payload_mask (payload self) (Some f) (ids_inv self)) in *.
  set (mask := zip_with andb pm (negb <$> deleted self)).
  rewrite (mapM_Ok_fmap _
             (λ item : PointId * nat, (item.1, bool_decide (mask !! item.2 = Some true)))).
  - cbn [mbind result_bind]. f_equal. rewrite filter_fmap.
    rewrite <- list_fmap_compose.
    rewrite (list_filter_iff _
               (λ item : PointId * nat,
                  pm !! item.2 = Some true ∧ deleted self !! item.2 = Some false)).
    + done.
    + intros item. cbn. rewrite bool_decide_eq_true.
      apply combined_mask_lookup. congruence.
  - intros [point_id idx] Hin. cbn.
    assert (idx < length mask)%nat as Hidx.
    { unfold mask. rewrite length_zip_with, length_fmap.
      assert (idx ∈ (ids self).*2) as Hidx
        by (apply list_elem_of_fmap; by exists (point_id, idx)).
      rewrite Hsnd in Hidx. apply elem_of_seq in Hidx. lia. }
    destruct (index_lt mask idx Hidx) as (m & Hm & ->). rewrite Hm.
    f_equal. f_equal. destruct m.
    + by rewrite bool_decide_eq_true_2.
    + by rewrite bool_decide_eq_false_2.
Qed.

(** X15: on a well-formed collection a delete by filter always succeeds:
    the ids it selects are the known ids of the points that the filter
    accepts and that are not deleted yet, so that a point deleted before
    is not selected again. *)
Theorem delete_by_filter (config_ : CreateCollection) (self : LocalCollection)
    (f : Filter) :
  well_formed config_ self →
  length (calculate_payload_mask (payload self) (Some f) (ids_inv self))
  = length (payload self) →
  ∃ point_ids self',
    _selector_to_ids self (SelFilter f) = Ok point_ids
    ∧ _selector_to_ids self (SelFilterSelector f) = Ok point_ids
    ∧ delete self (SelFilter f) = (Ok (), self')
    ∧ delete self (SelFilterSelector f) = (Ok (), self')
    ∧ ∀ point_id,
        point_id ∈ point_ids
        ↔ ∃ idx,
            dict_get (ids self) point_id = Some idx
            ∧ calculate_payload_mask (payload self) (Some f) (ids_inv self)
                !! idx = Some true
            ∧ deleted self !! idx = Some false.
Proof.
  intros Hwf Hmask.
  pose proof (filter_to_ids_Ok config_ self f Hwf Hmask) as Hids.
  destruct Hwf as (_ & (Hfst & _ & Hnodup) & _).
  set (point_ids := (filter _ (ids self)).*1) in *.
  assert (∀ point_id,
            point_id ∈ point_ids
            ↔ ∃ idx,
                dict_get (ids self) point_id = Some idx
                ∧ calculate_payload_mask (payload self) (Some f) (ids_inv self)
                    !! idx = Some true
                ∧ deleted self !! idx = Some false) as Hmember.
  { intros point_id. unfold point_ids. rewrite list_elem_of_fmap. split.
    - intros ([point_id' idx] & -> & [[Hpm Hlive] Hin]%list_elem_of_filter).
      exists idx. split_and!; [|done..].
      apply dict_get_NoDup; [by rewrite Hfst|done].
    - intros (idx & Hidx & Hpm & Hlive). exists (point_id, idx).
      split; [done|]. apply list_elem_of_filter. split; [done|].
      apply dict_get_NoDup in Hidx; [done|by rewrite Hfst]. }
  destruct (mark_deleted_total point_ids self) as [self1 Hmark].
  { intros point_id (idx & Hidx & _ & Hlive)%Hmember. exists idx.
    split; [done|]. by eapply lookup_lt_Some. }
  exists point_ids, (foldl (λ c point_id, storage_call c (delete_ point_id))
                       self1 point_ids).
  unfold delete, _delete_ids. cbn. rewrite Hids, Hmark. by split_and!.
Qed.

End DeleteMore.

(** ** Payloads *)

Section PayloadMore.
Context `{Kernels}.

Lemma pick_keys_Ok (d : gmap string Value) (keys : list string) :
  pick_keys (Some d) keys = Ok (filter (λ kv, kv.1 ∈ keys) d).
Proof.
  induction keys as [|key keys IH]; cbn; unfold Payload in *.
  - f_equal. apply map_eq. intros k. rewrite lookup_empty. symmetry.
    apply map_lookup_filter_None. right. intros v _ Hk. cbn in Hk.
    by apply elem_of_nil in Hk.
  - rewrite IH. cbn. f_equal. apply map_eq. intros k.
    assert (filter (λ kv : string * Value, kv.1 ∈ key :: keys) d !! k
            = if decide (k = key) then d !! k
              else filter (λ kv : string * Value, kv.1 ∈ keys) d !! k)
      as ->.
    { rewrite !map_lookup_filter. destruct (d !! k) as [v|]; cbn;
        [|by destruct (decide _)].
      destruct (decide (k = key)) as [->|Hne].
      - by rewrite option_guard_True by left.
      - destruct (decide (k ∈ keys)) as [Hk|Hk].
        + rewrite (option_guard_True (k ∈ keys)) by done.
          by rewrite (option_guard_True (k ∈ key :: keys)) by (by right).
        + rewrite (option_guard_False (k ∈ keys)) by done.
          rewrite (option_guard_False (k ∈ key :: keys)); [done|].
          by intros [?|?]%elem_of_cons. }
    destruct (d !! key) as [v|] eqn:Hkey.
    + destruct (decide (k = key)) as [->|Hne].
      * by rewrite lookup_insert_eq.
      * by rewrite lookup_insert_ne.
    + destruct (decide (k = key)) as [->|Hne]; [|done].
      rewrite Hkey. apply map_lookup_filter_None. left. done.
Qed.

(** X16: on a stored payload, a key list and an include selector give the
    payload restricted to the listed keys, absent keys being left out and
    never reported; an exclude selector gives the rest, and the two parts
    make up the payload. The empty key list is the one exception: it
    omits the payload, where the empty include selector gives the empty
    payload. *)
Theorem payload_projection (self : LocalCollection) (idx : nat)
    (d : gmap string Value) (keys : list string) :
  payload self !! idx = Some (Some d) →
  let listed := filter (λ kv : string * Value, kv.1 ∈ keys) d in
  let others := filter (λ kv : string * Value, ¬ kv.1 ∈ keys) d in
  _get_payload self idx (WPInclude keys) = Ok (Some listed)
  ∧ (keys ≠ [] → _get_payload self idx (WPList keys) = Ok (Some listed))
  ∧ _get_payload self idx (WPList []) = Ok None
  ∧ _get_payload self idx (WPExclude keys) = Ok (Some others)
  ∧ listed ∪ others = d
  ∧ listed ##ₘ others.
Proof.
  intros Hd listed others. unfold _get_payload, index, Payload in *.
  rewrite Hd. cbn [mbind result_bind].
  split_and!.
  - by rewrite pick_keys_Ok.
  - intros Hkeys. destruct keys as [|key keys]; [done|].
    by rewrite pick_keys_Ok.
  - done.
  - done.
  - apply map_filter_union_complement.
  - apply map_disjoint_filter_complement.
Qed.

(** What the loop of a payload mutation has done when it ran to its
    end, for an update that gives the same when applied twice. *)
Lemma payload_loop_Ok (update : option Payload → Payload)
    (point_ids : list PointId) (self self' : LocalCollection) (idx : nat) :
  (∀ old, update (Some (update old)) = update old) →
  payload_loop update self point_ids = (Ok (), self') →
  (targeted self point_ids idx →
   ∃ old, payload self !! idx = Some old
          ∧ payload self' !! idx = Some (Some (update old)))
  ∧ (¬ targeted self point_ids idx →
     payload self' !! idx = payload self !! idx).
Proof.
  intros Hidem. revert self.
  induction point_ids as [|point_id point_ids IH]; intros self; cbn.
  - intros [= <-]. split; [|done]. by intros (? & ?%elem_of_nil & _).
  - destruct (dict_get _ _) as [i|] eqn:Hi; [|done].
    destruct (index _ _) as [old0|] eqn:Hold; [|done].
    apply index_Ok in Hold.
    destruct (_persist_by_id _ _) as [[[]|] self1] eqn:Hpersist; [|done].
    apply persist_by_id_frame in Hpersist as (_ & Hp & _ & Hids & _).
    cbn in Hp, Hids. intros Hrest.
    destruct (IH _ Hrest) as [Hhit Hmiss].
    assert (∀ j, targeted self1 point_ids j ↔ targeted self point_ids j)
      as Hsame by (intros j; unfold targeted; by rewrite Hids).
    rewrite Hp in Hhit, Hmiss. split.
    + intros (point_id' & Hin & Hidx).
      destruct (decide (targeted self point_ids idx)) as [Hlater|Hlater].
      * destruct (Hhit (proj2 (Hsame idx) Hlater)) as (old1 & Hold1 & ->).
        destruct (decide (i = idx)) as [->|Hne].
        -- rewrite list_lookup_insert_eq in Hold1 by by eapply lookup_lt_Some.
           injection Hold1 as <-. exists old0. by rewrite Hidem.
        -- rewrite list_lookup_insert_ne in Hold1 by done. by exists old1.
      * apply elem_of_cons in Hin as [->|Hin].
        -- assert (i = idx) as -> by congruence.
           rewrite Hmiss by by rewrite Hsame. exists old0. split; [done|].
           apply list_lookup_insert_eq. by eapply lookup_lt_Some.
        -- exfalso. apply Hlater. by exists point_id'.
    + intros Hnot. rewrite Hmiss.
      * apply list_lookup_insert_ne. intros ->. apply Hnot.
        exists point_id. split; [left|done].
      * rewrite Hsame. intros (point_id' & Hin & Hidx). apply Hnot.
        exists point_id'. split; [by right|done].
Qed.

Lemma merged_twice (payload_ : gmap string Value)
    (old : option (gmap string Value)) :
  merged payload_ (Some (merged payload_ old)) = merged payload_ old.
Proof.
  unfold merged. cbn. by rewrite (assoc_L (∪)), (idemp_L (∪)).
Qed.

(** X17: a successful [set_payload] leaves on every point that the
    selector designates its old payload, an absent one counting as
    empty, with the given keys added, the given values winning; the
    other points, the vectors, the tombstones and the id tables are
    unchanged. *)
Theorem set_payload_merges (self self' : LocalCollection)
    (payload_ : Payload) (selector : Selector) (point_ids : list PointId) :
  _selector_to_ids self selector = Ok point_ids →
  set_payload self payload_ selector = (Ok (), self') →
  (∀ idx, targeted self point_ids idx →
     ∃ (old : option Payload) (new : gmap string Value),
       payload self !! idx = Some old
       ∧ payload self' !! idx = Some (Some new)
       ∧ ∀ key, new !! key
                = match (payload_ : gmap string Value) !! key with
                  | Some v => Some v
                  | None => default (∅ : gmap string Value) old !! key
                  end)
  ∧ (∀ idx, ¬ targeted self point_ids idx →
       payload self' !! idx = payload self !! idx)
  ∧ vectors self' = vectors self ∧ deleted self' = deleted self
  ∧ ids self' = ids self ∧ ids_inv self' = ids_inv self.
Proof.
  unfold set_payload. intros -> Hloop.
  pose proof (payload_loop_frame _ _ _ _ _ Hloop) as (Hv & Hd & Hi & Hinv & _).
  split_and!; try done.
  - intros idx Htarget.
    destruct (payload_loop_Ok _ _ _ _ idx (merged_twice payload_) Hloop)
      as [Hhit _].
    destruct (Hhit Htarget) as (old & Hold & Hnew).
    exists old, (merged payload_ old). split_and!; [done..|].
    intros key. unfold merged, Payload in *. rewrite lookup_union.
    destruct (payload_ !! key);
      by destruct (default ∅ old !! key).
  - intros idx Htarget.
    by destruct (payload_loop_Ok _ _ _ _ idx (merged_twice payload_) Hloop)
      as [_ Hmiss]; apply Hmiss.
Qed.

(** X18: a successful [overwrite_payload] leaves the given payload on
    every point that the selector designates, whatever it held, and a
    successful [clear_payload] the empty payload, which is read back as
    empty and not as absent; the other points keep theirs. *)
Theorem overwrite_and_clear_replace (self self' : LocalCollection)
    (payload_ : Payload) (selector : Selector) (point_ids : list PointId) :
  _selector_to_ids self selector = Ok point_ids →
  (overwrite_payload self payload_ selector = (Ok (), self') →
   ∀ idx,
     (targeted self point_ids idx →
      _get_payload self' idx (WPBool true) = Ok (Some payload_))
     ∧ (¬ targeted self point_ids idx →
        payload self' !! idx = payload self !! idx))
  ∧ (clear_payload self selector = (Ok (), self') →
     ∀ idx,
       (targeted self point_ids idx →
        _get_payload self' idx (WPBool true) = Ok (Some ∅))
       ∧ (¬ targeted self point_ids idx →
          payload self' !! idx = payload self !! idx)).
Proof.
  unfold overwrite_payload, clear_payload. intros ->.
  split; intros Hloop idx.
  - destruct (payload_loop_Ok (λ _, payload_) _ _ _ idx
                (λ _, eq_refl) Hloop) as [Hhit Hmiss].
    split; [|done]. intros (old & _ & Hnew)%Hhit.
    unfold _get_payload. by rewrite (index_Some _ _ _ Hnew).
  - destruct (payload_loop_Ok (λ _, (∅ : gmap string Value)) _ _ _ idx
                (λ _, eq_refl) Hloop) as [Hhit Hmiss].
    split; [|done]. intros (old & _ & Hnew)%Hhit.
    unfold _get_payload. by rewrite (index_Some _ _ _ Hnew).
Qed.


Lemma stored_point_Ok (config_ : CreateCollection) (self : LocalCollection)
    (point_id : PointId) (idx : nat) :
  well_formed config_ self →
  dict_get (ids self) point_id = Some idx →
  ∃ old, payload self !! idx = Some old
         ∧ stored_point self point_id
           = Ok {| pt_id := point_id; pt_payload := old;
                   pt_vector := unwrapped (row_at idx <$> vectors self) |}.
Proof.
  intros ((_ & Hids & Hps & Hds & _ & Hrows) & Hcons & _) Hidx.
  assert (idx < length (payload self))%nat as Hlt.
  { pose proof (proj1 (consistent_lookup _ _ _ Hcons) Hidx) as Hinv.
    apply lookup_lt_Some in Hinv. lia. }
  destruct (index_lt _ _ Hlt) as (old & Hold & Hindex).
  exists old. split; [done|].
  unfold stored_point, _get_payload. rewrite Hidx.
  cbn [mbind result_bind]. rewrite Hindex. cbn [mbind result_bind]. rewrite get_vectors_all; [done|].
  intros name m Hm. specialize (Hrows name m Hm). cbn in Hrows. lia.
Qed.

Lemma stored_point_ext (self self' : LocalCollection) (point_id : PointId) :
  ids self' = ids self → vectors self' = vectors self →
  (∀ idx, dict_get (ids self) point_id = Some idx →
     payload self' !! idx = payload self !! idx) →
  stored_point self' point_id = stored_point self point_id.
Proof.
  intros Hids Hvs Hp. unfold stored_point. rewrite Hids.
  destruct (dict_get _ _) as [idx|]; [|done]. cbn [mbind result_bind].
  unfold _get_payload, index, _get_vectors. by rewrite Hp, Hvs.
Qed.

(** On a well-formed collection the loop of a payload mutation raises
    for an id that the collection does not know, and for nothing
    else. *)
Lemma payload_loop_outcome (config_ : CreateCollection)
    (update : option Payload → Payload) (point_ids : list PointId)
    (self : LocalCollection) :
  well_formed config_ self →
  ∃ self',
    payload_loop update self point_ids
    = (if decide (Forall (λ point_id,
                            is_Some (dict_get (ids self) point_id)) point_ids)
       then Ok () else Raise KeyError, self').
Proof.
  revert self. induction point_ids as [|point_id point_ids IH];
    intros self Hwf; cbn [payload_loop].
  - exists self. by rewrite decide_True.
  - destruct (dict_get (ids self) point_id) as [idx|] eqn:Hidx.
    + destruct (stored_point_Ok _ _ _ _ Hwf Hidx) as (old & Hold & _).
      rewrite (index_Some _ _ _ Hold).
      set (self1 := set_payloads self _).
      assert (well_formed config_ self1) as Hwf1.
      { eapply frame_well_formed; [..|exact Hwf]; try done.
        cbn. by rewrite length_insert. }
      assert (∃ self2, _persist_by_id self1 point_id = (Ok (), self2)
                       ∧ well_formed config_ self2
                       ∧ ids self2 = ids self) as (self2 & -> & Hwf2 & Hids).
      { unfold _persist_by_id. destruct (storage self1); [|by exists self1].
        destruct (stored_point_Ok config_ self1 point_id idx Hwf1 Hidx)
          as (? & _ & ->).
        eexists. split; [done|]. split; [|done].
        by apply storage_call_well_formed. }
      destruct (IH _ Hwf2) as [self' ->]. exists self'. rewrite Hids.
      f_equal. destruct (decide (Forall _ point_ids)) as [Hall|Hall].
      * rewrite decide_True; [done|]. constructor; [|done]. by rewrite Hidx.
      * rewrite decide_False; [done|]. by intros [_ ?]%Forall_cons.
    + exists self. rewrite decide_False; [done|].
      intros [[? ?] _]%Forall_cons. congruence.
Qed.

(** X19: on a well-formed collection a payload mutation over a list of
    ids succeeds when the collection knows every id, deleted or not, and
    raises [KeyError] otherwise. *)
Theorem payload_writes_outcome (config_ : CreateCollection)
    (self : LocalCollection) (payload_ : Payload) (point_ids : list PointId)
    (payload_write : Selector → result unit * LocalCollection) :
  well_formed config_ self →
  payload_write ∈ [set_payload self payload_;
                   overwrite_payload self payload_;
                   clear_payload self] →
  let known := Forall (λ point_id, is_Some (dict_get (ids self) point_id))
                 point_ids in
  (known → ∃ self', payload_write (SelList point_ids) = (Ok (), self')
                    ∧ payload_write (SelPointIdsList point_ids)
                      = (Ok (), self'))
  ∧ (¬ known →
     ∃ self', payload_write (SelList point_ids) = (Raise KeyError, self')
              ∧ payload_write (SelPointIdsList point_ids)
                = (Raise KeyError, self')).
Proof.
  intros Hwf Hwrite known.
  assert (∃ update, ∀ point_ids',
            payload_write (SelList point_ids')
            = payload_loop update self point_ids'
            ∧ payload_write (SelPointIdsList point_ids')
              = payload_loop update self point_ids') as [update Hloop].
  { repeat (apply elem_of_cons in Hwrite as [->|Hwrite]);
      [by exists (merged payload_)|by exists (λ _, payload_)
      |by exists (λ _, (∅ : gmap string Value))|by apply elem_of_nil in Hwrite]. }
  destruct (Hloop point_ids) as [-> ->].
  destruct (payload_loop_outcome config_ update point_ids self Hwf)
    as [self' ->].
  split; intros Hknown; exists self'.
  - by rewrite decide_True.
  - by rewrite decide_False.
Qed.

(** What the loop of a payload mutation has handed to the storage when
    it ran to its end. *)
Lemma payload_loop_log (update : option Payload → Payload)
    (point_ids : list PointId) (self self' : LocalCollection)
    (log : list StorageCall) :
  (∀ old, update (Some (update old)) = update old) →
  storage self = Some log →
  payload_loop update self point_ids = (Ok (), self') →
  ∃ points, mapM (stored_point self') point_ids = Ok points
            ∧ storage self' = Some (log ++ (persist <$> points)).
Proof.
  intros Hidem. revert self log.
  induction point_ids as [|point_id point_ids IH]; intros self log Hlog;
    cbn [payload_loop].
  - intros [= <-]. exists []. by rewrite app_nil_r.
  - destruct (dict_get _ _) as [idx|] eqn:Hidx; [|done].
    destruct (index _ _) as [old|] eqn:Hold; [|done].
    apply index_Ok in Hold.
    set (self1 := set_payloads self _).
    unfold _persist_by_id.
    assert (storage self1 = Some log) as -> by done.
    destruct (stored_point self1 point_id) as [point|] eqn:Hpoint; [|done].
    set (self2 := storage_call self1 (persist point)).
    intros Hrest.
    destruct (IH self2 (log ++ [persist point])) as (points & Hpoints & Hlog');
      [by unfold self2; cbn; rewrite Hlog|done|].
    exists (point :: points). rewrite mapM_cons.
    pose proof (payload_loop_frame _ _ _ _ _ Hrest) as (Hv & _ & Hi & _).
    assert (stored_point self' point_id = Ok point) as ->.
    { rewrite <- Hpoint. apply stored_point_ext; [done..|].
      intros idx'. cbn. rewrite Hidx. intros [= <-].
      rewrite list_lookup_insert_eq by by eapply lookup_lt_Some.
      destruct (payload_loop_Ok update point_ids self2 self' idx Hidem Hrest)
        as [Hhit Hmiss].
      destruct (decide (targeted self2 point_ids idx)) as [Hin|Hout].
      - destruct (Hhit Hin) as (old' & Hold' & ->). cbn in Hold'.
        rewrite list_lookup_insert_eq in Hold' by by eapply lookup_lt_Some.
        injection Hold' as <-. by rewrite Hidem.
      - rewrite (Hmiss Hout). cbn.
        apply list_lookup_insert_eq. by eapply lookup_lt_Some. }
    cbn [mbind result_bind]. rewrite Hpoints. cbn [mbind result_bind].
    split; [done|]. rewrite Hlog'. cbn. by rewrite <- app_assoc.
Qed.

(** X20: with a storage, a successful payload mutation hands to [persist],
    for each mention of an id and in the order of the ids, the whole
    point as it finally is: its id, its new payload and all its vectors;
    nothing else reaches the storage. *)
Theorem payload_writes_persist (self self' : LocalCollection)
    (payload_ : Payload) (selector : Selector) (point_ids : list PointId)
    (log : list StorageCall)
    (payload_write : Selector → result unit * LocalCollection) :
  payload_write ∈ [set_payload self payload_;
                   overwrite_payload self payload_;
                   clear_payload self] →
  storage self = Some log →
  _selector_to_ids self selector = Ok point_ids →
  payload_write selector = (Ok (), self') →
  ∃ points, mapM (stored_point self') point_ids = Ok points
            ∧ storage self' = Some (log ++ (persist <$> points)).
Proof.
  intros Hwrite Hlog Hids.
  repeat (apply elem_of_cons in Hwrite as [->|Hwrite]);
    [..|by apply elem_of_nil in Hwrite];
    unfold set_payload, overwrite_payload, clear_payload; rewrite Hids;
    apply payload_loop_log; try done.
  apply merged_twice.
Qed.


End PayloadMore.

(** ** More on the read paths *)

Section QueryMore.
Context `{Kernels}.

Lemma make_record_id (self : LocalCollection) (with_payload : WithPayload)
    (with_vectors : WithVectors) (point_id : PointId) (idx : nat)
    (record : Record_) :
  make_record self with_payload with_vectors point_id idx = Ok record →
  rec_id record = point_id.
Proof.
  unfold make_record.
  destruct (_get_payload _ _ _); cbn; [|done].
  destruct (_get_vectors _ _ _); cbn; [|done].
  by intros [= <-].
Qed.

Lemma make_record_total (config_ : CreateCollection) (self : LocalCollection)
    (p v : bool) (point_id : PointId) (idx : nat) :
  well_formed config_ self →
  (idx < length (payload self))%nat →
  ∃ record, make_record self (WPBool p) (WVBool v) point_id idx = Ok record.
Proof.
  intros ((_ & _ & _ & _ & _ & Hrows) & _) Hlt.
  destruct (index_lt _ _ Hlt) as (old & _ & Hindex).
  unfold make_record, _get_payload. rewrite Hindex. cbn [mbind result_bind].
  assert (∃ vs, _get_vectors self idx (WVBool v) = Ok vs) as [vs Hvs].
  { destruct v; [|by eexists]. rewrite get_vectors_all; [by eexists|].
    intros name m Hm. specialize (Hrows name m Hm). cbn in Hrows. lia. }
  destruct p; cbn [mbind result_bind]; rewrite Hvs; by eexists.
Qed.

Lemma retrieve_ids (self : LocalCollection) (point_ids : list PointId)
    (with_payload : WithPayload) (with_vectors : WithVectors)
    (records : list Record_) :
  retrieve self point_ids with_payload with_vectors = Ok records →
  rec_id <$> records
  = filter (λ point_id, is_Some (dict_get (ids self) point_id)) point_ids.
Proof.
  revert records.
  induction point_ids as [|point_id point_ids IH]; intros records;
    cbn [retrieve].
  - by intros [= <-].
  - rewrite filter_cons.
    destruct (dict_get (ids self) point_id) as [idx|] eqn:Hidx.
    + rewrite decide_True by done.
      destruct (make_record _ _ _ _ _) as [record|] eqn:Hrecord; cbn; [|done].
      destruct (retrieve _ _ _ _) as [tail|]; cbn; [|done].
      intros [= <-]. cbn. apply make_record_id in Hrecord as ->.
      f_equal. by apply IH.
    + rewrite decide_False by by intros [? ?]. apply IH.
Qed.

(** X21: [retrieve] returns one record for each mention of a known id, in
    the order of the request, and passes over the ids it does not know;
    on a well-formed collection, with the payload and the vectors asked
    for as a whole or not at all, it never raises. *)
Theorem retrieve_known_in_order (config_ : CreateCollection)
    (self : LocalCollection) (point_ids : list PointId) :
  well_formed config_ self →
  (∀ with_payload with_vectors records,
     retrieve self point_ids with_payload with_vectors = Ok records →
     rec_id <$> records
     = filter (λ point_id, is_Some (dict_get (ids self) point_id)) point_ids)
  ∧ ∀ p v : bool,
      ∃ records, retrieve self point_ids (WPBool p) (WVBool v) = Ok records.
Proof.
  intros Hwf. split; [intros ? ? ?; apply retrieve_ids|].
  intros p v. induction point_ids as [|point_id point_ids [tail IH]];
    cbn [retrieve]; [by eexists|].
  destruct (dict_get (ids self) point_id) as [idx|] eqn:Hidx; [|by exists tail].
  destruct (make_record_total config_ self p v point_id idx Hwf)
    as [record ->].
  - destruct Hwf as ((_ & _ & Hps & Hds & _) & Hcons & _).
    apply (consistent_lookup _ _ _ Hcons) in Hidx.
    apply lookup_lt_Some in Hidx. lia.
  - rewrite IH. by eexists.
Qed.

Lemma filter_ext_in {A} (P Q : A → Prop) `{!∀ x, Decision (P x)}
    `{!∀ x, Decision (Q x)} (l : list A) :
  (∀ x, x ∈ l → P x ↔ Q x) → filter P l = filter Q l.
Proof.
  induction l as [|x l IH]; intros Hext; [done|].
  rewrite !filter_cons.
  rewrite IH by (intros y Hy; apply Hext; by right).
  destruct (decide (P x)) as [HP|HP], (decide (Q x)) as [HQ|HQ];
    try done; exfalso.
  - apply HQ, Hext; [left|done].
  - apply HP, Hext; [left|done].
Qed.

Lemma count_true_seq (mask : list bool) (k : nat) :
  length (filter (λ b, b = true) mask)
  = length (filter (λ i, mask !! (i - k)%nat = Some true)
              (seq k (length mask))).
Proof.
  revert k. induction mask as [|b mask IH]; intros k; [done|].
  cbn [length seq]. rewrite !filter_cons, Nat.sub_diag.
  rewrite (filter_ext_in (λ i, (b :: mask) !! (i - k)%nat = Some true)
             (λ i, mask !! (i - S k)%nat = Some true)).
  - change ((b :: mask) !! 0%nat) with (Some b). destruct b.
    + rewrite !decide_True by done. cbn [length]. by rewrite <- (IH (S k)).
    + rewrite !decide_False by done. by rewrite <- (IH (S k)).
  - intros i [? _]%elem_of_seq.
    replace (i - k)%nat with (S (i - S k)) by lia. done.
Qed.

(** X22: on a well-formed collection [count] with a filter returns the
    number of ids that a delete with the same filter would select: the
    live points the filter accepts, each counted once. *)
Theorem count_is_selection (config_ : CreateCollection)
    (self : LocalCollection) (f : Filter) (point_ids : list PointId) :
  well_formed config_ self →
  length (calculate_payload_mask (payload self) (Some f) (ids_inv self))
  = length (payload self) →
  _filter_to_ids self f = Ok point_ids →
  count self (Some f) = Ok (length point_ids) ∧ NoDup point_ids.
Proof.
  intros Hwf Hmask. rewrite (filter_to_ids_Ok config_) by done.
  intros [= <-].
  destruct Hwf as ((_ & Hids & Hps & Hds & _) & (Hfst & Hsnd & Hnodup) & _).
  split.
  - unfold count.
    rewrite np_elementwise_same_length by (rewrite length_fmap; congruence).
    cbn [mbind result_bind]. f_equal.
    rewrite (count_true_seq _ 0), length_zip_with, length_fmap.
    replace (length _ `min` length (deleted self)) with (length (ids self))
      by lia.
    rewrite <- Hsnd, filter_fmap, !length_fmap. f_equal.
    apply list_filter_iff. intros item. cbn. rewrite Nat.sub_0_r.
    apply combined_mask_lookup. congruence.
  - rewrite <- Hfst in Hnodup. eapply sublist_NoDup; [exact Hnodup|].
    apply fmap_sublist, sublist_filter.
Qed.

Lemma example_vectors_outcome (config_ : CreateCollection)
    (collection : LocalCollection) (vector_name : string) (m : Matrix)
    (point_ids : list PointId) :
  well_formed config_ collection →
  vectors collection !! vector_name = Some m →
  if decide (Forall (λ point_id,
                       is_Some (dict_get (ids collection) point_id)) point_ids)
  then ∃ rows, example_vectors collection vector_name point_ids = Ok rows
  else example_vectors collection vector_name point_ids = Raise ValueError.
Proof.
  intros ((_ & _ & Hps & Hds & _ & Hrows) & Hcons & _) Hm.
  induction point_ids as [|point_id point_ids IH]; cbn [example_vectors].
  - rewrite decide_True by done. by eexists.
  - destruct (dict_get (ids collection) point_id) as [idx|] eqn:Hidx.
    + rewrite Hm. cbn [mbind result_bind].
      assert (idx < length (mrows m))%nat as Hlt.
      { apply (consistent_lookup _ _ _ Hcons) in Hidx.
        apply lookup_lt_Some in Hidx.
        specialize (Hrows vector_name m Hm). cbn in Hrows. lia. }
      destruct (index_lt _ _ Hlt) as (row & _ & ->). cbn [mbind result_bind].
      destruct (decide (Forall _ point_ids)) as [Hall|Hall].
      * rewrite decide_True by (constructor; [by rewrite Hidx|done]).
        destruct IH as [rows ->]. by eexists.
      * rewrite decide_False by by intros [_ ?]%Forall_cons. by rewrite IH.
    + rewrite decide_False; [done|].
      intros [[? ?] _]%Forall_cons. congruence.
Qed.

(** X23: [recommend] raises [ValueError] when the positive list is empty
    and when a positive or negative example is an id that the collection
    of the examples does not know; the caller's filter is then left as
    it was. *)
Theorem recommend_unknown_example (config_ : CreateCollection)
    (self : LocalCollection) (heap : gmap ref Filter)
    (positive : list PointId) (negative : option (list PointId))
    (query_filter : option ref) (limit offset : Z)
    (with_payload : WithPayload) (with_vectors : WithVectors)
    (score_threshold : option F) (using_ : option string)
    (lookup_from_collection : option LocalCollection)
    (lookup_from_vector_name : option string) :
  let collection := default self lookup_from_collection in
  let search_in_vector_name := default DEFAULT_VECTOR_NAME using_ in
  let vector_name := default search_in_vector_name lookup_from_vector_name in
  well_formed config_ collection →
  is_Some (vectors collection !! vector_name) →
  positive = []
  ∨ (∃ point_id, point_id ∈ positive ++ default [] negative
                 ∧ dict_get (ids collection) point_id = None) →
  recommend self heap positive negative query_filter limit offset
    with_payload with_vectors score_threshold using_
    lookup_from_collection lookup_from_vector_name
  = (Raise ValueError, heap).
Proof.
  intros collection search_in_vector_name vector_name Hwf [m Hm] Hbad.
  unfold recommend. fold collection search_in_vector_name vector_name.
  destruct positive as [|first positive]; [done|].
  destruct Hbad as [|(point_id & Hin & Hunknown)]; [done|].
  pose proof (example_vectors_outcome config_ collection vector_name m
                (first :: positive) Hwf Hm) as Hpos.
  pose proof (example_vectors_outcome config_ collection vector_name m
                (default [] negative) Hwf Hm) as Hneg.
  destruct (decide (Forall _ (first :: positive))) as [Hknown|_];
    [|by rewrite Hpos].
  destruct Hpos as [rows ->]. cbn [mbind result_bind].
  destruct (decide (Forall _ (default [] negative))) as [Hknown'|_];
    [|by rewrite Hneg].
  exfalso. apply elem_of_app in Hin as [Hin|Hin].
  - rewrite Forall_forall in Hknown. destruct (Hknown _ Hin). congruence.
  - rewrite Forall_forall in Hknown'. destruct (Hknown' _ Hin). congruence.
Qed.

Lemma py_slice_to_sublist {A} (n : Z) (xs : list A) :
  py_slice_to n xs `sublist_of` xs.
Proof. unfold py_slice_to. destruct (_ <=? _)%Z; apply sublist_take. Qed.

Lemma scroll_loop_provenance (self : LocalCollection) (mask : list bool)
    (limit : Z) (offset : option PointId) (with_payload : WithPayload)
    (with_vectors : WithVectors) (sorted_ids : list (PointId * nat))
    (res out : list Record_) (P : Record_ → Prop) :
  (∀ item record, item ∈ sorted_ids → mask !! item.2 = Some true →
     rec_id record = item.1 → P record) →
  Forall P res →
  scroll_loop self mask limit offset with_payload with_vectors sorted_ids res
  = Ok out →
  Forall P out.
Proof.
  revert res.
  induction sorted_ids as [|[point_id idx] sorted_ids IH]; intros res HP Hres;
    cbn [scroll_loop].
  - by intros [= <-].
  - assert (∀ item record, item ∈ sorted_ids → mask !! item.2 = Some true →
              rec_id record = item.1 → P record) as HP'
      by (intros item record Hin; apply HP; by right).
    destruct (before_offset _ _); [by apply IH|].
    destruct (_ <=? _)%Z; [by intros [= <-]|].
    destruct (index mask idx) as [m|] eqn:Hm; cbn; [|done].
    apply index_Ok in Hm. destruct m; cbn; [|by apply IH].
    destruct (make_record _ _ _ _ _) as [record|] eqn:Hrecord; cbn; [|done].
    apply make_record_id in Hrecord. apply IH; [done|].
    apply Forall_app. split; [done|]. constructor; [|done].
    apply (HP (point_id, idx)); [left|done..].
Qed.

(** The index of every id that [scroll] returns is a live one. *)
Lemma scroll_live (self : LocalCollection) (scroll_filter : option Filter)
    (limit : Z) (offset : option PointId) (with_payload : WithPayload)
    (with_vectors : WithVectors) (records : list Record_)
    (next : option PointId) :
  consistent self →
  length (calculate_payload_mask (payload self) scroll_filter (ids_inv self))
  = length (deleted self) →
  scroll self scroll_filter limit offset with_payload with_vectors
  = Ok (records, next) →
  ∀ record idx,
    record ∈ records →
    dict_get (ids self) (rec_id record) = Some idx →
    deleted self !! idx = Some false.
Proof.
  intros (Hfst & Hsnd & Hnodup) Hlen. unfold scroll.
  destruct (decide _); [by intros [= <- _] ? ? ?%elem_of_nil|].
  destruct (np_elementwise _ _ _) as [mask|] eqn:Hmask; cbn; [|done].
  destruct (scroll_loop _ _ _ _ _ _ _ _) as [res|] eqn:Hloop; cbn; [|done].
  eapply (scroll_loop_provenance _ _ _ _ _ _ _ _ _
            (λ record, ∀ idx, dict_get (ids self) (rec_id record) = Some idx →
                              deleted self !! idx = Some false))
    in Hloop; [| |done].
  - intros Hout record idx Hin. rewrite Forall_forall in Hloop.
    apply Hloop. destruct (_ <? _)%Z.
    + destruct (py_index _ _); cbn in Hout; [|done].
      injection Hout as <- _.
      eapply elem_of_sublist; [exact Hin|apply py_slice_to_sublist].
    + by injection Hout as <- _.
  - intros [point_id idx'] record Hin Hm Hid idx. cbn in *. rewrite Hid.
    rewrite sorted_perm in Hin.
    apply dict_get_NoDup in Hin; [|by rewrite Hfst].
    rewrite Hin. intros [= <-]. by eapply combined_mask_live.
Qed.

Lemma mark_deleted_known (point_ids : list PointId)
    (self self' : LocalCollection) :
  mark_deleted self point_ids = (Ok (), self') →
  Forall (λ point_id, is_Some (dict_get (ids self) point_id)) point_ids.
Proof.
  revert self. induction point_ids as [|point_id point_ids IH]; intros self;
    cbn [mark_deleted]; [done|].
  destruct (dict_get _ _) as [idx|] eqn:Hidx; [|done].
  destruct (assign _ _ _) as [ds|]; [|done].
  intros Hrest%IH. constructor; [by rewrite Hidx|done].
Qed.

(** X24: after a successful delete by id list on a consistent collection,
    neither [search] nor [scroll] returns any of the deleted ids, with
    whatever query, filter, limit and offset. *)
Theorem deleted_points_are_hidden (self self' : LocalCollection)
    (point_ids : list PointId) (query_vector : QueryVector)
    (query_filter : option Filter) (limit offset : Z)
    (scroll_offset : option PointId) (with_payload : WithPayload)
    (with_vectors : WithVectors) (score_threshold : option F) :
  consistent self →
  delete self (SelList point_ids) = (Ok (), self') →
  length (calculate_payload_mask (payload self') query_filter (ids_inv self'))
  = length (deleted self') →
  (∀ page,
     search self' query_vector query_filter limit offset with_payload
       with_vectors score_threshold = Ok page →
     ∀ scored_point, scored_point ∈ page → sp_id scored_point ∉ point_ids)
  ∧ (∀ records next,
       scroll self' query_filter limit scroll_offset with_payload
         with_vectors = Ok (records, next) →
       ∀ record, record ∈ records → rec_id record ∉ point_ids).
Proof.
  intros Hcons Hdelete Hlen.
  assert (ids self' = ids self ∧ ids_inv self' = ids_inv self
          ∧ ∀ point_id, point_id ∈ point_ids →
              ∃ idx, dict_get (ids self') point_id = Some idx
                     ∧ deleted self' !! idx = Some true)
    as (Hids & Hinv & Hgone).
  { revert Hdelete. unfold delete, _delete_ids. cbn.
    destruct (mark_deleted self point_ids) as [[[]|] self1] eqn:Hmark; [|done].
    intros [= <-].
    destruct (storage_calls_frame point_ids self1)
      as (_ & _ & -> & -> & -> & _).
    pose proof (mark_deleted_frame _ _ _ _ Hmark) as (_ & _ & -> & -> & _).
    split_and!; [done..|]. intros point_id Hin.
    pose proof (mark_deleted_known _ _ _ Hmark) as Hknown.
    rewrite Forall_forall in Hknown. destruct (Hknown _ Hin) as [idx Hidx].
    exists idx. split; [done|].
    apply (mark_deleted_Ok _ _ _ idx Hmark). by exists point_id. }
  assert (consistent self') as Hcons'
    by (unfold consistent in *; by rewrite Hids, Hinv).
  split.
  - intros page Hpage scored_point Hin Hmention.
    destruct (Hgone _ Hmention) as (idx & Hidx & Hdead).
    destruct (search_hits_live _ _ _ _ _ _ _ _ _ _ Hlen Hpage Hin)
      as (idx' & Hthere & Hlive).
    rewrite (consistent_index _ _ _ _ Hcons' Hidx Hthere) in Hlive.
    congruence.
  - intros records next Hscroll record Hin Hmention.
    destruct (Hgone _ Hmention) as (idx & Hidx & Hdead).
    pose proof (scroll_live _ _ _ _ _ _ _ _ Hcons' Hlen Hscroll
                  record idx Hin Hidx). congruence.
Qed.

End QueryMore.

(** ** The model at work on the example instance *)

#[local] Existing Instance Example.z_scalars.
#[local] Existing Instance Example.z_kernels.

(** C2 on the code: after [delete([1])] the point is tombstoned and
    [count] no longer sees it, yet [retrieve([1])] still returns its
    record, because [retrieve] never reads [self.deleted]. *)
Theorem retrieve_ignores_tombstones :
  let self := Example.three_points in
  let outcome := delete self (SelList [IntId 1]) in
  dict_get (ids self) (IntId 1) = Some 0%nat
  ∧ outcome.1 = Ok ()
  ∧ deleted outcome.2 !! 0%nat = Some true
  ∧ count outcome.2 None = Ok 2%nat
  ∧ retrieve outcome.2 [IntId 1] (WPBool true) (WVBool false)
    = Ok [{| rec_id := IntId 1; rec_payload := None; rec_vector := None |}]
  ∧ retrieve outcome.2 [IntId 1] (WPBool true) (WVBool false) ≠ Ok [].
Proof. vm_compute. split_and!; done. Qed.

(** C3 on the code: a point whose vector names differ from the configured
    ones is refused by the assertion only after [_update_point] has
    overwritten the payload, and after [_add_point] has entered the id and
    appended payload and tombstone without writing any row; a vector of
    the wrong size is refused by numpy after the same writes. *)
Theorem failed_upsert_leaves_changes :
  let self := Example.three_points in
  let wrong_names (n : Z) : PointStruct :=
    {| pt_id := IntId n; pt_payload := Some {[ "k" := 7%Z ]};
       pt_vector := VDict {[ "image" := [1; 0]%Z ]} |} in
  let wrong_size : PointStruct :=
    {| pt_id := IntId 1; pt_payload := Some {[ "k" := 7%Z ]};
       pt_vector := VList [1; 2; 3]%Z |} in
  let updated := _upsert_point self (wrong_names 1%Z) in
  let added := _upsert_point self (wrong_names 9%Z) in
  let resized := _upsert_point self wrong_size in
  updated.1 = Raise AssertionError
  ∧ payload self !! 0%nat = Some None
  ∧ payload updated.2 !! 0%nat = Some (Some {[ "k" := 7%Z ]})
  ∧ added.1 = Raise AssertionError
  ∧ dict_get (ids self) (IntId 9) = None
  ∧ dict_get (ids added.2) (IntId 9) = Some 3%nat
  ∧ length (payload added.2) = 4%nat
  ∧ length (deleted added.2) = 4%nat
  ∧ vectors added.2 = vectors self
  ∧ (row_at 3%nat <$> vectors added.2) !! DEFAULT_VECTOR_NAME = Some []
  ∧ resized.1 = Raise ValueError
  ∧ payload resized.2 !! 0%nat = Some (Some {[ "k" := 7%Z ]}).
Proof. vm_compute. split_and!; done. Qed.

(** C9 on the code: a point stored without payload is read back with the
    payload [None] by [retrieve], [search] and [scroll], and a projection
    by keys raises [TypeError] on it. *)
Theorem null_payload_read_as_null :
  let self := Example.three_points in
  let bare (n : Z) : Record_ :=
    {| rec_id := IntId n; rec_payload := None; rec_vector := None |} in
  payload self !! 0%nat = Some None
  ∧ retrieve self [IntId 1] (WPBool true) (WVBool false) = Ok [bare 1%Z]
  ∧ search self (QList [10; 0]%Z) None 1 0 (WPBool true) (WVBool false) None
    = Ok [{| sp_id := IntId 1; sp_score := 100%Z; sp_version := 0;
             sp_payload := None; sp_vector := None |}]
  ∧ scroll self None 1 None (WPBool true) (WVBool false)
    = Ok ([bare 1%Z], Some (IntId 2))
  ∧ retrieve self [IntId 1] (WPList ["k"]) (WVBool false) = Raise TypeError
  ∧ retrieve self [IntId 1] (WPExclude ["k"]) (WVBool false) = Raise TypeError.
Proof. vm_compute. split_and!; done. Qed.

(** C8 as stated fails: asking for the default name by list gives the
    bare array, not a dict with one entry. *)
Lemma list_projection_unwraps :
  _get_vectors Example.named_point 0 (WVList [DEFAULT_VECTOR_NAME])
  = Ok (Some (VList [0; 1]%Z))
  ∧ _get_vectors Example.named_point 0 (WVList [DEFAULT_VECTOR_NAME])
    ≠ Ok (Some (VDict {[ DEFAULT_VECTOR_NAME := [0; 1]%Z ]})).
Proof. vm_compute. split; done. Qed.

(** ** The theorems at concrete calls *)

Lemma search_walk_witness :
  let self := Example.three_points in
  let scores := Example.query_scores in
  let mask := [true; true; true] in
  let required_order :=
    distance_to_order (params_distance Example.dot_params) in
  ((0 ≤ 2)%Z
   ∧ (0 ≤ 1)%Z
   ∧ _resolve_vector_name Example.query = (DEFAULT_VECTOR_NAME, [10; 0]%Z)
   ∧ vectors self !! DEFAULT_VECTOR_NAME = Some Example.three_rows
   ∧ get_vector_params self DEFAULT_VECTOR_NAME = Ok Example.dot_params
   ∧ calculate_distance [10; 0]%Z
       (take (length (payload self)) (mrows Example.three_rows))
       (params_distance Example.dot_params) = Ok scores
   ∧ np_elementwise andb
       (calculate_payload_mask (payload self) None (ids_inv self))
       (negb <$> deleted self) = Ok mask
   ∧ length mask = length scores
   ∧ length (ids_inv self) = length scores
   ∧ Forall (λ idx, (idx < length scores)%nat) (argsort scores))
  ∧ score_sorted required_order scores = [0; 1; 2]%nat
  ∧ take_while (within_threshold required_order (Some 50%Z) scores)
      (filter (λ idx, mask !! idx = Some true)
         (score_sorted required_order scores)) = [0; 1]%nat
  ∧ search self Example.query None 2 1 (WPBool true) (WVBool false)
      (Some 50%Z)
    = (hits ← mapM (result_at self scores (WPBool true) (WVBool false))
                (take (Z.to_nat (2 + 1))
                   (take_while
                      (within_threshold required_order (Some 50%Z) scores)
                      (filter (λ idx, mask !! idx = Some true)
                         (score_sorted required_order scores))));
       Ok (drop (Z.to_nat 1) hits)).
Proof.
  cbv zeta.
  assert (Forall (λ idx, (idx < length Example.query_scores)%nat)
            (argsort Example.query_scores)) as Hrange.
  { vm_compute. repeat constructor. }
  split; [|split; [|split]].
  - split_and!; try exact Hrange; try lia; vm_compute; reflexivity.
  - by vm_compute.
  - by vm_compute.
  - refine (proj1 (@search_walk Example.z_scalars Example.z_kernels
             Example.three_points Example.query None 2 1 (WPBool true)
             (WVBool false) (Some 50%Z) DEFAULT_VECTOR_NAME [10; 0]%Z
             Example.three_rows Example.dot_params Example.query_scores
             [true; true; true] _ _ _ _ _ _ _ _ _ Hrange));
      try lia; vm_compute; reflexivity.
Defined.

Lemma scroll_pages_witness :
  let self := Example.three_points in
  let mask := [true; true; true] in
  let sorted_ids :=
    sorted key_below (λ x : PointId * nat, x.1) (ids self) in
  (ids self ≠ []
   ∧ (0 ≤ 2)%Z
   ∧ np_elementwise andb
       (calculate_payload_mask (payload self) None (ids_inv self))
       (negb <$> deleted self) = Ok mask
   ∧ Forall (λ item : PointId * nat, (item.2 < length mask)%nat) (ids self))
  ∧ filter (visited mask (Some (IntId 2))) sorted_ids
    = [(IntId 2, 1%nat); (IntId 3, 2%nat)]
  ∧ scroll self None 2 (Some (IntId 2)) (WPBool true) (WVBool false)
    = (records ← mapM (record_of self (WPBool true) (WVBool false))
                   (take (S (Z.to_nat 2))
                      (filter (visited mask (Some (IntId 2))) sorted_ids));
       Ok (match records !! Z.to_nat 2 with
           | Some next => (take (Z.to_nat 2) records, Some (rec_id next))
           | None => (records, None)
           end)).
Proof.
  cbv zeta.
  assert (Forall (λ item : PointId * nat, (item.2 < 3)%nat)
            (ids Example.three_points)) as Hrange.
  { vm_compute. repeat constructor. }
  assert (ids Example.three_points ≠ []) as Hne by by vm_compute.
  assert (np_elementwise andb
            (calculate_payload_mask (payload Example.three_points) None
               (ids_inv Example.three_points))
            (negb <$> deleted Example.three_points)
          = Ok [true; true; true]) as Hmask by by vm_compute.
  destruct (@scroll_pages Example.z_scalars Example.z_kernels
              Example.three_points None 2 (Some (IntId 2))
              (WPBool true) (WVBool false))
    as (_ & _ & _ & _ & _ & _ & Hscroll).
  split; [|split].
  - split_and!; [exact Hne|lia|exact Hmask|exact Hrange].
  - by vm_compute.
  - refine (proj1 (Hscroll Hne _ _ Hmask Hrange)). lia.
Defined.

Lemma get_vectors_projection_witness :
  let self := Example.named_point in
  let all := row_at 0 <$> vectors self in
  let sub := filter (λ kv : string * list F, kv.1 ∈ [DEFAULT_VECTOR_NAME]) all in
  map_Forall (λ _ m, (0 < length (mrows m))%nat) (vectors self)
  ∧ [DEFAULT_VECTOR_NAME] ≠ []
  ∧ (∀ n, n ∈ [DEFAULT_VECTOR_NAME] → n ∈ dom (vectors self))
  ∧ _get_vectors self 0 (WVList [DEFAULT_VECTOR_NAME])
    = Ok (Some (if decide (dom sub = {[ DEFAULT_VECTOR_NAME ]})
                then VList (default [] (sub !! DEFAULT_VECTOR_NAME))
                else VDict sub)).
Proof.
  cbv zeta.
  assert (map_Forall (λ _ m, (0 < length (mrows m))%nat)
            (vectors Example.named_point)) as Hrows.
  { refine (bool_decide_unpack _ _). by vm_compute. }
  assert (∀ n : string, n ∈ [DEFAULT_VECTOR_NAME] → n ∈ dom (vectors Example.named_point))
    as Hnames.
  { intros n ->%list_elem_of_singleton. refine (bool_decide_unpack _ _).
    by vm_compute. }
  split_and!; [exact Hrows|done|exact Hnames|].
  by apply (@get_vectors_projection Example.z_scalars Example.named_point 0
              Hrows).
Defined.


Lemma recommend_mutates_filter_witness :
  let page := match Example.recommended.1 with Ok p => p | Raise _ => [] end in
  let heap' := Example.recommended.2 in
  Example.caller_heap !! 0%nat = Some Example.empty_filter
  ∧ recommend Example.three_points Example.caller_heap [IntId 1]
      (Some [IntId 3]) (Some 0%nat) 10 0 (WPBool true) (WVBool false)
      None None None None = (Ok page, heap')
  ∧ heap' !! 0%nat
    = Some {| should := should Example.empty_filter;
              must := must Example.empty_filter;
              must_not :=
                Some (default [] (must_not Example.empty_filter)
                      ++ [HasIdCondition
                            ([IntId 1] ++ default [] (Some [IntId 3]))]) |}.
Proof.
  cbv zeta.
  assert (Example.caller_heap !! 0%nat = Some Example.empty_filter) as Hf
    by by vm_compute.
  assert (recommend Example.three_points Example.caller_heap [IntId 1]
            (Some [IntId 3]) (Some 0%nat) 10 0 (WPBool true) (WVBool false)
            None None None None
          = (Ok match Example.recommended.1 with Ok p => p | Raise _ => [] end,
             Example.recommended.2)) as Hcall by by vm_compute.
  split_and!; [exact Hf|exact Hcall|].
  exact (proj1 (@recommend_mutates_filter Example.z_scalars Example.z_kernels
                  _ _ _ _ _ _ _ _ _ _ _ _ _ _ _ _ Hf Hcall)).
Defined.

Lemma calls_keep_aligned_witness :
  let self := Example.after_history in
  calls (__init__ Example.dot_config None) Example.history = (Ok (), self)
  ∧ DEFAULT_VECTOR_NAME ∈ configured Example.dot_config
  ∧ length (payload self) = length (deleted self)
  ∧ length (deleted self) = length (ids_inv self)
  ∧ ∃ m, vectors self !! DEFAULT_VECTOR_NAME = Some m
         ∧ (length (payload self) ≤ length (mrows m))%nat.
Proof.
  cbv zeta.
  assert (calls (__init__ Example.dot_config None) Example.history
          = (Ok (), Example.after_history)) as Hcalls by by vm_compute.
  assert (DEFAULT_VECTOR_NAME ∈ configured Example.dot_config) as Hname
    by (refine (bool_decide_unpack _ _); by vm_compute).
  destruct (@calls_keep_aligned Example.z_scalars Example.z_kernels _ _ _ _
              Hcalls) as (Hps & Hds & Hrows).
  split_and!; [exact Hcalls|exact Hname|exact Hps|exact Hds|].
  exact (Hrows DEFAULT_VECTOR_NAME Hname).
Defined.


(** ** The further properties on the example instance *)

Lemma search_excludes_deleted_witness :
  let self := Example.after_delete in
  let page := match search self Example.query None 10 0 (WPBool true)
                      (WVBool false) None with
              | Ok page => page
              | Raise _ => []
              end in
  consistent self
  ∧ length (calculate_payload_mask (payload self) None (ids_inv self))
    = length (deleted self)
  ∧ search self Example.query None 10 0 (WPBool true) (WVBool false) None
    = Ok page
  ∧ length page = 2%nat
  ∧ ∀ scored_point idx,
      scored_point ∈ page →
      dict_get (ids self) (sp_id scored_point) = Some idx →
      deleted self !! idx = Some false.
Proof.
  cbv zeta.
  assert (consistent Example.after_delete) as Hcons
    by (unfold consistent; split_and!; by_computation).
  assert (length (calculate_payload_mask (payload Example.after_delete) None
                    (ids_inv Example.after_delete))
          = length (deleted Example.after_delete)) as Hlen by by vm_compute.
  split_and!; [exact Hcons|exact Hlen|by vm_compute|by vm_compute|].
  apply (@search_excludes_deleted Example.z_scalars Example.z_kernels
           Example.after_delete Example.query None 10 0 (WPBool true)
           (WVBool false) None _ Hcons Hlen).
  by vm_compute.
Defined.

Lemma z_ltb_comparable (values : list Z) : comparable values.
Proof.
  intros a b c _ _ _ Hac. cbn in *. apply Z.ltb_lt in Hac.
  destruct (Z.ltb_spec a b); [by left|right]. apply Z.ltb_lt. lia.
Qed.

Lemma search_scores_sorted_witness :
  let self := Example.three_points in
  let scores := Example.query_scores in
  let page := match search self Example.query None 2 1 (WPBool true)
                      (WVBool false) None with
              | Ok page => page
              | Raise _ => []
              end in
  StronglySorted (ascending scores) (argsort scores)
  ∧ search self Example.query None 2 1 (WPBool true) (WVBool false) None
    = Ok page
  ∧ sp_score <$> page = [90; 0]%Z
  ∧ StronglySorted (λ a b, flt (sp_score a) (sp_score b) = false) page.
Proof.
  cbv zeta.
  assert (StronglySorted (ascending Example.query_scores)
            (argsort Example.query_scores)) as Hsorted.
  { vm_compute. repeat constructor. }
  assert (search Example.three_points Example.query None 2 1 (WPBool true)
            (WVBool false) None
          = Ok match search Example.three_points Example.query None 2 1
                       (WPBool true) (WVBool false) None with
               | Ok page => page
               | Raise _ => []
               end) as Hpage by by vm_compute.
  split_and!; [exact Hsorted|exact Hpage|by vm_compute|].
  apply (@search_scores_sorted Example.z_scalars Example.z_kernels
           Example.three_points Example.query None 2 1 (WPBool true)
           (WVBool false) None Example.three_rows Example.dot_params
           Example.query_scores _);
    [by vm_compute|by vm_compute|by vm_compute|exact Hsorted|exact Hpage].
Defined.

Lemma search_break_loses_nothing_witness :
  let self := Example.three_points in
  let scores := Example.query_scores in
  let mask := [true; true; true] in
  let required_order :=
    distance_to_order (params_distance Example.dot_params) in
  comparable (50%Z :: scores)
  ∧ StronglySorted (ascending scores) (argsort scores)
  ∧ np_elementwise andb
      (calculate_payload_mask (payload self) None (ids_inv self))
      (negb <$> deleted self) = Ok mask
  ∧ search self Example.query None 2 1 (WPBool true) (WVBool false)
      (Some 50%Z)
    = (hits ← mapM (result_at self scores (WPBool true) (WVBool false))
                (take (Z.to_nat (2 + 1))
                   (filter (λ idx, within_threshold required_order
                                     (Some 50%Z) scores idx = true)
                      (filter (λ idx, mask !! idx = Some true)
                         (score_sorted required_order scores))));
       Ok (drop (Z.to_nat 1) hits)).
Proof.
  cbv zeta.
  assert (StronglySorted (ascending Example.query_scores)
            (argsort Example.query_scores)) as Hsorted.
  { vm_compute. repeat constructor. }
  assert (Forall (λ idx, (idx < length Example.query_scores)%nat)
            (argsort Example.query_scores)) as Hrange.
  { vm_compute. repeat constructor. }
  assert (∀ threshold : Z,
            Some 50%Z = Some threshold →
            comparable (threshold :: Example.query_scores)) as Hordered
    by (intros threshold _; apply z_ltb_comparable).
  split_and!; [apply z_ltb_comparable|exact Hsorted|by vm_compute|].
  apply (@search_break_loses_nothing Example.z_scalars Example.z_kernels
           Example.three_points Example.query None 2 1 (WPBool true)
           (WVBool false) (Some 50%Z) DEFAULT_VECTOR_NAME [10; 0]%Z
           Example.three_rows Example.dot_params Example.query_scores
           [true; true; true] Hordered);
    try exact Hrange; try exact Hsorted; try lia; vm_compute; reflexivity.
Defined.

Lemma writes_keep_ids_consistent_witness :
  let self := Example.after_journal in
  writes (__init__ Example.dot_config None) Example.journal = (Ok (), self)
  ∧ ids_inv self = [IntId 1; IntId 2; IntId 3; IntId 4]
  ∧ (ids self).*1 = ids_inv self
  ∧ (ids self).*2 = seq 0 (length (ids self))
  ∧ NoDup (ids_inv self)
  ∧ ∀ point_id idx,
      dict_get (ids self) point_id = Some idx
      ↔ ids_inv self !! idx = Some point_id.
Proof.
  cbv zeta.
  assert (writes (__init__ Example.dot_config None) Example.journal
          = (Ok (), Example.after_journal)) as Hwrites by by vm_compute.
  split_and!; [exact Hwrites|by vm_compute|..];
    apply (@writes_keep_ids_consistent Example.z_scalars Example.z_kernels
             _ _ _ _ Hwrites).
Defined.

Lemma writes_keep_rows_regular_witness :
  let self := Example.after_journal in
  let m := default (np_zeros 0) (vectors self !! DEFAULT_VECTOR_NAME) in
  writes (__init__ Example.dot_config None) Example.journal = (Ok (), self)
  ∧ vectors self !! DEFAULT_VECTOR_NAME = Some m
  ∧ get_vector_params self DEFAULT_VECTOR_NAME = Ok Example.dot_params
  ∧ length (mrows m) = 7%nat
  ∧ ncols m = params_size Example.dot_params
  ∧ Forall (λ row, length row = params_size Example.dot_params) (mrows m).
Proof.
  cbv zeta.
  assert (writes (__init__ Example.dot_config None) Example.journal
          = (Ok (), Example.after_journal)) as Hwrites by by vm_compute.
  assert (vectors Example.after_journal !! DEFAULT_VECTOR_NAME
          = Some (default (np_zeros 0)
                    (vectors Example.after_journal !! DEFAULT_VECTOR_NAME)))
    as Hm by by vm_compute.
  assert (get_vector_params Example.after_journal DEFAULT_VECTOR_NAME
          = Ok Example.dot_params) as Hparams by by vm_compute.
  split_and!; [exact Hwrites|exact Hm|exact Hparams|by vm_compute|..];
    apply (@writes_keep_rows_regular Example.z_scalars Example.z_kernels
             _ _ _ _ _ _ _ Hwrites Hm Hparams).
Defined.

Lemma upsert_batch_is_list_witness :
  batch_points (batch_payloads Example.batch) (batch_named Example.batch) 0
    (batch_ids Example.batch) = Ok Example.batch_as_list
  ∧ upsert Example.three_points (PointsBatch Example.batch)
    = upsert Example.three_points (PointsList Example.batch_as_list).
Proof.
  assert (batch_points (batch_payloads Example.batch)
            (batch_named Example.batch) 0 (batch_ids Example.batch)
          = Ok Example.batch_as_list) as Hpoints by by vm_compute.
  split; [exact Hpoints|].
  exact (@upsert_batch_is_list Example.z_scalars Example.z_kernels
           Example.three_points _ _ Hpoints).
Defined.


Lemma upsert_point_outcome_witness :
  let self := Example.three_points in
  let point := Example.replacement in
  let named := named_vectors_of (pt_vector point) in
  well_formed Example.dot_config self
  ∧ malformed_id (pt_id point) = false
  ∧ dom named = dom (vectors self)
  ∧ fitting (vectors self) named
  ∧ (_upsert_point self point).1 = Ok ().
Proof.
  cbv zeta.
  assert (well_formed Example.dot_config Example.three_points) as Hwf
    by well_formed_by_computation.
  assert (malformed_id (pt_id Example.replacement) = false) as Hid
    by by vm_compute.
  assert (dom (named_vectors_of (pt_vector Example.replacement))
          = dom (vectors Example.three_points)) as Hdom by by_computation.
  assert (fitting (vectors Example.three_points)
            (named_vectors_of (pt_vector Example.replacement))) as Hfit.
  { change (named_vectors_of (pt_vector Example.replacement))
      with ({[ DEFAULT_VECTOR_NAME := [5; 5]%Z ]} : gmap string (list Z)).
    apply map_Forall_singleton.
    assert (vectors Example.three_points !! DEFAULT_VECTOR_NAME
            = Some Example.three_rows) as -> by by vm_compute.
    by left. }
  split_and!; [exact Hwf|exact Hid|exact Hdom|exact Hfit|].
  destruct (@upsert_point_outcome Example.z_scalars Example.z_kernels
              Example.dot_config Example.three_points Example.replacement Hwf)
    as (_ & _ & _ & Hok).
  exact (Hok Hid Hdom Hfit).
Defined.

Lemma upsert_point_frame_witness :
  let self := Example.three_points in
  let point := Example.fourth in
  let self' := (_upsert_point self point).2 in
  well_formed Example.dot_config self
  ∧ _upsert_point self point = (Ok (), self')
  ∧ (1 < length (payload self))%nat
  ∧ dict_get (ids self) (pt_id point) ≠ Some 1%nat
  ∧ (∃ m', vectors self' !! DEFAULT_VECTOR_NAME = Some m'
           ∧ length (mrows m') = 7%nat)
  ∧ payload self' !! 1%nat = payload self !! 1%nat
  ∧ deleted self' !! 1%nat = deleted self !! 1%nat
  ∧ ids_inv self' !! 1%nat = ids_inv self !! 1%nat
  ∧ ∀ name m, vectors self !! name = Some m →
      ∃ m', vectors self' !! name = Some m'
            ∧ mrows m' !! 1%nat = mrows m !! 1%nat.
Proof.
  cbv zeta.
  assert (well_formed Example.dot_config Example.three_points) as Hwf
    by well_formed_by_computation.
  assert (_upsert_point Example.three_points Example.fourth
          = (Ok (), (_upsert_point Example.three_points Example.fourth).2))
    as Hcall by by vm_compute.
  assert (1 < length (payload Example.three_points))%nat as Hj
    by (vm_compute; lia).
  assert (dict_get (ids Example.three_points) (pt_id Example.fourth)
          ≠ Some 1%nat) as Hother by by vm_compute.
  split_and!; [exact Hwf|exact Hcall|exact Hj|exact Hother| |..].
  { eexists. split; by vm_compute. }
  all: apply (@upsert_point_frame Example.z_scalars Example.z_kernels
                Example.dot_config _ _ _ 1%nat Hwf Hcall Hj Hother).
Defined.

Lemma upsert_persists_witness :
  let self := __init__ Example.dot_config (Some "db") in
  let self' := Example.after_bad_list.2 in
  upsert self (PointsList Example.bad_list) = (Raise ValueError, self')
  ∧ length (ids self') = 2%nat
  ∧ storage self' = Some [persist (Example.point 1 None [10; 0]%Z)]
  ∧ ∃ done_ rest mid,
      Example.bad_list = done_ ++ rest
      ∧ upsert self (PointsList done_) = (Ok (), mid)
      ∧ storage self' = (λ log, log ++ (persist <$> done_)) <$> storage self
      ∧ match rest with
        | [] => (Raise ValueError : result unit) = Ok () ∧ self' = mid
        | point :: _ =>
            ∃ e, (Raise ValueError : result unit) = Raise e
                 ∧ _upsert_point mid point = (Raise e, self')
        end.
Proof.
  cbv zeta.
  assert (upsert (__init__ Example.dot_config (Some "db"))
            (PointsList Example.bad_list)
          = (Raise ValueError, Example.after_bad_list.2)) as Hcall
    by by vm_compute.
  split_and!; [exact Hcall|by vm_compute|by vm_compute|].
  exact (@upsert_persists Example.z_scalars Example.z_kernels _ _ _ _ Hcall).
Defined.

Lemma delete_ids_effect_witness :
  let self := Example.three_points in
  let self' := Example.after_delete in
  delete self (SelList [IntId 1]) = (Ok (), self')
  ∧ targeted self [IntId 1] 0
  ∧ vectors self' = vectors self
  ∧ payload self' = payload self
  ∧ ids self' = ids self
  ∧ ids_inv self' = ids_inv self
  ∧ storage self'
    = (λ log, log ++ (delete_ <$> [IntId 1])) <$> storage self
  ∧ ∀ idx,
      (targeted self [IntId 1] idx → deleted self' !! idx = Some true)
      ∧ (¬ targeted self [IntId 1] idx →
         deleted self' !! idx = deleted self !! idx).
Proof.
  cbv zeta.
  assert (delete Example.three_points (SelList [IntId 1])
          = (Ok (), Example.after_delete)) as Hcall by by vm_compute.
  split_and!; [exact Hcall|by_computation|..];
    apply (@delete_ids_effect Example.z_scalars Example.z_kernels _ _ _ Hcall).
Defined.

Lemma delete_unknown_id_witness :
  let self := Example.three_points in
  delete self (SelList [IntId 1]) = (Ok (), Example.after_delete)
  ∧ dict_get (ids self) (IntId 7) = None
  ∧ ∃ self',
      delete self (SelList ([IntId 1] ++ IntId 7 :: [IntId 2]))
      = (Raise KeyError, self')
      ∧ deleted self' = deleted Example.after_delete
      ∧ storage self' = storage self
      ∧ vectors self' = vectors self
      ∧ payload self' = payload self
      ∧ ids self' = ids self.
Proof.
  cbv zeta.
  assert (delete Example.three_points (SelList [IntId 1])
          = (Ok (), Example.after_delete)) as Hcall by by vm_compute.
  assert (dict_get (ids Example.three_points) (IntId 7) = None) as Hunknown
    by by vm_compute.
  split_and!; [exact Hcall|exact Hunknown|].
  exact (@delete_unknown_id Example.z_scalars Example.z_kernels _ _ _
           [IntId 2] _ Hcall Hunknown).
Defined.

Lemma delete_by_filter_witness :
  let self := Example.after_delete in
  let f := Example.without_two in
  well_formed Example.dot_config self
  ∧ length (calculate_payload_mask (payload self) (Some f) (ids_inv self))
    = length (payload self)
  ∧ _selector_to_ids self (SelFilter f) = Ok [IntId 3]
  ∧ ∃ point_ids self',
      _selector_to_ids self (SelFilter f) = Ok point_ids
      ∧ _selector_to_ids self (SelFilterSelector f) = Ok point_ids
      ∧ delete self (SelFilter f) = (Ok (), self')
      ∧ delete self (SelFilterSelector f) = (Ok (), self')
      ∧ ∀ point_id,
          point_id ∈ point_ids
          ↔ ∃ idx,
              dict_get (ids self) point_id = Some idx
              ∧ calculate_payload_mask (payload self) (Some f) (ids_inv self)
                  !! idx = Some true
              ∧ deleted self !! idx = Some false.
Proof.
  cbv zeta.
  assert (well_formed Example.dot_config Example.after_delete) as Hwf
    by well_formed_by_computation.
  assert (length (calculate_payload_mask (payload Example.after_delete)
                    (Some Example.without_two)
                    (ids_inv Example.after_delete))
          = length (payload Example.after_delete)) as Hmask by by vm_compute.
  split_and!; [exact Hwf|exact Hmask|by vm_compute|].
  exact (@delete_by_filter Example.z_scalars Example.z_kernels _ _ _
           Hwf Hmask).
Defined.

Lemma payload_projection_witness :
  let self := Example.tagged in
  let d : gmap string Value := {[ "k" := 1%Z; "c" := 2%Z ]} in
  let keys := ["k"; "z"] in
  let listed := filter (λ kv : string * Value, kv.1 ∈ keys) d in
  let others := filter (λ kv : string * Value, ¬ kv.1 ∈ keys) d in
  payload self !! 0%nat = Some (Some d)
  ∧ listed = {[ "k" := 1%Z ]}
  ∧ _get_payload self 0 (WPInclude keys) = Ok (Some listed)
  ∧ (keys ≠ [] → _get_payload self 0 (WPList keys) = Ok (Some listed))
  ∧ _get_payload self 0 (WPList []) = Ok None
  ∧ _get_payload self 0 (WPExclude keys) = Ok (Some others)
  ∧ listed ∪ others = d
  ∧ listed ##ₘ others.
Proof.
  cbv zeta.
  assert (payload Example.tagged !! 0%nat
          = Some (Some ({[ "k" := 1%Z; "c" := 2%Z ]} : gmap string Value)))
    as Hd by by vm_compute.
  destruct (@payload_projection Example.z_scalars Example.tagged 0 _
              ["k"; "z"] Hd) as (Hinclude & Hlist & Hnone & Hexclude
                                 & Hunion & Hdisjoint).
  split_and!; [exact Hd|by vm_compute|exact Hinclude|exact Hlist|exact Hnone
              |exact Hexclude|exact Hunion|exact Hdisjoint].
Defined.

Lemma set_payload_merges_witness :
  let self := Example.tagged in
  let self' := Example.after_set_payload in
  let point_ids := [IntId 2; IntId 1] in
  _selector_to_ids self (SelList point_ids) = Ok point_ids
  ∧ set_payload self Example.tags (SelList point_ids) = (Ok (), self')
  ∧ payload self'
    = [Some {[ "k" := 7%Z; "n" := 5%Z; "c" := 2%Z ]};
       Some {[ "k" := 7%Z; "n" := 5%Z ]}]
  ∧ (∀ idx, targeted self point_ids idx →
       ∃ (old : option Payload) (new : gmap string Value),
         payload self !! idx = Some old
         ∧ payload self' !! idx = Some (Some new)
         ∧ ∀ key, new !! key
                  = match (Example.tags : gmap string Value) !! key with
                    | Some v => Some v
                    | None => default (∅ : gmap string Value) old !! key
                    end)
  ∧ (∀ idx, ¬ targeted self point_ids idx →
       payload self' !! idx = payload self !! idx)
  ∧ vectors self' = vectors self ∧ deleted self' = deleted self
  ∧ ids self' = ids self ∧ ids_inv self' = ids_inv self.
Proof.
  cbv zeta.
  assert (_selector_to_ids Example.tagged (SelList [IntId 2; IntId 1])
          = Ok [IntId 2; IntId 1]) as Hids by done.
  assert (set_payload Example.tagged Example.tags
            (SelList [IntId 2; IntId 1])
          = (Ok (), Example.after_set_payload)) as Hcall by by vm_compute.
  split_and!; [exact Hids|exact Hcall|by vm_compute|..];
    apply (@set_payload_merges Example.z_scalars Example.z_kernels
             _ _ _ _ _ Hids Hcall).
Defined.

Lemma overwrite_and_clear_replace_witness :
  let self := Example.tagged in
  let self' := Example.after_overwrite_payload in
  let point_ids := [IntId 2; IntId 1] in
  _selector_to_ids self (SelList point_ids) = Ok point_ids
  ∧ overwrite_payload self Example.tags (SelList point_ids) = (Ok (), self')
  ∧ targeted self point_ids 0
  ∧ ∀ idx,
      (targeted self point_ids idx →
       _get_payload self' idx (WPBool true) = Ok (Some Example.tags))
      ∧ (¬ targeted self point_ids idx →
         payload self' !! idx = payload self !! idx).
Proof.
  cbv zeta.
  assert (_selector_to_ids Example.tagged (SelList [IntId 2; IntId 1])
          = Ok [IntId 2; IntId 1]) as Hids by done.
  assert (overwrite_payload Example.tagged Example.tags
            (SelList [IntId 2; IntId 1])
          = (Ok (), Example.after_overwrite_payload)) as Hcall
    by by vm_compute.
  split_and!; [exact Hids|exact Hcall|by_computation|].
  exact (proj1 (@overwrite_and_clear_replace Example.z_scalars
                  Example.z_kernels _ _ _ _ _ Hids) Hcall).
Defined.

Lemma payload_writes_outcome_witness :
  let self := Example.three_points in
  let known_ids := [IntId 3; IntId 1] in
  let some_unknown := [IntId 3; IntId 9; IntId 1] in
  well_formed Example.dot_config self
  ∧ Forall (λ point_id, is_Some (dict_get (ids self) point_id)) known_ids
  ∧ ¬ Forall (λ point_id, is_Some (dict_get (ids self) point_id)) some_unknown
  ∧ (∃ self', set_payload self Example.tags (SelList known_ids)
              = (Ok (), self')
              ∧ set_payload self Example.tags (SelPointIdsList known_ids)
                = (Ok (), self'))
  ∧ (∃ self', set_payload self Example.tags (SelList some_unknown)
              = (Raise KeyError, self')
              ∧ set_payload self Example.tags (SelPointIdsList some_unknown)
                = (Raise KeyError, self')).
Proof.
  cbv zeta.
  assert (well_formed Example.dot_config Example.three_points) as Hwf
    by well_formed_by_computation.
  assert (Forall (λ point_id,
                    is_Some (dict_get (ids Example.three_points) point_id))
            [IntId 3; IntId 1]) as Hknown by by_computation.
  assert (¬ Forall (λ point_id,
                      is_Some (dict_get (ids Example.three_points) point_id))
              [IntId 3; IntId 9; IntId 1]) as Hunknown by by_computation.
  split_and!; [exact Hwf|exact Hknown|exact Hunknown|..].
  - exact (proj1 (@payload_writes_outcome Example.z_scalars Example.z_kernels
                    Example.dot_config Example.three_points Example.tags
                    [IntId 3; IntId 1] _ Hwf (list_elem_of_here _ _))
             Hknown).
  - exact (proj2 (@payload_writes_outcome Example.z_scalars Example.z_kernels
                    Example.dot_config Example.three_points Example.tags
                    [IntId 3; IntId 9; IntId 1] _ Hwf (list_elem_of_here _ _))
             Hunknown).
Defined.

Lemma payload_writes_persist_witness :
  let self := Example.tagged in
  let self' := Example.after_set_payload in
  let point_ids := [IntId 2; IntId 1] in
  let log := default [] (storage self) in
  storage self = Some log
  ∧ _selector_to_ids self (SelList point_ids) = Ok point_ids
  ∧ set_payload self Example.tags (SelList point_ids) = (Ok (), self')
  ∧ ∃ points, mapM (stored_point self') point_ids = Ok points
              ∧ storage self' = Some (log ++ (persist <$> points)).
Proof.
  cbv zeta.
  assert (storage Example.tagged = Some (default [] (storage Example.tagged)))
    as Hlog by by vm_compute.
  assert (_selector_to_ids Example.tagged (SelList [IntId 2; IntId 1])
          = Ok [IntId 2; IntId 1]) as Hids by done.
  assert (set_payload Example.tagged Example.tags
            (SelList [IntId 2; IntId 1])
          = (Ok (), Example.after_set_payload)) as Hcall by by vm_compute.
  split_and!; [exact Hlog|exact Hids|exact Hcall|].
  exact (@payload_writes_persist Example.z_scalars Example.z_kernels
           Example.tagged _ Example.tags _ _ _ _ (list_elem_of_here _ _)
           Hlog Hids Hcall).
Defined.

Lemma retrieve_known_in_order_witness :
  let self := Example.three_points in
  let point_ids := [IntId 3; IntId 9; IntId 1; IntId 3] in
  well_formed Example.dot_config self
  ∧ filter (λ point_id, is_Some (dict_get (ids self) point_id)) point_ids
    = [IntId 3; IntId 1; IntId 3]
  ∧ (∀ with_payload with_vectors records,
       retrieve self point_ids with_payload with_vectors = Ok records →
       rec_id <$> records
       = filter (λ point_id, is_Some (dict_get (ids self) point_id))
           point_ids)
  ∧ ∀ p v : bool,
      ∃ records, retrieve self point_ids (WPBool p) (WVBool v) = Ok records.
Proof.
  cbv zeta.
  assert (well_formed Example.dot_config Example.three_points) as Hwf
    by well_formed_by_computation.
  destruct (@retrieve_known_in_order Example.z_scalars
              Example.dot_config Example.three_points
              [IntId 3; IntId 9; IntId 1; IntId 3] Hwf) as [Hshape Htotal].
  split_and!; [exact Hwf|by vm_compute|exact Hshape|exact Htotal].
Defined.

Lemma count_is_selection_witness :
  let self := Example.after_delete in
  let f := Example.without_two in
  well_formed Example.dot_config self
  ∧ length (calculate_payload_mask (payload self) (Some f) (ids_inv self))
    = length (payload self)
  ∧ _filter_to_ids self f = Ok [IntId 3]
  ∧ count self (Some f) = Ok (length [IntId 3])
  ∧ NoDup [IntId 3].
Proof.
  cbv zeta.
  assert (well_formed Example.dot_config Example.after_delete) as Hwf
    by well_formed_by_computation.
  assert (length (calculate_payload_mask (payload Example.after_delete)
                    (Some Example.without_two)
                    (ids_inv Example.after_delete))
          = length (payload Example.after_delete)) as Hmask by by vm_compute.
  assert (_filter_to_ids Example.after_delete Example.without_two
          = Ok [IntId 3]) as Hids by by vm_compute.
  split_and!; [exact Hwf|exact Hmask|exact Hids|..];
    apply (@count_is_selection Example.z_scalars Example.z_kernels
             _ _ _ _ Hwf Hmask Hids).
Defined.

Lemma recommend_unknown_example_witness :
  let self := Example.three_points in
  well_formed Example.dot_config self
  ∧ is_Some (vectors self !! DEFAULT_VECTOR_NAME)
  ∧ dict_get (ids self) (IntId 9) = None
  ∧ recommend self Example.caller_heap [IntId 1] (Some [IntId 3; IntId 9])
      (Some 0%nat) 10 0 (WPBool true) (WVBool false) None None None None
    = (Raise ValueError, Example.caller_heap).
Proof.
  cbv zeta.
  assert (well_formed Example.dot_config Example.three_points) as Hwf
    by well_formed_by_computation.
  assert (is_Some (vectors Example.three_points !! DEFAULT_VECTOR_NAME))
    as Hname by (vm_compute; by eexists).
  assert (dict_get (ids Example.three_points) (IntId 9) = None) as Hunknown
    by by vm_compute.
  split_and!; [exact Hwf|exact Hname|exact Hunknown|].
  apply (@recommend_unknown_example Example.z_scalars Example.z_kernels
           Example.dot_config Example.three_points Example.caller_heap
           [IntId 1] (Some [IntId 3; IntId 9]) (Some 0%nat) 10 0
           (WPBool true) (WVBool false) None None None None Hwf Hname).
  right. exists (IntId 9). split; [|exact Hunknown].
  by_computation.
Defined.

Lemma deleted_points_are_hidden_witness :
  let self := Example.three_points in
  let self' := Example.after_delete in
  consistent self
  ∧ delete self (SelList [IntId 1]) = (Ok (), self')
  ∧ length (calculate_payload_mask (payload self') None (ids_inv self'))
    = length (deleted self')
  ∧ (∀ page,
       search self' Example.query None 10 0 (WPBool true) (WVBool false) None
       = Ok page →
       ∀ scored_point, scored_point ∈ page → sp_id scored_point ∉ [IntId 1])
  ∧ (∀ records next,
       scroll self' None 10 None (WPBool true) (WVBool false)
       = Ok (records, next) →
       ∀ record, record ∈ records → rec_id record ∉ [IntId 1]).
Proof.
  cbv zeta.
  assert (consistent Example.three_points) as Hcons
    by (unfold consistent; split_and!; by_computation).
  assert (delete Example.three_points (SelList [IntId 1])
          = (Ok (), Example.after_delete)) as Hcall by by vm_compute.
  assert (length (calculate_payload_mask (payload Example.after_delete) None
                    (ids_inv Example.after_delete))
          = length (deleted Example.after_delete)) as Hlen by by vm_compute.
  split_and!; [exact Hcons|exact Hcall|exact Hlen|..];
    apply (@deleted_points_are_hidden Example.z_scalars Example.z_kernels
             _ _ _ Example.query None 10 0 None (WPBool true) (WVBool false)
             None Hcons Hcall Hlen).
Defined.
